(** * A shallow embedding of the report round-trip engine of [app.py]

    The Python program [app.py] keeps, per player, a per-category history
    of rounded averages and a dated history of overall ratings.  They are
    written into a .docx report by [create_docx_report] and read back by
    [parse_docx_report].  This file embeds those two functions, their helper
    [category_average], the chart of [build_barograph], the page of [main]
    and the Python built-ins they rely on (str methods, the two regular
    expressions, [float], [round], [statistics.mean], the [:.1f] format and
    the dict operations).

    Modelling choices:
    - a Python [str] is a list of Unicode code points ([text := list N]);
    - a Python [float] is a [pyfloat]: the exact value of a finite double,
      [-0.0], an infinity or a nan; [float()] reads a decimal numeral as the
      double nearest to it, [round(x, 1)] and [:.1f] round the exact value
      of the double half to even;
    - the category averages and their mean ([statistics.mean]) are the
      exact quotients of the sums;
    - an exception is the [Err] branch of [result], tagged with the Python
      exception class;
    - a python-docx document is the list of the texts of its paragraphs
      ([para.text]); the chart picture is a paragraph with empty text. *)

From Stdlib Require Import ZArith QArith List String Ascii Bool Lia.
Import ListNotations.

Open Scope list_scope.

(** ** Python exceptions and the error monad *)

Inductive py_error : Type :=
| ValueError        (* float() of a non-number, tuple unpacking *)
| StatisticsError   (* statistics.mean of no data *)
| KeyError          (* dict lookup of a missing key *)
| OverflowError     (* int() of an infinity *)
| StreamlitAPIException.  (* a widget's default out of range, a widget key used twice *)

Inductive result (A : Type) : Type :=
| Ok (a : A)
| Err (e : py_error).
Arguments Ok {A} a.
Arguments Err {A} e.

Definition bind {A B} (r : result A) (k : A -> result B) : result B :=
  match r with Ok a => k a | Err e => Err e end.

Notation "x <- r ;; k" := (bind r (fun x => k))
  (at level 61, r at next level, right associativity).

(** [Some]/[None] of a partial built-in, with its exception. *)
Definition of_option {A} (e : py_error) (o : option A) : result A :=
  match o with Some a => Ok a | None => Err e end.

(** A list comprehension whose element expression may raise: elements are
    evaluated left to right, the first exception escapes. *)
Fixpoint map_result {A B} (f : A -> result B) (l : list A) : result (list B) :=
  match l with
  | [] => Ok []
  | a :: l' => b <- f a ;; bs <- map_result f l' ;; Ok (b :: bs)
  end.

(** ** Python strings *)

Module PyStr.

Definition text := list N.

(** ASCII literals as code points. *)
Definition str (s : string) : text :=
  map N_of_ascii (list_ascii_of_string s).

Definition BULLET : N := 8226.   (* U+2022 '•' *)
Definition ENDASH : N := 8211.   (* U+2013 '–' *)
Definition NEWLINE : N := 10.
Definition COLON : N := 58.
Definition SEMI : N := 59.
Definition DASH : N := 45.

(** [str.isspace], which is also the class [\s] of a [str] regex. *)
Definition is_space (c : N) : bool :=
  ((9 <=? c) && (c <=? 13))%N || ((28 <=? c) && (c <=? 32))%N
  || (c =? 133)%N || (c =? 160)%N || (c =? 5760)%N
  || ((8192 <=? c) && (c <=? 8202))%N
  || (c =? 8232)%N || (c =? 8233)%N || (c =? 8239)%N
  || (c =? 8287)%N || (c =? 12288)%N.

(** The code points of the digit zero of every block of Unicode decimal
    digits (category Nd, Unicode 14.0 as in Python 3.11); each block holds
    the digits 0 to 9 in order.  This is the class [\d] of a [str] regex
    and the set of digits [float()] accepts. *)
Definition nd_zeros : list N :=
  [48; 1632; 1776; 1984; 2406; 2534; 2662; 2790; 2918; 3046; 3174; 3302;
   3430; 3558; 3664; 3792; 3872; 4160; 4240; 6112; 6160; 6470; 6608; 6784;
   6800; 6992; 7088; 7232; 7248; 42528; 43216; 43264; 43472; 43504; 43600;
   44016; 65296; 66720; 68912; 69734; 69872; 69942; 70096; 70384; 70736;
   70864; 71248; 71360; 71472; 71904; 72016; 72784; 73040; 73120; 92768;
   92864; 93008; 120782; 120792; 120802; 120812; 120822; 123200; 123632;
   125264; 130032]%N.

Definition digit_value (c : N) : option N :=
  match find (fun z => (z <=? c) && (c <? z + 10))%N nd_zeros with
  | Some z => Some (c - z)%N
  | None => None
  end.

Definition is_digit (c : N) : bool :=
  match digit_value c with Some _ => true | None => false end.

Fixpoint text_eqb (s t : text) : bool :=
  match s, t with
  | [], [] => true
  | a :: s', b :: t' => (a =? b)%N && text_eqb s' t'
  | _, _ => false
  end.

Fixpoint lstrip (s : text) : text :=
  match s with
  | c :: s' => if is_space c then lstrip s' else s
  | [] => []
  end.

Definition rstrip (s : text) : text := rev (lstrip (rev s)).

(** [str.strip()] with no argument. *)
Definition strip (s : text) : text := rstrip (lstrip s).

Fixpoint starts_with (p s : text) : bool :=
  match p, s with
  | [], _ => true
  | a :: p', b :: s' => (a =? b)%N && starts_with p' s'
  | _ :: _, [] => false
  end.

Definition ends_with (p s : text) : bool := starts_with (rev p) (rev s).

Definition contains (c : N) (s : text) : bool := existsb (N.eqb c) s.

(** [s.split(c)] for a one-character separator [c]. *)
Fixpoint split_char (c : N) (s : text) : list text :=
  match s with
  | [] => [[]]
  | x :: s' =>
      let parts := split_char c s' in
      if (x =? c)%N then [] :: parts
      else match parts with
           | p :: ps => (x :: p) :: ps
           | [] => [[x]]
           end
  end.

(** [s.replace(pat, rep)] for a non-empty [pat]: left to right, without
    overlaps.  [fuel] bounds the number of positions scanned. *)
Fixpoint replace_fuel (fuel : nat) (pat rep s : text) : text :=
  match fuel with
  | O => s
  | S f =>
      match s with
      | [] => []
      | c :: s' =>
          if starts_with pat s
          then rep ++ replace_fuel f pat rep (skipn (List.length pat) s)
          else c :: replace_fuel f pat rep s'
      end
  end.

Definition replace (pat rep s : text) : text :=
  replace_fuel (S (List.length s)) pat rep s.

Definition is_nil {A} (l : list A) : bool :=
  match l with [] => true | _ => false end.

(** [sep.join(parts)]. *)
Fixpoint join (sep : text) (parts : list text) : text :=
  match parts with
  | [] => []
  | [p] => p
  | p :: ps => p ++ sep ++ join sep ps
  end.

End PyStr.

Import PyStr.

(** ** Python numbers: [float()], [round(x, 1)], [f"{x:.1f}"], [statistics.mean] *)

Module PyNum.

(** A Python [float]: a finite double other than [-0.0], as its exact
    value; [-0.0]; an infinity, negative or not; a nan. *)
Inductive pyfloat : Type :=
| PFin (q : Q)
| PNegZero
| PInf (neg : bool)
| PNaN.

(** The integer written by a list of digit values. *)
Definition digits_value (ds : list N) : Z :=
  fold_left (fun acc d => acc * 10 + Z.of_N d)%Z ds 0%Z.

(** The longest prefix of decimal digits, as digit values, and the rest. *)
Fixpoint span_digits (s : text) : list N * text :=
  match s with
  | c :: s' =>
      match digit_value c with
      | Some d => let (ds, r) := span_digits s' in (d :: ds, r)
      | None => ([], s)
      end
  | [] => ([], [])
  end.

(** [x / d] rounded to an integer, ties to even ([d > 0]). *)
Definition div_half_even (x d : Z) : Z :=
  let fl := (x / d)%Z in
  let r := (x mod d)%Z in
  match Z.compare (2 * r) d with
  | Lt => fl
  | Gt => (fl + 1)%Z
  | Eq => if Z.even fl then fl else (fl + 1)%Z
  end.

(** The binary exponent of [q > 0]: the [k] with [2^k <= q < 2^(k+1)].
    [Z.log2] of the numerator minus that of the denominator is [k] or
    [k + 1]. *)
Definition flog2 (q : Q) : Z :=
  let k := (Z.log2 (Qnum q) - Z.log2 (Zpos (Qden q)))%Z in
  let above :=
    if (0 <=? k)%Z then (Qnum q <? Zpos (Qden q) * 2 ^ k)%Z
    else (Qnum q * 2 ^ (- k) <? Zpos (Qden q))%Z in
  if above then (k - 1)%Z else k.

(** The IEEE-754 double nearest to [q >= 0], ties to even: 53 bits of
    significand, the spacing [2^e] with [e = max (flog2 q - 52) (-1074)]
    (subnormals below [2^-1022]).  [None] when it overflows: the rounded
    value reaches [2^1024]. *)
Definition round_binary (q : Q) : option Q :=
  if Qeq_bool q 0 then Some 0 else
  let e := Z.max (flog2 q - 52) (-1074) in
  let v :=
    if (e <? 0)%Z
    then Qmake (div_half_even (Qnum q * 2 ^ (- e)) (Zpos (Qden q))) (Z.to_pos (2 ^ (- e)))
    else inject_Z (div_half_even (Qnum q) (Zpos (Qden q) * 2 ^ e) * 2 ^ e) in
  if Qle_bool (inject_Z (2 ^ 1024)) v then None else Some v.

(** The float of sign [neg] whose magnitude is the double nearest to
    [q >= 0]: an infinity on overflow, a signed zero on underflow. *)
Definition to_double (neg : bool) (q : Q) : pyfloat :=
  match round_binary q with
  | None => PInf neg
  | Some v =>
      if Qeq_bool v 0 then (if neg then PNegZero else PFin 0)
      else PFin (if neg then Qopp v else v)
  end.

(** An ASCII digit. *)
Definition is_ascii_digit (c : N) : bool := ((48 <=? c) && (c <=? 57))%N.

(** [_PyUnicode_TransformDecimalAndSpaceToASCII], one character: ASCII is
    kept, whitespace becomes ' ', a decimal digit of any script becomes the
    ASCII digit; any other character makes [float()] fail ([None]). *)
Definition float_char (c : N) : option N :=
  if (c <? 127)%N then Some c
  else if is_space c then Some 32%N
  else match digit_value c with
       | Some d => Some (48 + d)%N
       | None => None
       end.

Fixpoint map_option {A B} (f : A -> option B) (l : list A) : option (list B) :=
  match l with
  | [] => Some []
  | a :: l' =>
      match f a, map_option f l' with
      | Some b, Some bs => Some (b :: bs)
      | _, _ => None
      end
  end.

(** [_Py_string_to_number_with_underscores]: every '_' stands between two
    ASCII digits, and the underscores are dropped.  [prev] is the previous
    character ('\0' at the start). *)
Fixpoint drop_underscores (prev : N) (s : text) : option text :=
  match s with
  | [] => if (prev =? 95)%N then None else Some []
  | c :: s' =>
      if (c =? 95)%N then
        if is_ascii_digit prev then drop_underscores c s' else None
      else if (prev =? 95)%N && negb (is_ascii_digit c) then None
      else match drop_underscores c s' with
           | Some r => Some (c :: r)
           | None => None
           end
  end.

(** [Py_ISSPACE]: the ASCII whitespace. *)
Definition ascii_space (c : N) : bool := (c =? 32)%N || ((9 <=? c) && (c <=? 13))%N.

Fixpoint lstrip_ascii (s : text) : text :=
  match s with
  | c :: s' => if ascii_space c then lstrip_ascii s' else s
  | [] => []
  end.

(** The whitespace stripping of [float_from_string_inner]. *)
Definition strip_ascii (s : text) : text := rev (lstrip_ascii (rev (lstrip_ascii s))).

(** An optional sign '-' or '+'. *)
Definition sign_of (s : text) : bool * text :=
  match s with
  | c :: s' => if (c =? 45)%N then (true, s') else if (c =? 43)%N then (false, s') else (false, s)
  | [] => (false, [])
  end.

(** [_Py_dg_strtod] on the whole of [s]: a sign, digits with an optional
    fraction part (at least one digit in all), an optional exponent 'e' or
    'E' with an optional sign; the sign, the digits and the power of ten
    they are scaled by. *)
Definition decimal_parts (s : text) : option (bool * list N * Z) :=
  let '(neg, body) := sign_of s in
  let '(d1, r1) := span_digits body in
  let '(d2, r2) :=
    match r1 with
    | c :: r => if (c =? 46)%N then span_digits r else ([], r1)
    | [] => ([], [])
    end in
  if is_nil (d1 ++ d2) then None else
  let scale := (- Z.of_nat (List.length d2))%Z in
  match r2 with
  | [] => Some (neg, d1 ++ d2, scale)
  | c :: r3 =>
      if (c =? 101)%N || (c =? 69)%N then
        let '(eneg, ebody) := sign_of r3 in
        let '(de, r4) := span_digits ebody in
        if is_nil de || negb (is_nil r4) then None
        else Some (neg, d1 ++ d2,
                   (scale + (if eneg then Z.opp (digits_value de) else digits_value de))%Z)
      else None
  end.

(** The float of the decimal [ds * 10^x] of sign [neg]: the nearest
    double.  A non-zero decimal with [x > 400] is above [2^1024], one below
    [10^-400] rounds to zero: those two cases are decided without
    computing the power. *)
Definition decimal_float (neg : bool) (ds : list N) (x : Z) : pyfloat :=
  let m := digits_value ds in
  if (m =? 0)%Z then to_double neg 0
  else if (400 <? x)%Z then PInf neg
  else if (x + Z.of_nat (List.length ds) <? -400)%Z then to_double neg 0
  else to_double neg (if (0 <=? x)%Z then inject_Z (m * 10 ^ x)
                      else Qmake m (Z.to_pos (10 ^ (- x)))).

Definition lower (c : N) : N := if ((65 <=? c) && (c <=? 90))%N then (c + 32)%N else c.

(** [_Py_parse_inf_or_nan], tried when no digit starts the text: a sign,
    then "inf", "infinity" or "nan" in any case. *)
Definition special_value (s : text) : option pyfloat :=
  let '(neg, body) := sign_of s in
  let b := map lower body in
  if text_eqb b (str "inf") || text_eqb b (str "infinity") then Some (PInf neg)
  else if text_eqb b (str "nan") then Some PNaN
  else None.

(** [float(s)] ([PyFloat_FromString]).  [None] is the [ValueError]
    branch. *)
Definition py_float (s : text) : option pyfloat :=
  match map_option float_char s with
  | None => None
  | Some a =>
      match drop_underscores 0 a with
      | None => None
      | Some u =>
          let t := strip_ascii u in
          if is_nil t then None else
          match decimal_parts t with
          | Some (neg, ds, x) => Some (decimal_float neg ds x)
          | None => special_value t
          end
      end
  end.

(** [q * 10] rounded to an integer, ties to even: the tenths of
    [round(q, 1)] and of [f"{q:.1f}"]. *)
Definition round_tenths (q : Q) : Z :=
  let x := (Qnum q * 10)%Z in
  let d := Zpos (Qden q) in
  let fl := (x / d)%Z in
  let r := (x mod d)%Z in
  match Z.compare (2 * r) d with
  | Lt => fl
  | Gt => (fl + 1)%Z
  | Eq => if Z.even fl then fl else (fl + 1)%Z
  end.

(** [round(x, 1)] of a float ([float.__round__]): [_Py_dg_dtoa] in mode 3
    rounds the exact value of [|x|] to tenths, half to even, and the
    decimal, with the sign of [x], is read back by [_Py_dg_strtod];
    infinities, nans and zeros are kept. *)
Definition round1f (v : pyfloat) : pyfloat :=
  match v with
  | PFin q =>
      to_double (negb (Qle_bool 0 q)) (Qmake (round_tenths (Qmake (Z.abs (Qnum q)) (Qden q))) 10)
  | other => other
  end.

(** Decimal digits of a natural number, most significant first. *)
Fixpoint dec_digits_fuel (fuel : nat) (n : N) : list N :=
  match fuel with
  | O => []
  | S f => if (n <? 10)%N then [n] else dec_digits_fuel f (n / 10) ++ [(n mod 10)%N]
  end.

Definition dec_digits (n : N) : list N := dec_digits_fuel (S (N.to_nat n)) n.

Definition digit_char (d : N) : N := (48 + d)%N.

(** [f"{q:.1f}"] of a finite value: the sign of [q], then its absolute
    value rounded to tenths. *)
Definition fmt1 (q : Q) : text :=
  let t := Z.to_N (round_tenths (Qmake (Z.abs (Qnum q)) (Qden q))) in
  (if Qle_bool 0 q then [] else str "-")
  ++ map digit_char (dec_digits (t / 10)) ++ str "."
  ++ [digit_char (t mod 10)].

(** [f"{x:.1f}"] of a float. *)
Definition fmt1f (v : pyfloat) : text :=
  match v with
  | PFin q => fmt1 q
  | PNegZero => str "-0.0"
  | PInf false => str "inf"
  | PInf true => str "-inf"
  | PNaN => str "nan"
  end.

Fixpoint qsum (l : list Q) : Q :=
  match l with [] => 0 | x :: l' => x + qsum l' end.

(** [statistics.mean(data)], as the exact quotient of the sum by the
    count. *)
Definition mean (l : list Q) : result Q :=
  match l with
  | [] => Err StatisticsError
  | _ => Ok (qsum l / inject_Z (Z.of_nat (List.length l)))
  end.

End PyNum.

Import PyNum.

(** ** [category_average] (app.py, lines 24-25) *)

Definition subscores := list (text * Z).       (* dict[str, int] *)
Definition score_matrix := list (text * subscores).

Definition category_average (sub_scores : subscores) : result Q :=
  mean (map (fun kv => inject_Z (snd kv)) sub_scores).

(** ** Python dicts with [str] keys, in insertion order *)

Module Dict.

Fixpoint get {V} (k : text) (d : list (text * V)) : option V :=
  match d with
  | [] => None
  | (k', v) :: d' => if text_eqb k k' then Some v else get k d'
  end.

Definition mem {V} (k : text) (d : list (text * V)) : bool :=
  match get k d with Some _ => true | None => false end.

(** [d[k] = v]: an existing key keeps its position, a new key goes last. *)
Fixpoint set {V} (k : text) (v : V) (d : list (text * V)) : list (text * V) :=
  match d with
  | [] => [(k, v)]
  | (k', v') :: d' => if text_eqb k k' then (k', v) :: d' else (k', v') :: set k v d'
  end.

End Dict.

(** ** The two regular expressions of [parse_docx_report] *)

Module Regex.

(** The text before the first occurrence of [c] and the text after it. *)
Fixpoint split_at_first (c : N) (s : text) : option (text * text) :=
  match s with
  | [] => None
  | x :: s' =>
      if (x =? c)%N then Some ([], s')
      else match split_at_first c s' with
           | Some (p, r) => Some (x :: p, r)
           | None => None
           end
  end.

Fixpoint take_while (p : N -> bool) (s : text) : text :=
  match s with
  | c :: s' => if p c then c :: take_while p s' else []
  | [] => []
  end.

(** [\s*([^:]+)] matched on [pre], the text between the bullet and the
    first ':': [\s*] is greedy and gives back one character when [pre] is
    all whitespace, so that [[^:]+] matches at least one. *)
Definition cat_group1 (pre : text) : option text :=
  match lstrip pre with
  | [] => match rev pre with [] => None | c :: _ => Some [c] end
  | g => Some g
  end.

(** [\s*(.+)$] matched on [suf], the text after the first ':': [\s*]
    takes [k] characters, from the greedy maximum down to none; then [.+]
    takes the longest run without a newline, which must be non-empty and
    end at the end of the text or before a final newline. *)
Fixpoint tail_try (k : nat) (suf : text) : option text :=
  let u := skipn k suf in
  let r := take_while (fun c => negb (c =? NEWLINE)%N) u in
  let after := skipn (List.length r) u in
  if negb (is_nil r)
     && match after with [] => true | [c] => (c =? NEWLINE)%N | _ => false end
  then Some r
  else match k with O => None | S k' => tail_try k' suf end.

Definition leading_spaces (s : text) : nat :=
  List.length s - List.length (lstrip s).

Definition cat_tail (suf : text) : option text :=
  tail_try (leading_spaces suf) suf.

(** [re.compile(r"^•\s*([^:]+):\s*(.+)$").match(t)]: the two groups.
    [[^:]+] stops at the first ':' of the text, so the groups are fixed by
    that colon. *)
Definition cat_pattern_match (t : text) : option (text * text) :=
  match t with
  | b :: rest =>
      if (b =? BULLET)%N then
        match split_at_first COLON rest with
        | Some (pre, suf) =>
            match cat_group1 pre, cat_tail suf with
            | Some g1, Some g2 => Some (g1, g2)
            | _, _ => None
            end
        | None => None
        end
      else None
  | [] => None
  end.

(** [re.match(r"^\d{4}-\d{2}-\d{2}:", t)] succeeds. *)
Definition date_pattern_match (t : text) : bool :=
  match t with
  | y1 :: y2 :: y3 :: y4 :: s1 :: m1 :: m2 :: s2 :: d1 :: d2 :: c :: _ =>
      is_digit y1 && is_digit y2 && is_digit y3 && is_digit y4
      && (s1 =? DASH)%N && is_digit m1 && is_digit m2
      && (s2 =? DASH)%N && is_digit d1 && is_digit d2 && (c =? COLON)%N
  | _ => false
  end.

End Regex.

Import Regex.

(** ** [parse_docx_report] (app.py, lines 77-108) *)

Record ParsedMeta : Type := {
  player_type : option text;
  player_name : option text;
  category_history : list (text * list pyfloat);
  overall_history : list (text * pyfloat)
}.

Definition empty_meta : ParsedMeta :=
  {| player_type := None; player_name := None;
     category_history := []; overall_history := [] |}.

(** The loop state: [meta] and the flag [overall_header_seen]. *)
Record parse_state : Type := {
  meta : ParsedMeta;
  overall_header_seen : bool
}.

Definition parse_init : parse_state :=
  {| meta := empty_meta; overall_header_seen := false |}.

Definition STATS_REPORT : text := str "Stats Report".
Definition OVERALL_HEADER : text := str "Overall Ratings by Date:".
Definition OVERALL_RATING : text := str "Overall Rating:".

Definition set_names (p t : text) (m : ParsedMeta) : ParsedMeta :=
  {| player_type := Some t; player_name := Some p;
     category_history := category_history m;
     overall_history := overall_history m |}.

Definition set_category (cat : text) (vals : list pyfloat) (m : ParsedMeta) : ParsedMeta :=
  {| player_type := player_type m; player_name := player_name m;
     category_history := Dict.set cat vals (category_history m);
     overall_history := overall_history m |}.

Definition add_overall (d : text) (v : pyfloat) (m : ParsedMeta) : ParsedMeta :=
  {| player_type := player_type m; player_name := player_name m;
     category_history := category_history m;
     overall_history := overall_history m ++ [(d, v)] |}.

(** [[float(x.strip()) for x in vals.split(";") if x.strip()]]. *)
Definition parse_values (g2 : text) : result (list pyfloat) :=
  map_result (fun x => of_option ValueError (py_float (strip x)))
    (filter (fun x => negb (is_nil (strip x))) (split_char SEMI g2)).

(** [text.endswith("Stats Report") and "–" in text]. *)
Definition is_heading_shaped (text : text) : bool :=
  ends_with STATS_REPORT text && contains ENDASH text.

(** One iteration of [for para in doc.paragraphs]. *)
Definition parse_line (st : parse_state) (para_text : text) : result parse_state :=
  let text := strip para_text in
  let m := meta st in
  let seen := overall_header_seen st in
  if is_heading_shaped text then
    match split_char ENDASH (replace STATS_REPORT [] text) with
    | [p; t] => Ok {| meta := set_names (strip p) (strip t) m;
                      overall_header_seen := seen |}
    | _ => Err ValueError
    end
  else
    match cat_pattern_match text with
    | Some (g1, g2) =>
        vals <- parse_values g2 ;;
        Ok {| meta := set_category (strip g1) vals m;
              overall_header_seen := seen |}
    | None =>
        if text_eqb text OVERALL_HEADER then
          Ok {| meta := m; overall_header_seen := true |}
        else if seen && date_pattern_match text then
          match split_char COLON text with
          | [date_part; val_part] =>
              v <- of_option ValueError (py_float (strip val_part)) ;;
              Ok {| meta := add_overall (strip date_part) v m;
                    overall_header_seen := seen |}
          | _ => Err ValueError
          end
        else if starts_with OVERALL_RATING text then Ok st
        else if is_nil text then
          Ok {| meta := m; overall_header_seen := false |}
        else Ok st
    end.

Fixpoint parse_lines (st : parse_state) (paras : list text) : result parse_state :=
  match paras with
  | [] => Ok st
  | t :: ps => st' <- parse_line st t ;; parse_lines st' ps
  end.

(** [parse_docx_report], on the texts of the document's paragraphs. *)
Definition parse_docx_report (paras : list text) : result ParsedMeta :=
  st <- parse_lines parse_init paras ;; Ok (meta st).

(** ** [create_docx_report] (app.py, lines 110-160) *)

Definition cat_history_t := list (text * list pyfloat).   (* dict[str, list[float]] *)
Definition overall_history_t := list (text * pyfloat).    (* list[tuple[str, float]] *)

(** Lines 118-123: [cat_history = prev_cat_history.copy()] (the same
    contents as the argument; the empty dict when it is empty), then for
    each [(cat, subdict)] of [scores]: [avg = category_average(subdict)];
    [cat_history[cat] = []] when [cat] is new; and
    [cat_history[cat].append(round(avg, 1))]. *)
(** [if cat not in cat_history: cat_history[cat] = []]. *)
Definition ensure_key (cat : text) (cat_history : cat_history_t) : cat_history_t :=
  if Dict.mem cat cat_history then cat_history else Dict.set cat [] cat_history.

Fixpoint merge_categories (scores : score_matrix) (cat_history : cat_history_t)
  : result cat_history_t :=
  match scores with
  | [] => Ok cat_history
  | (cat, subdict) :: rest =>
      avg <- category_average subdict ;;
      let h1 := ensure_key cat cat_history in
      vs <- of_option KeyError (Dict.get cat h1) ;;
      merge_categories rest (Dict.set cat (vs ++ [round1f (PFin avg)]) h1)
  end.

(** Lines 118-129: the merged category history, the merged overall
    history and [overall_score].  [today] is
    [datetime.now().strftime("%Y-%m-%d")]. *)
Definition merge_history (scores : score_matrix) (prev_cat_history : cat_history_t)
    (prev_overall_history : overall_history_t) (today : text)
  : result (cat_history_t * overall_history_t * pyfloat) :=
  cat_history <- merge_categories scores prev_cat_history ;;
  avgs <- map_result (fun cs => category_average (snd cs)) scores ;;
  m <- mean avgs ;;
  let overall_score := round1f (PFin m) in
  Ok (cat_history, prev_overall_history ++ [(today, overall_score)], overall_score).

Definition heading_line (player_name player_type : text) : text :=
  player_name ++ str " " ++ [ENDASH] ++ str " " ++ player_type ++ str " Stats Report".

Definition bullet_line (cat : text) (vals : list pyfloat) : text :=
  [BULLET] ++ str " " ++ cat ++ str ": " ++ join (str "; ") (map fmt1f vals).

Definition date_line (entry : text * pyfloat) : text :=
  fst entry ++ str ": " ++ fmt1f (snd entry).

(** A character lxml accepts in an XML text node: no ASCII control
    character but tab, newline and carriage return, no surrogate (which
    [str.encode('utf8')] refuses), not U+FFFE nor U+FFFF. *)
Definition xml_char (c : N) : bool :=
  ((32 <=? c)%N || (c =? 9)%N || (c =? 10)%N || (c =? 13)%N)
  && negb ((55296 <=? c) && (c <=? 57343))%N
  && negb (c =? 65534)%N && negb (c =? 65535)%N.

(** The text [para.text] of a paragraph added with the text [t]
    ([add_paragraph], [add_heading]): python-docx writes a '\n' or a '\r'
    as a [<w:br/>], which reads back as '\n', a '\t' as a [<w:tab/>], which
    reads back as '\t', and the other characters as the text of [<w:t>]
    elements, where lxml raises [ValueError] on a character it refuses. *)
Definition crlf (c : N) : N := if (c =? 13)%N then 10%N else c.

Definition docx_text (t : text) : result text :=
  if forallb xml_char t then Ok (map crlf t)
  else Err ValueError.

(** Lines 131-160, as the texts of the paragraphs of the document:
    heading, timestamp, picture, empty paragraph, one bullet per category
    of [scores], empty paragraph, current rating, separator, header, one
    line per overall entry.  [now_time] is
    [datetime.now().strftime('%H:%M:%S')].  The separator and the header
    are literals of valid characters. *)
Definition create_docx_report (player_name player_type : text)
    (scores : score_matrix) (prev_cat_history : cat_history_t)
    (prev_overall_history : overall_history_t) (today now_time : text)
  : result (list text) :=
  merged <- merge_history scores prev_cat_history prev_overall_history today ;;
  let '(cat_history, overall_history, overall_score) := merged in
  heading <- docx_text (heading_line player_name player_type) ;;
  stamp <- docx_text (str "Report Generated: " ++ today ++ str " " ++ now_time) ;;
  bullets <- map_result
               (fun cs => vals <- of_option KeyError (Dict.get (fst cs) cat_history) ;;
                          docx_text (bullet_line (fst cs) vals))
               scores ;;
  rating <- docx_text (str "Overall Rating: " ++ fmt1f overall_score ++ str " / 120") ;;
  dates <- map_result (fun e => docx_text (date_line e)) overall_history ;;
  Ok ([heading; stamp; []; []]
      ++ bullets
      ++ [[]; rating; repeat DASH 38; OVERALL_HEADER]
      ++ dates).

(** ** Object identity in the merge of [create_docx_report]

    [prev_cat_history.copy()] copies the dict only: the new dict holds the
    very list objects of the caller's dict, and [cat_history[cat].append]
    mutates them; [prev_overall_history.copy()] is a new list.  Here list
    objects live in a store addressed by [nat], a dict of lists maps keys to
    addresses, and the merge threads the store.  Only the returning path is
    described: when the merge raises, the result is the exception alone. *)

Module Heap.

Inductive item : Type :=
| IFloat (q : pyfloat)              (* an entry of a category history *)
| IPair (d : text) (q : pyfloat).   (* an entry (date, value) of the overall history *)

Definition heap := list (list item).
Definition dict_ref := list (text * nat).     (* dict[str, list] *)

Definition deref (h : heap) (a : nat) : list item := nth a h [].

Fixpoint update {A} (l : list A) (n : nat) (x : A) : list A :=
  match l, n with
  | [], _ => []
  | _ :: l', O => x :: l'
  | y :: l', S n' => y :: update l' n' x
  end.

(** A new list object [l] at a fresh address. *)
Definition alloc (h : heap) (l : list item) : heap * nat := (h ++ [l], List.length h).

(** [a.append(x)] on the list object at [a]. *)
Definition append (h : heap) (a : nat) (x : item) : heap := update h a (deref h a ++ [x]).

(** Lines 119-123 on the store. *)
Fixpoint merge_categories_heap (scores : score_matrix) (h : heap) (cat_history : dict_ref)
  : result (heap * dict_ref) :=
  match scores with
  | [] => Ok (h, cat_history)
  | (cat, subdict) :: rest =>
      avg <- category_average subdict ;;
      let '(h1, d1) :=
        if Dict.mem cat cat_history then (h, cat_history)
        else let '(h', a) := alloc h [] in (h', Dict.set cat a cat_history) in
      a <- of_option KeyError (Dict.get cat d1) ;;
      merge_categories_heap rest (append h1 a (IFloat (round1f (PFin avg)))) d1
  end.

(** Lines 118-129 on the store: [prev_cat_history] is the caller's dict,
    [prev_overall_history] the address of the caller's list.  The result is
    the store, the new dict, the address of the new overall list and
    [overall_score]. *)
Definition merge_history_heap (scores : score_matrix) (h : heap)
    (prev_cat_history : dict_ref) (prev_overall_history : nat) (today : text)
  : result (heap * dict_ref * nat * pyfloat) :=
  r <- merge_categories_heap scores h prev_cat_history ;;
  let '(h1, cat_history) := r in
  avgs <- map_result (fun cs => category_average (snd cs)) scores ;;
  m <- mean avgs ;;
  let overall_score := round1f (PFin m) in
  let '(h2, o) := alloc h1 (deref h1 prev_overall_history) in
  Ok (append h2 o (IPair today overall_score), cat_history, o, overall_score).

End Heap.

(** ** [build_barograph] (app.py, lines 27-75)

    A plotly figure is described by its bar traces and by the layout fields
    that depend on the data: [barmode], [tickvals] and [ticktext].  Numbers
    are exact rationals, as above.  [scores[cat]] for a key [cat] of
    [scores] is the entry of that key (the keys of a dict are distinct), so
    the loops walk the entries. *)

Record bar : Type := {
  bar_x : Q;
  bar_y : Q;
  bar_width : Q;
  bar_name : text;
  bar_color : text;
  bar_legendgroup : text;
  bar_showlegend : bool
}.

Record figure : Type := {
  fig_traces : list bar;
  fig_barmode : text;
  fig_tickvals : list nat;
  fig_ticktext : list text
}.

Definition palette : list text := [str "#636EFA"; str "#EF553B"; str "#00CC96"].

(** [enumerate(l)], from [n]. *)
Fixpoint enumerate_from {A} (n : nat) (l : list A) : list (nat * A) :=
  match l with
  | [] => []
  | a :: l' => (n, a) :: enumerate_from (S n) l'
  end.

Definition enumerate {A} (l : list A) : list (nat * A) := enumerate_from 0 l.

(** Lines 39-47: the bar of the [j]-th sub-skill [sub] of the [i]-th
    category. *)
Definition sub_bar (i j : nat) (sub : text) (v : Z) : bar :=
  {| bar_x := inject_Z (Z.of_nat i) + inject_Z (Z.of_nat j - 1) * (22 # 100);
     bar_y := inject_Z v;
     bar_width := 2 # 10;
     bar_name := sub;
     bar_color := nth (j mod List.length palette) palette [];
     bar_legendgroup := sub;
     bar_showlegend := Nat.eqb i 0 |}.

(** Lines 52-60: the average bar of the [i]-th category. *)
Definition avg_bar (i : nat) (cat : text) (avg : Q) : bar :=
  {| bar_x := inject_Z (Z.of_nat i);
     bar_y := avg;
     bar_width := 6 # 10;
     bar_name := cat ++ str " Avg";
     bar_color := str "rgba(128,128,128,0.35)";
     bar_legendgroup := str "avg";
     bar_showlegend := Nat.eqb i 0 |}.

Definition build_barograph (scores : score_matrix) (show_sub show_avg : bool)
  : result figure :=
  let categories := map fst scores in
  let sub_traces :=
    if show_sub then
      flat_map (fun ic => let '(i, (cat, subd)) := ic in
                  map (fun js => let '(j, (sub, v)) := js in sub_bar i j sub v)
                    (enumerate subd))
        (enumerate scores)
    else [] in
  avg_traces <-
    (if show_avg then
       map_result (fun ic => let '(i, (cat, subd)) := ic in
                     avg <- category_average subd ;; Ok (avg_bar i cat avg))
         (enumerate scores)
     else Ok []) ;;
  Ok {| fig_traces := sub_traces ++ avg_traces;
        fig_barmode := str "overlay";
        fig_tickvals := seq 0 (List.length categories);
        fig_ticktext := categories |}.

(** The two loops of [build_barograph], one category at a time: the bars of
    lines 38-47 and the average bar of lines 51-60. *)
Definition sub_traces_of (ic : nat * (text * subscores)) : list bar :=
  let '(i, (cat, subd)) := ic in
  map (fun js => let '(j, (sub, v)) := js in sub_bar i j sub v) (enumerate subd).

Definition avg_trace (ic : nat * (text * subscores)) : result bar :=
  let '(i, (cat, subd)) := ic in avg <- category_average subd ;; Ok (avg_bar i cat avg).


(** ** The page of [main] (app.py, lines 165-323) *)

(** [round(x)] of a finite float, ties to even, as an [int]. *)
Definition round_int (q : Q) : Z :=
  let x := Qnum q in
  let d := Zpos (Qden q) in
  let fl := (x / d)%Z in
  let r := (x mod d)%Z in
  match Z.compare (2 * r) d with
  | Lt => fl
  | Gt => (fl + 1)%Z
  | Eq => if Z.even fl then fl else (fl + 1)%Z
  end.

(** [int(round(x))] of a float: [round] of an infinity raises
    [OverflowError], of a nan [ValueError]. *)
Definition round_float (v : pyfloat) : result Z :=
  match v with
  | PFin q => Ok (round_int q)
  | PNegZero => Ok 0%Z
  | PInf _ => Err OverflowError
  | PNaN => Err ValueError
  end.

Inductive mode_t : Type :=
| ModeEdit    (* "edit" *)
| ModeNew.    (* "new" *)

(** The keys "mode" and "prefill_meta" of [st.session_state], as lines
    174-193 leave them: they are set together (lines 179-180, 185-190) and
    deleted together by the Reset button (lines 174-176), so a session
    either holds both or neither ([None]).  [prefill_meta] is [{}] ([None])
    or the dict returned by [parse_docx_report]; the later lines of a run
    may mutate the lists that dict holds (see [Heap]), which this record
    does not follow. *)
Record session : Type := {
  mode : option mode_t;
  prefill_meta : option ParsedMeta
}.

(** How a run of the script ends: at [st.stop()] (line 193), past the
    workflow block (line 195 on), or by an exception. *)
Inductive run_outcome : Type :=
| Stopped
| Proceeds
| Raised (e : py_error).

(** Lines 174-193 of one run of the script.  [reset] is the Reset button,
    [uploaded] the uploaded document (the texts of its paragraphs) and
    [create_new] the "Create New Report" button; the uploader and that
    button are only shown, and only read, while the mode is [None].  An
    exception of [parse_docx_report] ends the run after line 186 has set
    the mode. *)
Definition start_run (s : option session) (reset : bool)
    (uploaded : option (list text)) (create_new : bool) : option session * run_outcome :=
  let s0 := if reset then None else s in
  let s1 := match s0 with
            | None => {| mode := None; prefill_meta := None |}
            | Some x => x
            end in
  match mode s1 with
  | None =>
      match uploaded with
      | Some doc =>
          let s2 := {| mode := Some ModeEdit; prefill_meta := prefill_meta s1 |} in
          match parse_docx_report doc with
          | Ok m => (Some {| mode := Some ModeEdit; prefill_meta := Some m |}, Proceeds)
          | Err e => (Some s2, Raised e)
          end
      | None =>
          if create_new
          then (Some {| mode := Some ModeNew; prefill_meta := None |}, Proceeds)
          else (Some s1, Stopped)
      end
  | Some _ => (Some s1, Proceeds)
  end.

(** A sequence of runs, each given its [(reset, uploaded, create_new)]:
    the mode and prefill keys after lines 174-193 of each run. *)
Fixpoint run_all (s : option session) (inputs : list (bool * option (list text) * bool))
  : option session :=
  match inputs with
  | [] => s
  | (reset, uploaded, create_new) :: rest =>
      run_all (fst (start_run s reset uploaded create_new)) rest
  end.

(** Line 196: [use_existing]. *)
Definition use_existing (s : session) : bool :=
  match mode s with Some ModeEdit => true | _ => false end.

(** The truth value of [prefill_meta.get(key)]: a non-empty [str]. *)
Definition truthy (o : option text) : bool :=
  match o with Some (_ :: _) => true | _ => false end.

(** Lines 198-201: the player type and name taken from the uploaded
    report, or [None] when the page asks for them (lines 203-204). *)
Definition loaded_names (s : session) : option (text * text) :=
  match prefill_meta s with
  | Some m =>
      if use_existing s && truthy (player_type m) && truthy (player_name m) then
        match player_type m, player_name m with
        | Some t, Some n => Some (t, n)
        | _, _ => None
        end
      else None
  | None => None
  end.

(** Lines 213-214. *)
Definition prefill_cat_history (s : session) : cat_history_t :=
  if use_existing s then
    match prefill_meta s with Some m => category_history m | None => [] end
  else [].

Definition prefill_overall_history (s : session) : overall_history_t :=
  if use_existing s then
    match prefill_meta s with Some m => overall_history m | None => [] end
  else [].

(** Lines 219-222 (and 262-265): the initial value [avg_val] of a
    category's widgets. *)
Definition slider_default (use_existing : bool) (cat_history : cat_history_t) (cat : text)
  : result Z :=
  if use_existing && Dict.mem cat cat_history then
    match Dict.get cat cat_history with
    | Some (v :: vs) => round_float (last (v :: vs) PNaN)
    | _ => Ok 50%Z
    end
  else Ok 50%Z.

Definition slider_key (cat sub : text) : text := cat ++ str "_" ++ sub ++ str "_slider".
Definition input_key (cat sub : text) : text := cat ++ str "_" ++ sub ++ str "_input".

(** One call of [st.slider] or [st.number_input] with [min_value=1],
    [max_value=100], [value=default] and [key=key]; [used] lists the keys
    of the widgets already created in this run.  Streamlit raises a
    [StreamlitAPIException] when the default lies outside [1, 100] and when
    the key is already used ([DuplicateWidgetID]); otherwise the widget
    returns [widget key default], the value the user has set (the default
    on first display), and its key is used. *)
Definition call_widget (widget : text -> Z -> Z) (used : list text) (key : text)
    (default : Z) : result (list text * Z) :=
  if negb ((1 <=? default) && (default <=? 100))%Z then Err StreamlitAPIException
  else if existsb (text_eqb key) used then Err StreamlitAPIException
  else Ok (used ++ [key], widget key default).

(** Lines 224-256 (and 266-298): the widgets of the sub-skill [sub], by
    the checkboxes [show_slider] and [show_num_input]. *)
Definition sub_widgets (widget : text -> Z -> Z) (show_slider show_num_input : bool)
    (used : list text) (cat sub : text) (avg_val : Z) : result (list text * Z) :=
  if show_slider && show_num_input then
    r <- call_widget widget used (slider_key cat sub) avg_val ;;
    call_widget widget (fst r) (input_key cat sub) (snd r)
  else if show_slider then call_widget widget used (slider_key cat sub) avg_val
  else call_widget widget used (input_key cat sub) avg_val.

(** [for sub in subs: ... scores[cat][sub] = val]. *)
Fixpoint fill_category (widget : text -> Z -> Z) (show_slider show_num_input : bool)
    (used : list text) (cat : text) (subs : list text) (avg_val : Z) (d : subscores)
  : result (list text * subscores) :=
  match subs with
  | [] => Ok (used, d)
  | sub :: subs' =>
      r <- sub_widgets widget show_slider show_num_input used cat sub avg_val ;;
      fill_category widget show_slider show_num_input (fst r) cat subs' avg_val
        (Dict.set sub (snd r) d)
  end.

(** Lines 216-256 (Skillset) and 259-299 (Specialty): per category,
    [scores[cat] = {}], [avg_val], then one entry per sub-skill.  The dict
    [scores[cat]] is new and only [scores] holds it, so it is filled before
    it is stored. *)
Fixpoint add_categories (widget : text -> Z -> Z) (show_slider show_num_input : bool)
    (use_existing : bool) (cat_history : cat_history_t) (used : list text)
    (cats : list (text * list text)) (scores : score_matrix)
  : result (list text * score_matrix) :=
  match cats with
  | [] => Ok (used, scores)
  | (cat, subs) :: rest =>
      let scores1 := Dict.set cat [] scores in
      avg_val <- slider_default use_existing cat_history cat ;;
      r <- fill_category widget show_slider show_num_input used cat subs avg_val [] ;;
      add_categories widget show_slider show_num_input use_existing cat_history (fst r) rest
        (Dict.set cat (snd r) scores1)
  end.

(** Lines 212-299: the score matrix of the run. *)
Definition build_scores (widget : text -> Z -> Z) (show_slider show_num_input : bool)
    (use_existing : bool) (cat_history : cat_history_t)
    (skillset specialty : list (text * list text)) : result score_matrix :=
  r1 <- add_categories widget show_slider show_num_input use_existing cat_history [] skillset [] ;;
  r2 <- add_categories widget show_slider show_num_input use_existing cat_history (fst r1)
          specialty (snd r1) ;;
  Ok (snd r2).

(** Lines 303-308: the category averages and the overall rating written on
    the page. *)
Definition page_ratings (scores : score_matrix) : result (list text * text) :=
  lines <- map_result (fun cs => avg <- category_average (snd cs) ;;
                                 Ok (str "**" ++ fst cs ++ str "**: " ++ fmt1 avg))
             scores ;;
  avgs <- map_result (fun cs => category_average (snd cs)) scores ;;
  overall <- mean avgs ;;
  Ok (lines, str "**Overall Rating:** " ++ fmt1 overall ++ str " / 120").

(** Lines 300-308: the chart, then the ratings. *)
Definition render (scores : score_matrix) (show_sub show_avg : bool)
  : result (figure * (list text * text)) :=
  fig <- build_barograph scores show_sub show_avg ;;
  r <- page_ratings scores ;;
  Ok (fig, r).

(** Line 317: the name of the downloaded file. *)
Definition report_filename (date_str player_name player_type : text) : text :=
  date_str ++ str "_" ++ replace (str " ") (str "_") player_name ++ str "_"
  ++ player_type ++ str "_Report.docx".

(** ** Side conditions used in the statements *)

Definition count_char (c : N) (s : text) : nat := List.length (filter (N.eqb c) s).

Definition is_some {A} (o : option A) : bool :=
  match o with Some _ => true | None => false end.

(** A line [parse_line] acts on: a heading, a bullet, the date-block header. *)
Definition recognizable (para_text : text) : bool :=
  let t := strip para_text in
  is_heading_shaped t || is_some (cat_pattern_match t) || text_eqb t OVERALL_HEADER.

(** The flag [overall_header_seen] after [parse_line] has read a line. *)
Definition seen_after (seen : bool) (para_text : text) : bool :=
  let t := strip para_text in
  if is_heading_shaped t then seen
  else if is_some (cat_pattern_match t) then seen
  else if text_eqb t OVERALL_HEADER then true
  else if is_nil t then false
  else seen.

(** A line on which one of the raising expressions of [parse_line] raises,
    given the flag [overall_header_seen]: the unpacking of a heading that
    has not exactly one en dash (line 90), the [float] call of a non-blank
    bullet token that is not a number (line 96), the unpacking and the
    [float] call of a date line read in the date block (lines 101-102). *)
Definition line_defect (seen : bool) (para_text : text) : bool :=
  let t := strip para_text in
  if is_heading_shaped t then negb (count_char ENDASH t =? 1)%nat
  else match cat_pattern_match t with
       | Some (_, g2) =>
           existsb (fun tok => negb (is_nil (strip tok)) && negb (is_some (py_float (strip tok))))
             (split_char SEMI g2)
       | None =>
           if text_eqb t OVERALL_HEADER then false
           else if seen && date_pattern_match t then
             match split_char COLON t with
             | [_; v] => negb (is_some (py_float (strip v)))
             | _ => true
             end
           else false
       end.

(** Some line of [paras], read from the flag [seen], has a defect. *)
Fixpoint has_defect (seen : bool) (paras : list text) : bool :=
  match paras with
  | [] => false
  | t :: ps => line_defect seen t || has_defect (seen_after seen t) ps
  end.

(** A category name that a bullet line writes back unchanged: no ':', no
    '\r', no surrounding whitespace. *)
Definition cat_ok (cat : text) : bool :=
  negb (contains COLON cat) && negb (contains 13 cat) && text_eqb (strip cat) cat.

(** A bullet token without whitespace and without ';'. *)
Definition tok_ok (tok : text) : bool :=
  forallb (fun c => negb (is_space c) && negb (c =? SEMI)%N) tok.

(** [YYYY-MM-DD] in decimal digits of any script: the dates
    [strftime("%Y-%m-%d")] writes, and the dates the parser reads. *)
Definition is_date (d : text) : bool :=
  match d with
  | [y1; y2; y3; y4; s1; m1; m2; s2; d1; d2] =>
      is_digit y1 && is_digit y2 && is_digit y3 && is_digit y4
      && (s1 =? DASH)%N && is_digit m1 && is_digit m2
      && (s2 =? DASH)%N && is_digit d1 && is_digit d2
  | _ => false
  end.

(** [HH:MM:SS], the text [strftime('%H:%M:%S')] produces. *)
Definition is_hms (t : text) : bool :=
  match t with
  | [h1; h2; c1; m1; m2; c2; s1; s2] =>
      is_ascii_digit h1 && is_ascii_digit h2 && (c1 =? COLON)%N
      && is_ascii_digit m1 && is_ascii_digit m2
      && (c2 =? COLON)%N && is_ascii_digit s1 && is_ascii_digit s2
  | _ => false
  end.

(** [pat in s]. *)
Fixpoint occurs (pat s : text) : bool :=
  starts_with pat s || match s with [] => false | _ :: s' => occurs pat s' end.

(** Every sub-score of the matrix lies in [[lo, hi]]. *)
Definition scores_within (lo hi : Z) (scores : score_matrix) : Prop :=
  Forall (fun cs => Forall (fun kv => (lo <= snd kv <= hi)%Z) (snd cs)) scores.

(** The number a float stands for: [-0.0] is zero; infinities and nans
    have none. *)
Definition float_value (v : pyfloat) : option Q :=
  match v with
  | PFin q => Some q
  | PNegZero => Some 0
  | _ => None
  end.

(** [d.get(k, [])]. *)
Definition get_or_nil {V} (k : text) (d : list (text * list V)) : list V :=
  match Dict.get k d with Some l => l | None => [] end.

(** The bullet line of a category whose values are written as [toks]. *)
Definition bullet_text (cat : text) (toks : list text) : text :=
  [BULLET] ++ str " " ++ cat ++ str ": " ++ join (str "; ") toks.

(** The numbers of the non-blank tokens of a bullet, as the parser reads
    them when the tokens carry no surrounding whitespace. *)
Definition parse_tokens (toks : list text) : result (list pyfloat) :=
  map_result (fun x => of_option ValueError (py_float x))
    (filter (fun x => negb (is_nil x)) toks).

(** The values of one category's widgets, in the order of [subs], when
    they start at [avg_val]: what [fill_category] stores when it returns. *)
Definition sub_value (widget : text -> Z -> Z) (show_slider show_num_input : bool)
    (cat sub : text) (avg_val : Z) : Z :=
  if show_slider && show_num_input
  then widget (input_key cat sub) (widget (slider_key cat sub) avg_val)
  else if show_slider then widget (slider_key cat sub) avg_val
  else widget (input_key cat sub) avg_val.

Definition fill_values (widget : text -> Z -> Z) (show_slider show_num_input : bool)
    (cat : text) (subs : list text) (avg_val : Z) : subscores :=
  fold_left (fun d sub => Dict.set sub (sub_value widget show_slider show_num_input cat sub avg_val) d)
    subs [].

(** The session of a run that shows the uploader: no session yet, or the
    one a Reset or a fresh start leaves. *)
Definition idle_session (s : option session) : Prop :=
  s = None \/ s = Some {| mode := None; prefill_meta := None |}.
(** ** Sample inputs *)

Definition sample_heading_doc : list text :=
  [heading_line (str "Ada") (str "Guard"); []; str "Overall Ratings by Date:"].

Definition sample_heading_meta : ParsedMeta :=
  Eval vm_compute in
  match parse_docx_report sample_heading_doc with Ok m => m | Err _ => empty_meta end.

Definition sample_block_state : parse_state :=
  Eval vm_compute in
  match parse_lines parse_init [str "Overall Ratings by Date:"; str "2024-01-10: 82.0"] with
  | Ok st => st | Err _ => parse_init end.

Definition sample_block_post : list text :=
  [str "2024-01-17: 90.0"; str "Overall Rating: 90.0 / 120"].

Definition sample_block_final : parse_state :=
  Eval vm_compute in
  match parse_lines sample_block_state (str "  " :: sample_block_post) with
  | Ok st => st | Err _ => parse_init end.

Definition sample_scores : score_matrix :=
  [(str "Execution", [(str "Footwork", 80%Z); (str "Release", 84%Z)]);
   (str "Vision", [(str "Reads", 61%Z)])].

Definition sample_prev_cat : cat_history_t :=
  [(str "Leadership", [PFin (50 # 1)]); (str "Execution", [PFin (75 # 1)])].

Definition sample_prev_overall : overall_history_t := [(str "2024-01-03", PFin (77 # 1))].

Definition sample_today : text := str "2024-01-10".

Definition sample_merged : cat_history_t * overall_history_t * pyfloat :=
  Eval vm_compute in
  match merge_history sample_scores sample_prev_cat sample_prev_overall sample_today with
  | Ok r => r | Err _ => ([], [], PNaN) end.


(** The caller's store: the lists of [sample_prev_cat] at addresses 0 and 1,
    the overall history at address 2. *)
Definition sample_heap : Heap.heap :=
  [[Heap.IFloat (PFin (50 # 1))]; [Heap.IFloat (PFin (75 # 1))];
   [Heap.IPair (str "2024-01-03") (PFin (77 # 1))]].

Definition sample_prev_cat_ref : Heap.dict_ref :=
  [(str "Leadership", 0%nat); (str "Execution", 1%nat)].

Definition sample_heap_result : Heap.heap * Heap.dict_ref * nat * pyfloat :=
  Eval vm_compute in
  match Heap.merge_history_heap sample_scores sample_heap sample_prev_cat_ref 2 sample_today with
  | Ok r => r | Err _ => ([], [], 0%nat, PNaN) end.

Definition sample_now : text := str "09:30:00".

(** The report written for [sample_scores] over [sample_prev_cat], whose
    category "Leadership" is not in [sample_scores]. *)
Definition sample_report : list text :=
  Eval vm_compute in
  match create_docx_report (str "Ada") (str "Guard") sample_scores sample_prev_cat
          sample_prev_overall sample_today sample_now with
  | Ok d => d | Err _ => [] end.

Definition sample_report_parsed : ParsedMeta :=
  Eval vm_compute in
  match parse_docx_report sample_report with Ok m => m | Err _ => empty_meta end.


Definition sample_fig : figure :=
  Eval vm_compute in
  match build_barograph sample_scores true true with Ok f => f | Err _ =>
    {| fig_traces := []; fig_barmode := []; fig_tickvals := []; fig_ticktext := [] |} end.

Definition sample_page : list text * text :=
  Eval vm_compute in
  match page_ratings sample_scores with Ok r => r | Err _ => ([], []) end.

(** A slider or number input of range 1-100 that keeps its default. *)
Definition sample_widget (key : text) (default : Z) : Z := Z.max 1 (Z.min 100 default).

Definition sample_skillset : list (text * list text) :=
  [(str "Execution", [str "Footwork"; str "Release"]); (str "Vision", [str "Reads"])].

Definition sample_specialty : list (text * list text) :=
  [(str "Vision", [str "Anticipation"]); (str "Clutch", [str "Late game"])].

(** A Specialty category named as a Skillset category, with a sub-skill
    of that category. *)
Definition sample_specialty_clash : list (text * list text) :=
  [(str "Vision", [str "Reads"])].

(** A report whose bullet holds a token that is not a number. *)
Definition sample_bad_report : list text := [[BULLET] ++ str " Execution: 80.0; abc"].

Definition sample_fig_sub : figure :=
  Eval vm_compute in
  match build_barograph sample_scores true false with Ok f => f | Err _ => sample_fig end.

(** A second save in the session of [sample_heap_result]: the same dict
    and the same overall list, on the next day. *)
Definition sample_heap_result2 : Heap.heap * Heap.dict_ref * nat * pyfloat :=
  Eval vm_compute in
  match Heap.merge_history_heap sample_scores (fst (fst (fst sample_heap_result)))
          sample_prev_cat_ref 2 (str "2024-01-11") with
  | Ok r => r | Err _ => ([], [], 0%nat, PNaN) end.


Import ListNotations.
Open Scope list_scope.
Import PyStr PyNum Regex.
(** * Proofs *)

(** ** Strings and dicts *)

Lemma text_eqb_eq : forall s t, text_eqb s t = true <-> s = t.
Proof.
  induction s as [|a s IH]; destruct t as [|b t]; simpl; split; intro H;
    try discriminate; try reflexivity.
  - apply andb_prop in H as [H1 H2]. apply N.eqb_eq in H1. apply IH in H2. now subst.
  - injection H as -> ->. rewrite N.eqb_refl. now apply IH.
Qed.

Lemma text_eqb_refl : forall s, text_eqb s s = true.
Proof. intro s. now apply text_eqb_eq. Qed.

Lemma text_eqb_neq : forall s t, s <> t -> text_eqb s t = false.
Proof.
  intros s t H. destruct (text_eqb s t) eqn:E; [|reflexivity].
  apply text_eqb_eq in E. contradiction.
Qed.

Lemma dict_get_set_same : forall {V} k (v : V) d, Dict.get k (Dict.set k v d) = Some v.
Proof.
  intros V k v d. induction d as [|[k' v'] d IH]; simpl.
  - now rewrite text_eqb_refl.
  - destruct (text_eqb k k') eqn:E; simpl.
    + now rewrite E.
    + now rewrite E.
Qed.

Lemma dict_get_set_other : forall {V} k k' (v : V) d,
  k' <> k -> Dict.get k' (Dict.set k v d) = Dict.get k' d.
Proof.
  intros V k k' v d Hne. induction d as [|[k0 v0] d IH]; simpl.
  - now rewrite text_eqb_neq.
  - destruct (text_eqb k k0) eqn:E; simpl.
    + apply text_eqb_eq in E. subst k0. now rewrite (text_eqb_neq k' k Hne).
    + now rewrite IH.
Qed.

Lemma dict_get_in : forall {V} k (d : list (text * V)) v,
  Dict.get k d = Some v -> In k (map fst d).
Proof.
  intros V k d v. induction d as [|[k' v'] d IH]; simpl; [discriminate|].
  destruct (text_eqb k k') eqn:E.
  - apply text_eqb_eq in E. auto.
  - auto.
Qed.

Lemma dict_get_notin : forall {V} k (d : list (text * V)),
  ~ In k (map fst d) -> Dict.get k d = None.
Proof.
  intros V k d H. destruct (Dict.get k d) eqn:E; [|reflexivity].
  apply dict_get_in in E. contradiction.
Qed.

(** ** The parser keeps the two names together *)

Definition names_together (m : ParsedMeta) : Prop :=
  player_name m = None <-> player_type m = None.

Lemma parse_line_names : forall st t st',
  parse_line st t = Ok st' -> names_together (meta st) -> names_together (meta st').
Proof.
  intros st t st' H Hinv. unfold parse_line in H.
  destruct (is_heading_shaped (strip t)).
  - destruct (split_char ENDASH _) as [|p [|q [|]]]; try discriminate.
    injection H as <-. unfold names_together; simpl. split; discriminate.
  - destruct (cat_pattern_match (strip t)) as [[g1 g2]|].
    + destruct (parse_values g2); simpl in H; [|discriminate].
      injection H as <-. exact Hinv.
    + destruct (text_eqb _ _).
      { injection H as <-. exact Hinv. }
      destruct (overall_header_seen st && date_pattern_match (strip t)).
      * destruct (split_char COLON _) as [|d [|v [|]]]; try discriminate.
        destruct (py_float (strip v)); simpl in H; [|discriminate].
        injection H as <-. exact Hinv.
      * destruct (starts_with _ _); [injection H as <-; exact Hinv|].
        destruct (is_nil (strip t)); injection H as <-; exact Hinv.
Qed.

Lemma parse_lines_names : forall paras st st',
  parse_lines st paras = Ok st' -> names_together (meta st) -> names_together (meta st').
Proof.
  induction paras as [|t paras IH]; intros st st' H Hinv; simpl in H.
  - injection H as <-. exact Hinv.
  - destruct (parse_line st t) as [st1|] eqn:E; simpl in H; [|discriminate].
    eapply IH; [exact H|]. eapply parse_line_names; eauto.
Qed.

Lemma parse_line_names_cases : forall st t st',
  parse_line st t = Ok st' ->
  (player_name (meta st') = player_name (meta st) /\ player_type (meta st') = player_type (meta st))
  \/ (is_heading_shaped (strip t) = true
      /\ exists p ty, player_name (meta st') = Some p /\ player_type (meta st') = Some ty).
Proof.
  intros st t st' H. unfold parse_line in H.
  destruct (is_heading_shaped (strip t)) eqn:Eh.
  - destruct (split_char ENDASH _) as [|p [|q [|]]]; try discriminate.
    injection H as <-. right. split; [reflexivity|]. simpl. eauto.
  - left. destruct (cat_pattern_match (strip t)) as [[g1 g2]|].
    + destruct (parse_values g2); simpl in H; [|discriminate].
      injection H as <-. simpl. auto.
    + destruct (text_eqb _ _).
      { injection H as <-. simpl. auto. }
      destruct (overall_header_seen st && date_pattern_match (strip t)).
      * destruct (split_char COLON _) as [|d [|v [|]]]; try discriminate.
        destruct (py_float (strip v)); simpl in H; [|discriminate].
        injection H as <-. simpl. auto.
      * destruct (starts_with _ _); [injection H as <-; auto|].
        destruct (is_nil (strip t)); injection H as <-; simpl; auto.
Qed.

(** C10.  The two names are set together.  Both start as [None]; a line
    of the scan either keeps both names or, when it is heading-shaped,
    sets both to strings.  Hence after every prefix of the lines that
    the scan gets through, and in every [ParsedMeta] returned by
    [parse_docx_report], the player name is [None] exactly when the
    player type is [None]. *)
Theorem parse_names_together :
  (player_name (meta parse_init) = None /\ player_type (meta parse_init) = None)
  /\ (forall st t st', parse_line st t = Ok st' ->
        (player_name (meta st') = player_name (meta st)
         /\ player_type (meta st') = player_type (meta st))
        \/ (is_heading_shaped (strip t) = true
            /\ exists p ty, player_name (meta st') = Some p /\ player_type (meta st') = Some ty))
  /\ (forall paras st, parse_lines parse_init paras = Ok st ->
        (player_name (meta st) = None <-> player_type (meta st) = None))
  /\ (forall paras m, parse_docx_report paras = Ok m ->
        (player_name m = None <-> player_type m = None)).
Proof.
  split; [split; reflexivity|]. split; [exact parse_line_names_cases|]. split.
  - intros paras st H. apply (parse_lines_names paras parse_init st H).
    unfold names_together; simpl; tauto.
  - intros paras m H. unfold parse_docx_report in H.
    destruct (parse_lines parse_init paras) as [st|] eqn:E; simpl in H; [|discriminate].
    injection H as <-. apply (parse_lines_names paras parse_init st E).
    unfold names_together; simpl; tauto.
Qed.

Lemma parse_names_together_witness :
  parse_docx_report sample_heading_doc = Ok sample_heading_meta
  /\ (player_name sample_heading_meta = None <-> player_type sample_heading_meta = None).
Proof.
  assert (E : parse_docx_report sample_heading_doc = Ok sample_heading_meta)
    by (vm_compute; reflexivity).
  split; [exact E|].
  exact (proj2 (proj2 (proj2 parse_names_together)) sample_heading_doc sample_heading_meta E).
Defined.

(** ** A blank line closes the date block *)

Lemma parse_line_blank : forall st t,
  strip t = [] ->
  parse_line st t = Ok {| meta := meta st; overall_header_seen := false |}.
Proof.
  intros st t H. unfold parse_line. rewrite H.
  destruct st as [m seen]; destruct seen; vm_compute; reflexivity.
Qed.

Lemma parse_line_closed : forall st t st',
  parse_line st t = Ok st' ->
  overall_header_seen st = false ->
  strip t <> OVERALL_HEADER ->
  overall_header_seen st' = false
  /\ overall_history (meta st') = overall_history (meta st).
Proof.
  intros st t st' H Hseen Hhdr. unfold parse_line in H. rewrite Hseen in H.
  destruct (is_heading_shaped (strip t)).
  - destruct (split_char ENDASH _) as [|p [|q [|]]]; try discriminate.
    injection H as <-. simpl. auto.
  - destruct (cat_pattern_match (strip t)) as [[g1 g2]|].
    + destruct (parse_values g2); simpl in H; [|discriminate].
      injection H as <-. simpl. auto.
    + rewrite (text_eqb_neq _ _ Hhdr) in H.
      destruct (starts_with OVERALL_RATING (strip t)); simpl in H;
        [injection H as <-; auto|].
      destruct (is_nil (strip t)); injection H as <-; simpl; auto.
Qed.

Lemma parse_lines_closed : forall paras st st',
  parse_lines st paras = Ok st' ->
  overall_header_seen st = false ->
  Forall (fun t => strip t <> OVERALL_HEADER) paras ->
  overall_header_seen st' = false
  /\ overall_history (meta st') = overall_history (meta st).
Proof.
  induction paras as [|t paras IH]; intros st st' H Hseen Hall; simpl in H.
  - injection H as <-. auto.
  - inversion Hall as [|? ? Ht Hrest]; subst.
    destruct (parse_line st t) as [st1|] eqn:E; simpl in H; [|discriminate].
    destruct (parse_line_closed st t st1 E Hseen Ht) as [Hs1 Ho1].
    destruct (IH st1 st' H Hs1 Hrest) as [Hs2 Ho2].
    split; [exact Hs2|]. now rewrite Ho2.
Qed.

Lemma date_line_starts_with_digit : forall c t,
  date_pattern_match (c :: t) = true -> is_digit c = true.
Proof.
  intros c t H. unfold date_pattern_match in H.
  do 10 (destruct t as [|? t]; [discriminate|]).
  repeat match type of H with
         | (_ && _) = true => apply andb_prop in H as [H _]
         end.
  exact H.
Qed.

Lemma date_line_not_bullet : forall t,
  date_pattern_match t = true -> cat_pattern_match t = None.
Proof.
  intros [|c t] H; [reflexivity|]. unfold cat_pattern_match.
  destruct (c =? BULLET)%N eqn:E; [|reflexivity].
  apply N.eqb_eq in E. subst c. apply date_line_starts_with_digit in H.
  vm_compute in H. discriminate.
Qed.

(** C8.  An empty line always sets the flag [overall_header_seen] back to
    false, whatever the state of the scan.  After it, as long as no line
    is the header [Overall Ratings by Date:] again: every state the scan
    reaches has the flag false and the overall history it had before the
    blank line, and a date-shaped line (not heading-shaped) leaves the
    state unchanged, without raising. *)
Theorem blank_line_closes_date_block : forall st blank post,
  strip blank = [] ->
  Forall (fun t => strip t <> OVERALL_HEADER) post ->
  parse_line st blank = Ok {| meta := meta st; overall_header_seen := false |}
  /\ (forall pre rest st', post = pre ++ rest ->
        parse_lines st (blank :: pre) = Ok st' ->
        overall_header_seen st' = false
        /\ overall_history (meta st') = overall_history (meta st))
  /\ (forall st1 t, overall_header_seen st1 = false -> In t post ->
        date_pattern_match (strip t) = true -> is_heading_shaped (strip t) = false ->
        parse_line st1 t = Ok st1).
Proof.
  intros st blank post Hblank Hpost.
  split; [exact (parse_line_blank st blank Hblank)|]. split.
  - intros pre rest st' -> H. simpl in H.
    rewrite (parse_line_blank st blank Hblank) in H. simpl in H.
    apply Forall_app in Hpost as [Hpre _].
    apply (parse_lines_closed pre _ st' H eq_refl Hpre).
  - intros st1 t Hs Hin Hd Hh. unfold parse_line. cbv zeta.
    rewrite Hh, (date_line_not_bullet _ Hd).
    rewrite (text_eqb_neq _ _ (proj1 (Forall_forall _ _) Hpost t Hin)), Hs.
    cbn [andb]. destruct (starts_with OVERALL_RATING (strip t)); [reflexivity|].
    destruct (is_nil (strip t)); [|reflexivity].
    destruct st1 as [m1 seen1]. simpl in Hs. subst seen1. reflexivity.
Qed.

Lemma blank_line_closes_date_block_witness :
  strip (str "  ") = []
  /\ Forall (fun t => strip t <> OVERALL_HEADER) sample_block_post
  /\ parse_lines sample_block_state (str "  " :: sample_block_post) = Ok sample_block_final
  /\ overall_header_seen sample_block_final = false
  /\ overall_history (meta sample_block_final) = overall_history (meta sample_block_state).
Proof.
  assert (H1 : strip (str "  ") = []) by (vm_compute; reflexivity).
  assert (H2 : Forall (fun t => strip t <> OVERALL_HEADER) sample_block_post).
  { repeat constructor; vm_compute; discriminate. }
  assert (H3 : parse_lines sample_block_state (str "  " :: sample_block_post)
               = Ok sample_block_final) by (vm_compute; reflexivity).
  split; [exact H1|]. split; [exact H2|]. split; [exact H3|].
  exact (proj1 (proj2 (blank_line_closes_date_block _ _ _ H1 H2)) sample_block_post []
           sample_block_final (eq_sym (app_nil_r _)) H3).
Defined.

(** ** [category_average] and the empty mean *)





(** C7.  An empty mean raises [StatisticsError], distinct from every
    value: [category_average({})] raises it, and so does the overall mean
    of an empty score matrix, in the merge and in [create_docx_report];
    a non-empty sub-score mapping always has an average. *)
Theorem empty_average_raises :
  mean [] = Err StatisticsError
  /\ category_average [] = Err StatisticsError
  /\ (forall prev_cat prev_overall today,
        merge_history [] prev_cat prev_overall today = Err StatisticsError)
  /\ (forall name type prev_cat prev_overall today now_time,
        create_docx_report name type [] prev_cat prev_overall today now_time
        = Err StatisticsError)
  /\ (forall sub, sub <> [] -> exists q, category_average sub = Ok q).
Proof.
  split; [reflexivity|]. split; [reflexivity|].
  split; [reflexivity|]. split; [reflexivity|].
  intros sub Hne. destruct sub as [|kv sub]; [contradiction|].
  eexists. reflexivity.
Qed.

(** ** Where the parser raises *)

(** C2.  The spec's example line is not tolerated: the token "oops" makes
    [float] raise, and the parse fails with [ValueError] instead of
    yielding [[70.0, 85.0]] for Judgment. *)
Lemma malformed_token_raises :
  parse_docx_report [BULLET :: str " Judgment: 70.0; oops; 85.0"] = Err ValueError.
Proof. vm_compute. reflexivity. Qed.

(** C4.  The parser is not total: a heading-shaped line with two en dashes,
    a bullet with a non-numeric token and a date line with a second ':'
    each make it raise [ValueError]. *)
Lemma parse_not_total :
  parse_docx_report [str "Ada " ++ [ENDASH] ++ str " Guard " ++ [ENDASH]
                     ++ str " 2024 Stats Report"] = Err ValueError
  /\ parse_docx_report [BULLET :: str " Vision: n/a"] = Err ValueError
  /\ parse_docx_report [str "Overall Ratings by Date:"; str "2024-01-10: 8:2"]
     = Err ValueError.
Proof. vm_compute. repeat split; reflexivity. Qed.

Lemma map_result_ok_value_error : forall {A B} (f : A -> option B) l e,
  map_result (fun x => of_option ValueError (f x)) l = Err e -> e = ValueError.
Proof.
  intros A B f l e. induction l as [|a l IH]; simpl; [discriminate|].
  destruct (f a); simpl; [|congruence].
  destruct (map_result _ l); simpl; [discriminate|]. intro H; apply IH; congruence.
Qed.

Lemma parse_line_err : forall st t e, parse_line st t = Err e -> e = ValueError.
Proof.
  intros st t e H. unfold parse_line in H.
  destruct (is_heading_shaped (strip t)).
  - destruct (split_char ENDASH _) as [|p [|q [|]]]; congruence.
  - destruct (cat_pattern_match (strip t)) as [[g1 g2]|].
    + unfold parse_values in H.
      destruct (map_result _ _) eqn:E; simpl in H; [discriminate|].
      injection H as <-. exact (map_result_ok_value_error _ _ _ E).
    + destruct (text_eqb _ _); [discriminate|].
      destruct (overall_header_seen st && date_pattern_match (strip t)).
      * destruct (split_char COLON _) as [|d [|v [|]]]; try congruence.
        destruct (py_float (strip v)); simpl in H; congruence.
      * destruct (starts_with _ _); [discriminate|].
        destruct (is_nil (strip t)); discriminate.
Qed.

Lemma parse_lines_err : forall paras st e, parse_lines st paras = Err e -> e = ValueError.
Proof.
  induction paras as [|t paras IH]; intros st e H; simpl in H; [discriminate|].
  destruct (parse_line st t) as [st1|e1] eqn:E; simpl in H.
  - eapply IH; eauto.
  - injection H as <-. eapply parse_line_err; eauto.
Qed.

Lemma parse_line_unrecognized : forall m t,
  recognizable t = false ->
  parse_line {| meta := m; overall_header_seen := false |} t
  = Ok {| meta := m; overall_header_seen := false |}.
Proof.
  intros m t H. unfold recognizable in H. unfold parse_line.
  apply orb_false_elim in H as [H H3]. apply orb_false_elim in H as [H1 H2].
  rewrite H1, H3. destruct (cat_pattern_match (strip t)); [discriminate|].
  destruct (starts_with OVERALL_RATING (strip t)); simpl; [reflexivity|].
  destruct (is_nil (strip t)); reflexivity.
Qed.

Lemma parse_lines_unrecognized : forall paras m,
  forallb (fun t => negb (recognizable t)) paras = true ->
  parse_lines {| meta := m; overall_header_seen := false |} paras
  = Ok {| meta := m; overall_header_seen := false |}.
Proof.
  induction paras as [|t paras IH]; intros m H; simpl in *; [reflexivity|].
  apply andb_prop in H as [H1 H2]. apply negb_true_iff in H1.
  rewrite parse_line_unrecognized by exact H1. simpl. apply IH, H2.
Qed.

Lemma starts_with_firstn : forall p s,
  starts_with p s = true -> firstn (List.length p) s = p.
Proof.
  induction p as [|a p IH]; intros s H; [reflexivity|].
  destruct s as [|b s]; [discriminate|]. simpl in *.
  apply andb_prop in H as [H1 H2]. apply N.eqb_eq in H1. subst. f_equal. auto.
Qed.

Lemma count_char_app : forall c s t,
  count_char c (s ++ t) = (count_char c s + count_char c t)%nat.
Proof. intros. unfold count_char. now rewrite filter_app, length_app. Qed.

Lemma count_char_replace : forall c pat fuel s,
  count_char c pat = O ->
  count_char c (replace_fuel fuel pat [] s) = count_char c s.
Proof.
  intros c pat fuel. induction fuel as [|f IH]; intros s Hpat; [reflexivity|].
  destruct s as [|x s']; [reflexivity|]. simpl.
  destruct (starts_with pat (x :: s')) eqn:E.
  - simpl. rewrite IH by exact Hpat.
    rewrite <- (firstn_skipn (List.length pat) (x :: s')) at 2.
    rewrite count_char_app, (starts_with_firstn _ _ E), Hpat. reflexivity.
  - change (count_char c (x :: replace_fuel f pat [] s') = count_char c (x :: s')).
    unfold count_char in *. simpl. destruct (c =? x)%N; simpl; rewrite IH; auto.
Qed.

Lemma split_char_length : forall c s,
  List.length (split_char c s) = S (count_char c s).
Proof.
  intros c s. unfold count_char. induction s as [|x s IH]; [reflexivity|].
  simpl. rewrite (N.eqb_sym c x). destruct (x =? c)%N; simpl.
  - now rewrite IH.
  - destruct (split_char c s) as [|p ps]; simpl in *; [discriminate|]. exact IH.
Qed.

(** A bullet token that makes [float] raise. *)
Lemma parse_values_err : forall l,
  existsb (fun tok => negb (is_nil (strip tok)) && negb (is_some (py_float (strip tok)))) l = true ->
  map_result (fun x => of_option ValueError (py_float (strip x)))
    (filter (fun x => negb (is_nil (strip x))) l) = Err ValueError.
Proof.
  induction l as [|tok l IH]; intro H; simpl in *; [discriminate|].
  destruct (is_nil (strip tok)); simpl in *; [apply IH, H|].
  destruct (py_float (strip tok)) as [q|]; simpl in *; [|reflexivity].
  rewrite (IH H). reflexivity.
Qed.

Lemma parse_values_ok : forall l,
  existsb (fun tok => negb (is_nil (strip tok)) && negb (is_some (py_float (strip tok)))) l = false ->
  exists vals,
    map_result (fun x => of_option ValueError (py_float (strip x)))
      (filter (fun x => negb (is_nil (strip x))) l) = Ok vals
    /\ Forall2 (fun tok v => py_float (strip tok) = Some v)
         (filter (fun tok => negb (is_nil (strip tok))) l) vals.
Proof.
  induction l as [|tok l IH]; intro H; simpl in *; [eauto|].
  apply orb_false_elim in H as [H1 H2]. destruct (IH H2) as [vals [E F]].
  destruct (is_nil (strip tok)); simpl in *; [eauto|].
  destruct (py_float (strip tok)) as [q|] eqn:Eq; simpl in *; [|discriminate].
  rewrite E. simpl. eauto.
Qed.

Lemma date_pattern_nonnil : forall t, date_pattern_match t = true -> is_nil t = false.
Proof. intros [|c t] H; [discriminate|reflexivity]. Qed.

Lemma heading_split_two : forall t,
  (count_char ENDASH t =? 1)%nat = true <->
  List.length (split_char ENDASH (replace STATS_REPORT [] t)) = 2%nat.
Proof.
  intro t. rewrite split_char_length. unfold replace. rewrite count_char_replace.
  - rewrite Nat.eqb_eq. lia.
  - vm_compute. reflexivity.
Qed.

(** [parse_line] raises on a line exactly when the line has a defect;
    otherwise the flag it leaves is [seen_after]. *)
Lemma parse_line_defect : forall st t,
  (line_defect (overall_header_seen st) t = false ->
     exists st', parse_line st t = Ok st'
       /\ overall_header_seen st' = seen_after (overall_header_seen st) t)
  /\ (line_defect (overall_header_seen st) t = true -> parse_line st t = Err ValueError).
Proof.
  intros st t. unfold line_defect, seen_after, parse_line.
  destruct (is_heading_shaped (strip t)).
  - pose proof (heading_split_two (strip t)) as Hs.
    destruct (split_char ENDASH _) as [|p [|q [|r l]]]; simpl in Hs;
      destruct (count_char ENDASH (strip t) =? 1)%nat; simpl;
      try (destruct Hs as [Hs1 Hs2]; try (specialize (Hs1 eq_refl); discriminate);
           try (specialize (Hs2 eq_refl); discriminate));
      split; intro H; try discriminate; eauto.
  - destruct (cat_pattern_match (strip t)) as [[g1 g2]|]; cbn [is_some].
    + unfold parse_values. split; intro H.
      * destruct (parse_values_ok _ H) as [vals [E _]]. rewrite E. simpl. eauto.
      * rewrite (parse_values_err _ H). reflexivity.
    + destruct (text_eqb (strip t) OVERALL_HEADER).
      { split; intro H; [eauto|discriminate]. }
      destruct (overall_header_seen st && date_pattern_match (strip t)) eqn:Ed.
      * apply andb_prop in Ed as [Es Ed]. rewrite (date_pattern_nonnil _ Ed).
        destruct (split_char COLON (strip t)) as [|d [|v [|w l]]]; simpl;
          try (split; intro H; [discriminate|reflexivity]).
        destruct (py_float (strip v)); simpl; split; intro H; try discriminate; eauto.
      * split; intro H; [|discriminate].
        destruct (starts_with OVERALL_RATING (strip t)) eqn:Es.
        -- exists st. split; [reflexivity|].
           destruct (strip t); [discriminate|reflexivity].
        -- destruct (is_nil (strip t)); eauto.
Qed.

Lemma parse_lines_defect : forall paras st,
  ((exists st', parse_lines st paras = Ok st')
   <-> has_defect (overall_header_seen st) paras = false)
  /\ (has_defect (overall_header_seen st) paras = true -> parse_lines st paras = Err ValueError).
Proof.
  induction paras as [|t paras IH]; intros st; simpl.
  - split; [split; eauto|discriminate].
  - destruct (parse_line_defect st t) as [Hok Hbad].
    destruct (line_defect (overall_header_seen st) t) eqn:Ed; simpl.
    + rewrite (Hbad eq_refl). simpl. split; [split; [intros [st' H]; discriminate|discriminate]|auto].
    + destruct (Hok eq_refl) as [st1 [E Hs]]. rewrite E. simpl. rewrite <- Hs. apply IH.
Qed.

(** C4 (as corrected).  [parse_docx_report] raises only [ValueError]; it
    returns a [ParsedMeta] exactly when no line has a defect in the sense
    of [line_defect] (a heading-shaped line without exactly one en dash, a
    non-blank bullet token that [float] rejects, or, in the date block, a
    date line that has not exactly one ':' or whose value [float] rejects;
    a date line outside the block is no defect), and raises [ValueError]
    whenever some line has one; with no recognizable line it returns the
    empty [ParsedMeta]. *)
Theorem parse_raises_only_on_malformed_lines :
  (forall paras e, parse_docx_report paras = Err e -> e = ValueError)
  /\ (forall paras, (exists m, parse_docx_report paras = Ok m) <-> has_defect false paras = false)
  /\ (forall paras, has_defect false paras = true -> parse_docx_report paras = Err ValueError)
  /\ (forall paras, forallb (fun t => negb (recognizable t)) paras = true ->
        parse_docx_report paras = Ok empty_meta).
Proof.
  split; [|split; [|split]].
  - intros paras e H. unfold parse_docx_report in H.
    destruct (parse_lines parse_init paras) eqn:E; simpl in H; [discriminate|].
    injection H as <-. eapply parse_lines_err; eauto.
  - intros paras. destruct (parse_lines_defect paras parse_init) as [Hiff _].
    simpl in Hiff. rewrite <- Hiff. unfold parse_docx_report.
    split; intros [x H].
    + destruct (parse_lines parse_init paras) as [st|]; simpl in H; [eauto|discriminate].
    + rewrite H. simpl. eauto.
  - intros paras H. destruct (parse_lines_defect paras parse_init) as [_ Hbad].
    simpl in Hbad. unfold parse_docx_report. rewrite (Hbad H). reflexivity.
  - intros paras H. unfold parse_docx_report, parse_init.
    rewrite parse_lines_unrecognized by exact H. reflexivity.
Qed.

Lemma existsb_bad_token : forall l,
  existsb (fun tok => negb (is_nil (strip tok)) && negb (is_some (py_float (strip tok)))) l = true
  <-> exists tok, In tok l /\ strip tok <> [] /\ py_float (strip tok) = None.
Proof.
  intro l. rewrite existsb_exists. split.
  - intros [tok [Hin H]]. apply andb_prop in H as [H1 H2]. exists tok.
    destruct (strip tok); [discriminate|]. destruct (py_float _); [discriminate|]. 
    repeat split; [exact Hin|discriminate].
  - intros [tok [Hin [H1 H2]]]. exists tok. split; [exact Hin|].
    rewrite H2. destruct (strip tok); [contradiction|reflexivity].
Qed.

(** C2 (as corrected).  On a bullet line (a line matching [cat_pattern],
    not heading-shaped), the blank tokens between ';' are skipped and
    nothing else is: if some non-blank token is not a number for [float],
    the line raises [ValueError] and the whole parse fails with it;
    otherwise the category gets the floats of the non-blank tokens, in
    order. *)
Theorem bullet_drops_blank_tokens_only (st : parse_state) (t g1 g2 : text)
  (Hhead : is_heading_shaped (strip t) = false)
  (Hmatch : cat_pattern_match (strip t) = Some (g1, g2)) :
  ((exists tok, In tok (split_char SEMI g2) /\ strip tok <> [] /\ py_float (strip tok) = None) ->
     forall rest, parse_lines st (t :: rest) = Err ValueError)
  /\ ((forall tok, In tok (split_char SEMI g2) -> strip tok <> [] -> py_float (strip tok) <> None) ->
     exists vals,
       parse_line st t = Ok {| meta := set_category (strip g1) vals (meta st);
                               overall_header_seen := overall_header_seen st |}
       /\ Forall2 (fun tok v => py_float (strip tok) = Some v)
            (filter (fun tok => negb (is_nil (strip tok))) (split_char SEMI g2)) vals).
Proof.
  split.
  - intros Hbad rest. apply existsb_bad_token in Hbad.
    simpl. unfold parse_line. rewrite Hhead, Hmatch. unfold parse_values.
    rewrite (parse_values_err _ Hbad). reflexivity.
  - intro Hgood.
    assert (Hn : existsb (fun tok => negb (is_nil (strip tok)) && negb (is_some (py_float (strip tok))))
                   (split_char SEMI g2) = false).
    { destruct (existsb _ _) eqn:E; [|reflexivity].
      apply existsb_bad_token in E as [tok [Hin [H1 H2]]]. exfalso. exact (Hgood tok Hin H1 H2). }
    destruct (parse_values_ok _ Hn) as [vals [E F]]. exists vals. split; [|exact F].
    unfold parse_line. rewrite Hhead, Hmatch. unfold parse_values. rewrite E. reflexivity.
Qed.
Lemma category_average_ok : forall sub, sub <> [] -> exists q, category_average sub = Ok q.
Proof.
  intros sub Hne. destruct sub as [|kv sub]; [contradiction|]. eexists. reflexivity.
Qed.

Lemma dict_get_cons : forall {V} c k (v : V) d,
  Dict.get c ((k, v) :: d) = if text_eqb c k then Some v else Dict.get c d.
Proof. reflexivity. Qed.

(** Each step of the loop of lines 119-123, on the value of the history. *)
Lemma merge_step_get : forall (h : cat_history_t) cat,
  exists vs,
    Dict.get cat (ensure_key cat h) = Some vs
    /\ vs = get_or_nil cat h
    /\ (forall c, c <> cat ->
          Dict.get c (ensure_key cat h) = Dict.get c h).
Proof.
  intros h cat. unfold ensure_key, Dict.mem, get_or_nil.
  destruct (Dict.get cat h) as [vs|] eqn:E.
  - exists vs. rewrite E. auto.
  - exists []. rewrite dict_get_set_same. repeat split.
    intros c Hc. now apply dict_get_set_other.
Qed.

Lemma merge_categories_spec : forall scores h h',
  NoDup (map fst scores) ->
  merge_categories scores h = Ok h' ->
  forall c,
    match Dict.get c scores with
    | Some sub => exists avg, category_average sub = Ok avg
                  /\ Dict.get c h' = Some (get_or_nil c h ++ [round1f (PFin avg)])
    | None => Dict.get c h' = Dict.get c h
    end.
Proof.
  induction scores as [|[cat sub] rest IH]; intros h h' Hnd H c; simpl in H.
  - injection H as <-. reflexivity.
  - inversion Hnd as [|? ? Hnotin Hnd']; subst.
    destruct (category_average sub) as [avg|] eqn:Havg; simpl in H; [|discriminate].
    destruct (merge_step_get h cat) as [vs [Hget [Hvs Hother]]].
    rewrite Hget in H. simpl in H.
    specialize (IH _ _ Hnd' H c).
    rewrite dict_get_cons.
    destruct (text_eqb c cat) eqn:Ec.
    + apply text_eqb_eq in Ec. subst c.
      rewrite (dict_get_notin cat rest Hnotin) in IH.
      exists avg. split; [exact Havg|].
      rewrite IH, dict_get_set_same, Hvs. reflexivity.
    + assert (Hne : c <> cat) by (intro E; subst; now rewrite text_eqb_refl in Ec).
      destruct (Dict.get c rest) as [sub'|].
      * destruct IH as [avg' [H1 H2]]. exists avg'. split; [exact H1|].
        rewrite H2. unfold get_or_nil.
        now rewrite (dict_get_set_other _ _ _ _ Hne), (Hother c Hne).
      * rewrite IH, (dict_get_set_other _ _ _ _ Hne). exact (Hother c Hne).
Qed.



(** C3.  The merge of [create_docx_report] is append-only: every category
    of the score matrix gets exactly one new entry [round(avg, 1)] after its
    previous history (an empty one when it is new), every other category
    keeps its history as it was, and the overall history gets one entry
    after the previous ones. *)
Theorem merge_append_only : forall scores prev_cat prev_overall today ch ov s,
  NoDup (map fst scores) ->
  merge_history scores prev_cat prev_overall today = Ok (ch, ov, s) ->
  (forall c,
     match Dict.get c scores with
     | Some sub => exists avg, category_average sub = Ok avg
                   /\ Dict.get c ch = Some (get_or_nil c prev_cat ++ [round1f (PFin avg)])
     | None => Dict.get c ch = Dict.get c prev_cat
     end)
  /\ ov = prev_overall ++ [(today, s)].
Proof.
  intros scores prev_cat prev_overall today ch ov s Hnd H. unfold merge_history in H.
  destruct (merge_categories scores prev_cat) as [h'|] eqn:Em; simpl in H; [|discriminate].
  destruct (map_result _ scores) as [avgs|]; simpl in H; [|discriminate].
  destruct (mean avgs) as [m|]; simpl in H; [|discriminate].
  injection H as <- <- <-. split; [|reflexivity].
  exact (merge_categories_spec scores prev_cat h' Hnd Em).
Qed.

Ltac nodup_texts := repeat constructor; cbn; intuition discriminate.

Lemma merge_append_only_witness :
  NoDup (map fst sample_scores)
  /\ merge_history sample_scores sample_prev_cat sample_prev_overall sample_today
     = Ok (fst (fst sample_merged), snd (fst sample_merged), snd sample_merged)
  /\ (forall c,
        match Dict.get c sample_scores with
        | Some sub => exists avg, category_average sub = Ok avg
                      /\ Dict.get c (fst (fst sample_merged))
                         = Some (get_or_nil c sample_prev_cat ++ [round1f (PFin avg)])
        | None => Dict.get c (fst (fst sample_merged)) = Dict.get c sample_prev_cat
        end)
  /\ snd (fst sample_merged) = sample_prev_overall ++ [(sample_today, snd sample_merged)].
Proof.
  assert (H1 : NoDup (map fst sample_scores)) by nodup_texts.
  assert (H2 : merge_history sample_scores sample_prev_cat sample_prev_overall sample_today
               = Ok (fst (fst sample_merged), snd (fst sample_merged), snd sample_merged))
    by (vm_compute; reflexivity).
  split; [exact H1|]. split; [exact H2|].
  exact (merge_append_only _ _ _ _ _ _ _ H1 H2).
Defined.



(** ** Object identity in the merge *)

Section HeapFacts.

Import Heap.

Lemma length_update : forall {A} (l : list A) n x, List.length (update l n x) = List.length l.
Proof. induction l as [|y l IH]; intros [|n] x; simpl; auto. Qed.

Lemma nth_update_same : forall {A} (l : list A) n x d,
  (n < List.length l)%nat -> nth n (update l n x) d = x.
Proof.
  induction l as [|y l IH]; intros [|n] x d H; simpl in *; try lia; auto.
  apply IH. lia.
Qed.

Lemma nth_update_other : forall {A} (l : list A) n m x d,
  m <> n -> nth m (update l n x) d = nth m l d.
Proof.
  induction l as [|y l IH]; intros [|n] [|m] x d H; simpl; auto; try lia.
Qed.

Lemma deref_append_same : forall h a x,
  (a < List.length h)%nat -> deref (append h a x) a = deref h a ++ [x].
Proof. intros. unfold deref, append. now apply nth_update_same. Qed.

Lemma deref_append_other : forall h a b x,
  b <> a -> deref (append h a x) b = deref h b.
Proof. intros. unfold deref, append. now apply nth_update_other. Qed.

Lemma length_append : forall h a x, List.length (append h a x) = List.length h.
Proof. intros. unfold append. apply length_update. Qed.

Lemma deref_alloc_old : forall h l b,
  (b < List.length h)%nat -> deref (h ++ [l]) b = deref h b.
Proof. intros. unfold deref. now apply app_nth1. Qed.

Lemma deref_alloc_new : forall h l, deref (h ++ [l]) (List.length h) = l.
Proof. intros. unfold deref. rewrite app_nth2 by lia. now rewrite Nat.sub_diag. Qed.

Lemma dict_get_in_snd : forall {V} c (d : list (text * V)) a,
  Dict.get c d = Some a -> In a (map snd d).
Proof.
  intros V c d a. induction d as [|[k v] d IH]; simpl; [discriminate|].
  destruct (text_eqb c k); [intro H; injection H as ->; auto | auto].
Qed.

Lemma dict_get_injective : forall {V} (d : list (text * V)) c c' a,
  NoDup (map snd d) -> Dict.get c d = Some a -> Dict.get c' d = Some a -> c = c'.
Proof.
  induction d as [|[k v] d IH]; intros c c' a Hnd H H'; simpl in *; [discriminate|].
  inversion Hnd as [|? ? Hv Hnd']; subst.
  destruct (text_eqb c k) eqn:E1, (text_eqb c' k) eqn:E2.
  - apply text_eqb_eq in E1. apply text_eqb_eq in E2. congruence.
  - injection H as <-. exfalso. apply Hv. eapply dict_get_in_snd; eauto.
  - injection H' as <-. exfalso. apply Hv. eapply dict_get_in_snd; eauto.
  - eapply IH; eauto.
Qed.

Lemma dict_set_new : forall {V} k (v : V) d,
  Dict.get k d = None -> Dict.set k v d = d ++ [(k, v)].
Proof.
  intros V k v d. induction d as [|[k' v'] d IH]; simpl; [reflexivity|].
  destruct (text_eqb k k'); [discriminate|]. intro H. now rewrite IH.
Qed.

Lemma merge_heap_loop : forall scores h d h' d',
  NoDup (map fst scores) ->
  NoDup (map snd d) ->
  (forall a, In a (map snd d) -> (a < List.length h)%nat) ->
  merge_categories_heap scores h d = Ok (h', d') ->
  (List.length h <= List.length h')%nat
  /\ (forall c a, Dict.get c d = Some a ->
        Dict.get c d' = Some a
        /\ match Dict.get c scores with
           | Some sub => exists avg, category_average sub = Ok avg
                         /\ deref h' a = deref h a ++ [IFloat (round1f (PFin avg))]
           | None => deref h' a = deref h a
           end)
  /\ (forall b, (b < List.length h)%nat -> ~ In b (map snd d) -> deref h' b = deref h b).
Proof.
  induction scores as [|[cat sub] rest IH]; intros h d h' d' Hnd Hloc Hval H; simpl in H.
  - injection H as <- <-. repeat split; auto.
  - inversion Hnd as [|? ? Hnotin Hnd']; subst.
    destruct (category_average sub) as [avg|] eqn:Havg; simpl in H; [|discriminate].
    unfold Dict.mem in H. destruct (Dict.get cat d) as [a0|] eqn:Ecat.
    + (* [cat] already has a list: append to it *)
      simpl in H. rewrite Ecat in H. simpl in H.
      assert (Ha0 : (a0 < List.length h)%nat) by (apply Hval; eapply dict_get_in_snd; eauto).
      assert (Hval1 : forall a, In a (map snd d) -> (a < List.length (append h a0 (IFloat (round1f (PFin avg)))))%nat)
        by (intros; rewrite length_append; auto).
      destruct (IH _ _ _ _ Hnd' Hloc Hval1 H) as [Hlen [Hkeys Hrest]].
      rewrite length_append in Hlen. split; [exact Hlen|]. split.
      * intros c a Hc. destruct (Hkeys c a Hc) as [Hd' Hm]. split; [exact Hd'|].
        rewrite dict_get_cons. destruct (text_eqb c cat) eqn:E.
        -- apply text_eqb_eq in E. subst c. rewrite Ecat in Hc. injection Hc as <-.
           rewrite (dict_get_notin cat rest Hnotin) in Hm.
           exists avg. split; [exact Havg|]. rewrite Hm. now apply deref_append_same.
        -- assert (Hne : a <> a0).
           { intro Heq. subst a. assert (c = cat) by (eapply dict_get_injective; eauto).
             subst c. now rewrite text_eqb_refl in E. }
           destruct (Dict.get c rest).
           ++ destruct Hm as [avg' [H1 H2]]. exists avg'. split; [exact H1|].
              rewrite H2. now rewrite deref_append_other.
           ++ rewrite Hm. now rewrite deref_append_other.
      * intros b Hb Hnb. rewrite Hrest.
        -- apply deref_append_other. intro Heq; subst b. apply Hnb.
           eapply dict_get_in_snd; eauto.
        -- now rewrite length_append.
        -- exact Hnb.
    + (* a new list object for [cat] *)
      simpl in H. rewrite dict_get_set_same in H. simpl in H.
      set (n := List.length h) in *.
      set (h1 := append (h ++ [[]]) n (IFloat (round1f (PFin avg)))) in *.
      assert (Hlen1 : List.length h1 = S n)
        by (unfold h1; rewrite length_append, length_app; simpl; lia).
      assert (Hloc1 : NoDup (map snd (Dict.set cat n d))).
      { rewrite (dict_set_new _ _ _ Ecat), map_app. simpl.
        apply NoDup_app; auto using NoDup_cons, NoDup_nil.
        intros x Hx Hx'. simpl in Hx'. destruct Hx' as [<-|[]].
        specialize (Hval _ Hx). unfold n in Hval. lia. }
      assert (Hval1 : forall a, In a (map snd (Dict.set cat n d)) -> (a < List.length h1)%nat).
      { rewrite (dict_set_new _ _ _ Ecat), map_app. simpl. intros a Ha.
        apply in_app_or in Ha as [Ha|[<-|[]]]; rewrite Hlen1; [specialize (Hval _ Ha)|]; lia. }
      destruct (IH _ _ _ _ Hnd' Hloc1 Hval1 H) as [Hlen [Hkeys Hrest]].
      assert (Hold : forall b, (b < n)%nat -> deref h1 b = deref h b).
      { intros b Hb. unfold h1. rewrite deref_append_other by lia.
        now apply deref_alloc_old. }
      split; [lia|]. split.
      * intros c a Hc.
        assert (Hne : c <> cat) by (intro E; subst; congruence).
        assert (Ha : (a < n)%nat) by (apply Hval; eapply dict_get_in_snd; eauto).
        rewrite <- (dict_get_set_other cat c n d Hne) in Hc.
        destruct (Hkeys c a Hc) as [Hd' Hm]. split; [exact Hd'|].
        rewrite dict_get_cons, (text_eqb_neq _ _ Hne).
        destruct (Dict.get c rest).
        -- destruct Hm as [avg' [H1 H2]]. exists avg'. split; [exact H1|].
           rewrite H2, Hold by exact Ha. reflexivity.
        -- rewrite Hm. now apply Hold.
      * intros b Hb Hnb. rewrite Hrest.
        -- now apply Hold.
        -- rewrite Hlen1. lia.
        -- rewrite (dict_set_new _ _ _ Ecat), map_app. simpl. intro Hin.
           apply in_app_or in Hin as [Hin|[Heq|[]]]; [contradiction|]. lia.
Qed.

End HeapFacts.

(** C9.  [create_docx_report] shares the caller's category lists: for a
    category [c] of the caller's [prev_cat_history] (held at address [a])
    that is also in [scores], the new entry [round(avg, 1)] is appended to
    the list object at [a] itself, which the new dict still holds; the
    caller's [prev_overall_history] list keeps its contents, and the new
    overall history is a different list object holding its entries and the
    new one.  (The caller's lists are distinct objects, as
    [parse_docx_report] builds them.) *)
Theorem create_shares_category_lists :
  forall scores h prev_cat prev_overall today h' d' o s c a sub,
  NoDup (map fst scores) ->
  NoDup (map snd prev_cat) ->
  (forall b, In b (map snd prev_cat) -> (b < List.length h)%nat) ->
  (prev_overall < List.length h)%nat ->
  ~ In prev_overall (map snd prev_cat) ->
  Dict.get c prev_cat = Some a ->
  Dict.get c scores = Some sub ->
  Heap.merge_history_heap scores h prev_cat prev_overall today = Ok (h', d', o, s) ->
  exists avg,
    category_average sub = Ok avg
    /\ Heap.deref h' a = Heap.deref h a ++ [Heap.IFloat (round1f (PFin avg))]
    /\ Dict.get c d' = Some a
    /\ Heap.deref h' prev_overall = Heap.deref h prev_overall
    /\ o <> prev_overall
    /\ Heap.deref h' o = Heap.deref h prev_overall ++ [Heap.IPair today s].
Proof.
  intros scores h prev_cat prev_overall today h' d' o s c a sub
    Hnd Hloc Hval Hlo Hlo' Hc Hsub H.
  unfold Heap.merge_history_heap in H.
  destruct (Heap.merge_categories_heap scores h prev_cat) as [[h1 d1]|] eqn:Em;
    simpl in H; [|discriminate].
  destruct (map_result _ scores) as [avgs|]; simpl in H; [|discriminate].
  destruct (mean avgs) as [m|]; simpl in H; [|discriminate].
  injection H as <- <- <- <-.
  destruct (merge_heap_loop scores h prev_cat h1 d1 Hnd Hloc Hval Em)
    as [Hlen [Hkeys Hrest]].
  destruct (Hkeys c a Hc) as [Hd1 Hm]. rewrite Hsub in Hm.
  destruct Hm as [avg [Havg Ha]].
  assert (Ha_lt : (a < List.length h)%nat) by (apply Hval; eapply dict_get_in_snd; eauto).
  exists avg. split; [exact Havg|]. split.
  - rewrite deref_append_other by lia. rewrite deref_alloc_old by lia. exact Ha.
  - split; [exact Hd1|]. split.
    + rewrite deref_append_other by lia. rewrite deref_alloc_old by lia.
      now apply Hrest.
    + split; [lia|].
      rewrite deref_append_same by (rewrite length_app; simpl; lia).
      rewrite deref_alloc_new. now rewrite (Hrest prev_overall Hlo Hlo').
Qed.

Lemma create_shares_category_lists_witness :
  exists avg,
    category_average [(str "Footwork", 80%Z); (str "Release", 84%Z)] = Ok avg
    /\ Heap.deref (fst (fst (fst sample_heap_result))) 1
       = Heap.deref sample_heap 1 ++ [Heap.IFloat (round1f (PFin avg))]
    /\ Dict.get (str "Execution") (snd (fst (fst sample_heap_result))) = Some 1%nat
    /\ Heap.deref (fst (fst (fst sample_heap_result))) 2 = Heap.deref sample_heap 2
    /\ snd (fst sample_heap_result) <> 2%nat
    /\ Heap.deref (fst (fst (fst sample_heap_result))) (snd (fst sample_heap_result))
       = Heap.deref sample_heap 2 ++ [Heap.IPair sample_today (snd sample_heap_result)].
Proof.
  apply (create_shares_category_lists sample_scores sample_heap sample_prev_cat_ref 2
           sample_today (fst (fst (fst sample_heap_result)))
           (snd (fst (fst sample_heap_result))) (snd (fst sample_heap_result))
           (snd sample_heap_result) (str "Execution") 1
           [(str "Footwork", 80%Z); (str "Release", 84%Z)]).
  - nodup_texts.
  - repeat constructor; cbn; intuition discriminate.
  - intros b Hb. cbn in Hb. destruct Hb as [<-|[<-|[]]]; cbn; lia.
  - cbn. lia.
  - cbn. intuition discriminate.
  - vm_compute. reflexivity.
  - vm_compute. reflexivity.
  - vm_compute. reflexivity.
Defined.

(** ** Reading a bullet line back *)

Lemma lstrip_nonspace : forall c s, is_space c = false -> lstrip (c :: s) = c :: s.
Proof. intros c s H. simpl. now rewrite H. Qed.

Lemma lstrip_suffix : forall s, lstrip s = s \/ (List.length (lstrip s) < List.length s)%nat.
Proof.
  induction s as [|c s IH]; simpl; [auto|].
  destruct (is_space c); [right|left; reflexivity].
  destruct IH as [->|IH]; simpl; lia.
Qed.

Lemma lstrip_length : forall s, (List.length (lstrip s) <= List.length s)%nat.
Proof. intro s. destruct (lstrip_suffix s) as [->|H]; lia. Qed.

Lemma lstrip_of_strip : forall s, strip s = s -> lstrip s = s.
Proof.
  intros s H. destruct (lstrip_suffix s) as [E|E]; [exact E|].
  exfalso. assert (Hl : List.length (strip s) = List.length s) by now rewrite H.
  unfold strip, rstrip in Hl. rewrite length_rev in Hl.
  pose proof (lstrip_length (rev (lstrip s))). rewrite length_rev in H0. lia.
Qed.

Lemma strip_framed : forall s,
  s <> [] -> is_space (hd 0%N s) = false -> is_space (last s 0%N) = false -> strip s = s.
Proof.
  intros s Hne Hhd Hlast. unfold strip, rstrip.
  assert (E1 : lstrip s = s).
  { destruct s as [|c s']; [contradiction|]. exact (lstrip_nonspace c s' Hhd). }
  rewrite E1. destruct (exists_last Hne) as [init [x Ex]]. subst s.
  rewrite last_last in Hlast. rewrite rev_app_distr. simpl.
  rewrite Hlast. simpl. rewrite rev_involutive. reflexivity.
Qed.

Lemma last_in : forall {A} (l : list A) d, l <> [] -> In (last l d) l.
Proof.
  intros A l d Hne. destruct (exists_last Hne) as [init [x ->]].
  rewrite last_last. apply in_or_app. right. now left.
Qed.

Lemma strip_spacefree : forall t,
  forallb (fun c => negb (is_space c)) t = true -> strip t = t.
Proof.
  intros t H. destruct t as [|c t']; [reflexivity|].
  apply strip_framed; [discriminate| |].
  - simpl in H. apply andb_prop in H as [H _]. now apply negb_true_iff.
  - apply negb_true_iff. apply forallb_forall with (x := last (c :: t') 0%N) in H.
    + exact H.
    + apply last_in. discriminate.
Qed.

Lemma join_snoc : forall sep init t,
  init <> [] -> join sep (init ++ [t]) = join sep init ++ sep ++ t.
Proof.
  intros sep init t. induction init as [|a init IH]; intro Hne; [contradiction|].
  destruct init as [|b init]; [reflexivity|].
  simpl app in *. change (join sep (a :: b :: init ++ [t]))
    with (a ++ sep ++ join sep (b :: init ++ [t])).
  rewrite IH by discriminate. simpl. now rewrite !app_assoc.
Qed.

Lemma forallb_join : forall (p : N -> bool) sep toks,
  forallb p sep = true -> forallb (fun t => forallb p t) toks = true ->
  forallb p (join sep toks) = true.
Proof.
  intros p sep toks Hsep. induction toks as [|t toks IH]; intro H; [reflexivity|].
  simpl in H. apply andb_prop in H as [Ht Hts].
  destruct toks as [|t' toks]; [exact Ht|].
  change (forallb p (t ++ sep ++ join sep (t' :: toks)) = true).
  rewrite !forallb_app, Ht, Hsep, IH by exact Hts. reflexivity.
Qed.

Lemma split_at_first_app : forall c p r,
  contains c p = false -> Regex.split_at_first c (p ++ c :: r) = Some (p, r).
Proof.
  intros c p r. induction p as [|x p IH]; intro H; simpl.
  - now rewrite N.eqb_refl.
  - simpl in H. apply orb_false_elim in H as [H1 H2].
    rewrite N.eqb_sym, H1, IH by exact H2. reflexivity.
Qed.

Lemma split_char_nosep : forall c p, contains c p = false -> split_char c p = [p].
Proof.
  intros c p. induction p as [|x p IH]; intro H; [reflexivity|].
  simpl in H. apply orb_false_elim in H as [H1 H2]. simpl.
  rewrite N.eqb_sym, H1, IH by exact H2. reflexivity.
Qed.

Lemma split_char_app : forall c p r,
  contains c p = false -> split_char c (p ++ c :: r) = p :: split_char c r.
Proof.
  intros c p r. induction p as [|x p IH]; intro H; simpl.
  - now rewrite N.eqb_refl.
  - simpl in H. apply orb_false_elim in H as [H1 H2].
    rewrite N.eqb_sym, H1, IH by exact H2. reflexivity.
Qed.

Lemma take_while_all : forall p s, forallb p s = true -> take_while p s = s.
Proof.
  intros p s. induction s as [|c s IH]; intro H; [reflexivity|].
  simpl in *. apply andb_prop in H as [H1 H2]. rewrite H1, IH by exact H2. reflexivity.
Qed.

Lemma skipn_length_self : forall (s : text), skipn (List.length s) s = [].
Proof. induction s; simpl; auto. Qed.

Lemma last_app_nonempty : forall (l1 l2 : text) d, l2 <> [] -> last (l1 ++ l2) d = last l2 d.
Proof.
  intros l1 l2 d H. induction l1 as [|a l1 IH]; [reflexivity|].
  simpl. rewrite IH. destruct l1, l2; simpl; auto. contradiction.
Qed.

Lemma last_cons2 : forall a b (t : text) d, t <> [] -> last (a :: b :: t) d = last t d.
Proof. intros a b [|c t] d H; [contradiction|reflexivity]. Qed.

Lemma forallb_rev_text : forall (p : N -> bool) (s : text),
  forallb p s = true -> forallb p (rev s) = true.
Proof.
  intros p s H. apply forallb_forall. intros x Hx.
  apply in_rev in Hx. exact (proj1 (forallb_forall p s) H x Hx).
Qed.

Lemma space_32 : is_space 32 = true.
Proof. reflexivity. Qed.

Lemma nonspace_neq_32 : forall c, is_space c = false -> (32 =? c)%N = false.
Proof.
  intros c H. apply N.eqb_neq. intros <-. rewrite space_32 in H. discriminate.
Qed.

Lemma nonspace_not_newline : forall c, is_space c = false -> (c =? NEWLINE)%N = false.
Proof.
  intros c H. apply N.eqb_neq. intros ->. discriminate.
Qed.

(** No line ending in [<sep> <space> <token>] ends with "Stats Report". *)
Lemma not_stats_report_end : forall r sep Y,
  r <> [] -> forallb (fun c => negb (is_space c)) r = true -> (115 =? sep)%N = false ->
  starts_with (rev STATS_REPORT) (r ++ 32%N :: sep :: Y) = false.
Proof.
  intros r sep Y Hne Hsp Hsep.
  change (rev STATS_REPORT) with
    [116; 114; 111; 112; 101; 82; 32; 115; 116; 97; 116; 83]%N.
  destruct r as [|a1 [|a2 [|a3 [|a4 [|a5 [|a6 [|a7 r]]]]]]];
    [contradiction| | | | | | |]; cbn [app starts_with];
    rewrite ?Hsep; cbn -[N.eqb];
    repeat rewrite andb_false_r; try reflexivity.
  simpl in Hsp. repeat (apply andb_prop in Hsp as [? Hsp]).
  match goal with H : negb (is_space a7) = true |- _ =>
    apply negb_true_iff, nonspace_neq_32 in H; rewrite H end.
  simpl. repeat rewrite andb_false_r. reflexivity.
Qed.

Lemma lstrip_nonspace_hd : forall s,
  s <> [] -> is_space (hd 0%N s) = false -> lstrip s = s.
Proof. intros [|c s] H Hh; [contradiction|]. exact (lstrip_nonspace c s Hh). Qed.

(** The regex [^•\s*([^:]+):\s*(.+)$] on a bullet line written as
    ["• " ++ cat ++ ": " ++ J]. *)
Lemma cat_pattern_bullet : forall cat J,
  cat_ok cat = true -> J <> [] -> is_space (hd 0%N J) = false ->
  forallb (fun c => negb (c =? NEWLINE)%N) J = true ->
  exists g1, cat_pattern_match (BULLET :: 32%N :: cat ++ 58%N :: 32%N :: J) = Some (g1, J)
             /\ strip g1 = cat.
Proof.
  intros cat J Hcat HJ HJh HJn.
  unfold cat_ok in Hcat. apply andb_prop in Hcat as [Hcol Hstr].
  apply andb_prop in Hcol as [Hcol _]. apply negb_true_iff in Hcol. apply text_eqb_eq in Hstr.
  unfold cat_pattern_match. rewrite N.eqb_refl.
  change (32%N :: cat ++ 58%N :: 32%N :: J) with ((32%N :: cat) ++ COLON :: 32%N :: J).
  rewrite (split_at_first_app COLON (32%N :: cat) (32%N :: J)) by exact Hcol.
  assert (Htail : cat_tail (32%N :: J) = Some J).
  { unfold cat_tail, leading_spaces.
    change (lstrip (32%N :: J)) with (lstrip J).
    rewrite (lstrip_nonspace_hd J HJ HJh).
    replace (List.length (32%N :: J) - List.length J)%nat with 1%nat by (cbn [List.length]; lia).
    simpl. rewrite (take_while_all _ J HJn), skipn_length_self.
    destruct J; [contradiction|reflexivity]. }
  rewrite Htail. unfold cat_group1.
  change (lstrip (32%N :: cat)) with (lstrip cat).
  destruct cat as [|c cat'].
  - exists [32%N]. split; reflexivity.
  - rewrite (lstrip_of_strip _ Hstr). exists (c :: cat'). split; [reflexivity|exact Hstr].
Qed.

Lemma split_char_other : forall c x s, (x =? c)%N = false ->
  split_char c (x :: s) =
  match split_char c s with p :: ps => (x :: p) :: ps | [] => [[x]] end.
Proof. intros c x s H. simpl. now rewrite H. Qed.

Lemma split_join_semi : forall toks t0,
  forallb (fun t => negb (contains SEMI t)) (t0 :: toks) = true ->
  split_char SEMI (join (str "; ") (t0 :: toks)) = t0 :: map (cons 32%N) toks.
Proof.
  induction toks as [|t1 toks IH]; intros t0 H.
  - simpl in H. rewrite andb_true_r in H. apply negb_true_iff in H.
    exact (split_char_nosep SEMI t0 H).
  - simpl in H. apply andb_prop in H as [H0 H].
    change (join (str "; ") (t0 :: t1 :: toks))
      with (t0 ++ SEMI :: 32%N :: join (str "; ") (t1 :: toks)).
    apply negb_true_iff in H0. rewrite (split_char_app SEMI t0 _ H0).
    rewrite split_char_other by reflexivity. rewrite IH by exact H. reflexivity.
Qed.

Lemma strip_space_cons : forall t, strip (32%N :: t) = strip t.
Proof. reflexivity. Qed.

Lemma parse_values_stripped : forall parts,
  map_result (fun x => of_option ValueError (py_float (strip x)))
    (filter (fun x => negb (is_nil (strip x))) parts)
  = parse_tokens (map strip parts).
Proof.
  unfold parse_tokens. induction parts as [|a parts IH]; [reflexivity|].
  simpl. destruct (is_nil (strip a)); simpl; rewrite IH; reflexivity.
Qed.

Lemma tok_ok_spacefree : forall t,
  tok_ok t = true -> forallb (fun c => negb (is_space c)) t = true.
Proof.
  intros t H. apply forallb_forall. intros x Hx.
  unfold tok_ok in H. rewrite forallb_forall in H. specialize (H x Hx).
  now apply andb_prop in H as [H _].
Qed.

Lemma tok_ok_nosemi : forall t, tok_ok t = true -> contains SEMI t = false.
Proof.
  intros t H. unfold contains. apply not_true_iff_false. intro E.
  apply existsb_exists in E as [x [Hx Ex]]. apply N.eqb_eq in Ex. subst x.
  unfold tok_ok in H. rewrite forallb_forall in H. specialize (H SEMI Hx).
  rewrite N.eqb_refl in H. now rewrite andb_false_r in H.
Qed.

Lemma tok_ok_in : forall toks t, forallb tok_ok toks = true -> In t toks -> tok_ok t = true.
Proof. intros toks t H Hin. exact (proj1 (forallb_forall _ _) H t Hin). Qed.

Lemma join_last_nonempty : forall sep toks,
  last toks [] <> [] -> join sep toks <> [].
Proof.
  intros sep toks H. assert (Hne : toks <> []) by (intros ->; contradiction).
  destruct (exists_last Hne) as [init [t ->]]. rewrite last_last in H.
  destruct init as [|i init].
  - exact H.
  - rewrite join_snoc by discriminate. intro E.
    apply app_eq_nil in E as [_ E]. apply app_eq_nil in E as [_ E]. contradiction.
Qed.

Lemma hd_join_nonspace : forall sep toks,
  sep <> [] -> is_space (hd 0%N sep) = false ->
  forallb (fun t => forallb (fun c => negb (is_space c)) t) toks = true ->
  join sep toks <> [] -> is_space (hd 0%N (join sep toks)) = false.
Proof.
  intros sep toks Hs Hsh H HJ.
  destruct toks as [|a [|b rest]]; [contradiction| |].
  - destruct a as [|c a']; [contradiction|]. simpl in H |- *.
    apply andb_prop in H as [H _]. apply andb_prop in H as [H _].
    now apply negb_true_iff.
  - change (join sep (a :: b :: rest)) with (a ++ sep ++ join sep (b :: rest)).
    destruct a as [|c a'].
    + destruct sep; [contradiction|exact Hsh].
    + simpl in H |- *. apply andb_prop in H as [H _]. apply andb_prop in H as [H _].
      now apply negb_true_iff.
Qed.

Lemma bullet_text_end : forall cat toks,
  last toks [] <> [] ->
  exists X sep, bullet_text cat toks = X ++ sep :: 32%N :: last toks []
                /\ (115 =? sep)%N = false.
Proof.
  intros cat toks H. assert (Hne : toks <> []) by (intros ->; contradiction).
  destruct (exists_last Hne) as [init [t ->]]. rewrite last_last.
  destruct init as [|i init].
  - exists (BULLET :: 32%N :: cat), 58%N. split; reflexivity.
  - exists (BULLET :: 32%N :: cat ++ 58%N :: 32%N :: join (str "; ") (i :: init)), 59%N.
    split; [|reflexivity]. unfold bullet_text.
    rewrite join_snoc by discriminate. simpl. now rewrite <- !app_assoc.
Qed.

(** [parse_line] on a bullet line: the category is set to the numbers of
    the non-blank tokens, or the first rejected token raises. *)
Lemma parse_line_bullet : forall st cat toks,
  cat_ok cat = true -> forallb tok_ok toks = true -> last toks [] <> [] ->
  parse_line st (bullet_text cat toks) =
  (vals <- parse_tokens toks ;;
   Ok {| meta := set_category cat vals (meta st);
         overall_header_seen := overall_header_seen st |}).
Proof.
  intros st cat toks Hcat Htoks Hlast.
  assert (Hne : toks <> []) by (intros ->; contradiction).
  destruct (bullet_text_end cat toks Hlast) as [X [sep [HX Hsep]]].
  assert (Htin : In (last toks []) toks) by (apply last_in; exact Hne).
  remember (last toks []) as t eqn:Et.
  assert (HX' : bullet_text cat toks = X ++ sep :: 32%N :: t) by (rewrite Et; exact HX).
  clear HX.
  assert (Htsp : forallb (fun c => negb (is_space c)) t = true)
    by exact (tok_ok_spacefree t (tok_ok_in toks t Htoks Htin)).
  assert (Hall : forallb (fun t => forallb (fun c => negb (is_space c)) t) toks = true).
  { apply forallb_forall. intros x Hx. exact (tok_ok_spacefree x (tok_ok_in toks x Htoks Hx)). }
  assert (Hstrip : strip (bullet_text cat toks) = bullet_text cat toks).
  { apply strip_framed.
    - unfold bullet_text. discriminate.
    - reflexivity.
    - rewrite HX', last_app_nonempty by discriminate.
      rewrite last_cons2 by exact Hlast.
      apply negb_true_iff. apply (proj1 (forallb_forall _ _) Htsp).
      apply last_in. exact Hlast. }
  assert (Hhead : is_heading_shaped (bullet_text cat toks) = false).
  { unfold is_heading_shaped, ends_with. rewrite HX'.
    replace (rev (X ++ sep :: 32%N :: t)) with (rev t ++ 32%N :: sep :: rev X)
      by (rewrite rev_app_distr; simpl; now rewrite <- !app_assoc).
    rewrite not_stats_report_end; [reflexivity| | |exact Hsep].
    - intro E. apply Hlast. rewrite <- (rev_involutive t), E. reflexivity.
    - exact (forallb_rev_text _ t Htsp). }
  set (J := join (str "; ") toks).
  assert (HJ : J <> []) by exact (join_last_nonempty _ toks ltac:(intro E; apply Hlast; rewrite Et; exact E)).
  assert (HJh : is_space (hd 0%N J) = false)
    by exact (hd_join_nonspace (str "; ") toks ltac:(intro E; vm_compute in E; discriminate E) eq_refl Hall HJ).
  assert (HJn : forallb (fun c => negb (c =? NEWLINE)%N) J = true).
  { apply forallb_join; [reflexivity|]. apply forallb_forall. intros x Hx.
    apply forallb_forall. intros c Hc.
    pose proof (proj1 (forallb_forall _ _) (tok_ok_spacefree x (tok_ok_in toks x Htoks Hx)) c Hc) as Hs.
    apply negb_true_iff in Hs. now rewrite nonspace_not_newline. }
  destruct (cat_pattern_bullet cat J Hcat HJ HJh HJn) as [g1 [Hm Hg1]].
  unfold parse_line. cbv zeta. rewrite Hstrip, Hhead.
  change (bullet_text cat toks) with (BULLET :: 32%N :: cat ++ 58%N :: 32%N :: J).
  rewrite Hm, Hg1. f_equal.
  destruct toks as [|t0 toks']; [contradiction|].
  unfold parse_values, J. rewrite split_join_semi.
  - rewrite parse_values_stripped. simpl map.
    rewrite (strip_spacefree t0) by (apply tok_ok_spacefree, (tok_ok_in _ _ Htoks); now left).
    f_equal. f_equal. f_equal. rewrite map_map.
    transitivity (map (fun x => x) toks'); [|apply map_id].
    apply map_ext_in. intros x Hx. rewrite strip_space_cons.
    apply strip_spacefree, tok_ok_spacefree, (tok_ok_in _ _ Htoks). now right.
  - apply forallb_forall. intros x Hx. apply negb_true_iff, tok_ok_nosemi.
    exact (tok_ok_in _ _ Htoks Hx).
Qed.

Lemma parse_tokens_ok : forall toks vals,
  parse_tokens toks = Ok vals ->
  Forall2 (fun t v => py_float t = Some v) (filter (fun x => negb (is_nil x)) toks) vals.
Proof.
  unfold parse_tokens. intros toks. generalize (filter (fun x => negb (is_nil x)) toks).
  induction l as [|a l IH]; intros vals H; simpl in H.
  - injection H as <-. constructor.
  - destruct (py_float a) as [v|] eqn:Ea; simpl in H; [|discriminate].
    destruct (map_result (fun x : text => of_option ValueError (py_float x)) l) as [vs|e] eqn:El; simpl in H; [|discriminate].
    injection H as <-. constructor; [exact Ea|]. apply IH. reflexivity.
Qed.

Lemma parse_tokens_err : forall toks t,
  In t toks -> t <> [] -> py_float t = None -> parse_tokens toks = Err ValueError.
Proof.
  unfold parse_tokens. intros toks t Hin Hne Hf.
  assert (Hin' : In t (filter (fun x => negb (is_nil x)) toks)).
  { apply filter_In. split; [exact Hin|]. destruct t; [contradiction|reflexivity]. }
  revert Hin'. generalize (filter (fun x => negb (is_nil x)) toks).
  induction l as [|a l IH]; intro H; [destruct H|].
  simpl. destruct H as [->|H].
  - rewrite Hf. reflexivity.
  - destruct (py_float a); simpl; [|reflexivity]. rewrite (IH H). reflexivity.
Qed.

(** ** Reading back [f"{v:.1f}"] *)

Lemma digit_char_cases : forall k, (k < 10)%N ->
  k = 0%N \/ k = 1%N \/ k = 2%N \/ k = 3%N \/ k = 4%N \/ k = 5%N \/ k = 6%N
  \/ k = 7%N \/ k = 8%N \/ k = 9%N.
Proof. intros k H. lia. Qed.

Ltac digit_cases k Hk :=
  destruct (digit_char_cases k Hk) as [->|[->|[->|[->|[->|[->|[->|[->|[->| ->]]]]]]]]].

Lemma digit_value_char : forall k, (k < 10)%N -> digit_value (digit_char k) = Some k.
Proof. intros k Hk. digit_cases k Hk; reflexivity. Qed.

Lemma digit_char_nonspace : forall k, (k < 10)%N -> is_space (digit_char k) = false.
Proof. intros k Hk. digit_cases k Hk; reflexivity. Qed.

Lemma ascii_digit_char : forall c, is_ascii_digit c = true ->
  exists k, (k < 10)%N /\ c = digit_char k.
Proof.
  intros c H. unfold is_ascii_digit in H. apply andb_prop in H as [H1 H2].
  apply N.leb_le in H1. apply N.leb_le in H2.
  exists (c - 48)%N. unfold digit_char. split; lia.
Qed.

Lemma ascii_digit_nonspace : forall c, is_ascii_digit c = true -> is_space c = false.
Proof.
  intros c H. destruct (ascii_digit_char c H) as [k [Hk ->]].
  exact (digit_char_nonspace k Hk).
Qed.

Lemma ascii_digit_is_digit : forall c, is_ascii_digit c = true -> is_digit c = true.
Proof.
  intros c H. destruct (ascii_digit_char c H) as [k [Hk ->]].
  unfold is_digit. now rewrite digit_value_char.
Qed.

Lemma ascii_digit_range : forall c, is_ascii_digit c = true -> (48 <= c <= 57)%N.
Proof.
  intros c H. unfold is_ascii_digit in H. apply andb_prop in H as [H1 H2].
  apply N.leb_le in H1. apply N.leb_le in H2. lia.
Qed.

Lemma digits_value_snoc : forall ds d,
  digits_value (ds ++ [d]) = (digits_value ds * 10 + Z.of_N d)%Z.
Proof. intros. unfold digits_value. now rewrite fold_left_app. Qed.

Lemma dec_digits_fuel_spec : forall fuel n, (n < N.of_nat fuel)%N ->
  digits_value (dec_digits_fuel fuel n) = Z.of_N n
  /\ Forall (fun d => (d < 10)%N) (dec_digits_fuel fuel n).
Proof.
  induction fuel as [|f IH]; intros n Hn; [lia|].
  simpl. destruct (n <? 10)%N eqn:E.
  - apply N.ltb_lt in E. split; [reflexivity|]. constructor; [exact E|constructor].
  - apply N.ltb_ge in E.
    assert (Hd : (n / 10 < N.of_nat f)%N).
    { assert (n / 10 < n)%N by (apply N.div_lt; lia). lia. }
    destruct (IH (n / 10)%N Hd) as [Hv Hall]. split.
    + rewrite digits_value_snoc, Hv.
      pose proof (N.div_mod n 10 ltac:(discriminate)). lia.
    + apply Forall_app. split; [exact Hall|]. constructor; [|constructor].
      apply N.mod_lt. discriminate.
Qed.

Lemma dec_digits_spec : forall n,
  digits_value (dec_digits n) = Z.of_N n /\ Forall (fun d => (d < 10)%N) (dec_digits n).
Proof. intro n. apply dec_digits_fuel_spec. lia. Qed.

Lemma span_digits_chars : forall ds rest,
  Forall (fun d => (d < 10)%N) ds ->
  match rest with c :: _ => digit_value c = None | [] => True end ->
  span_digits (map digit_char ds ++ rest) = (ds, rest).
Proof.
  induction ds as [|d ds IH]; intros rest Hall Hr.
  - destruct rest as [|c rest]; [reflexivity|]. simpl. now rewrite Hr.
  - inversion Hall as [|? ? Hd Hds]; subst. simpl.
    rewrite digit_value_char by exact Hd. now rewrite IH.
Qed.


(** [round_tenths] on a number with at most one decimal. *)
Lemma round_tenths_exact : forall q z, q == Qmake z 10 -> round_tenths q = z.
Proof.
  intros [n d] z H. unfold Qeq in H. simpl in H. unfold round_tenths. simpl.
  assert (E : (n * 10 = z * Z.pos d)%Z) by lia. rewrite E.
  rewrite Z.div_mul by lia. rewrite Z.mod_mul by lia.
  simpl. reflexivity.
Qed.

Lemma round_tenths_abs_nonneg : forall q,
  (0 <= round_tenths (Qmake (Z.abs (Qnum q)) (Qden q)))%Z.
Proof.
  intro q. unfold round_tenths. cbn [Qnum Qden].
  assert (H : (0 <= Z.abs (Qnum q) * 10 / Z.pos (Qden q))%Z)
    by (apply Z.div_pos; lia).
  destruct (Z.compare _ _); [destruct (Z.even _)|..]; lia.
Qed.

Lemma fmt1_shape : forall v,
  exists sgn ds r,
    fmt1 v = sgn ++ map digit_char ds ++ [46%N; digit_char r]
    /\ (sgn = [] \/ sgn = [45%N]) /\ Forall (fun d => (d < 10)%N) ds /\ (r < 10)%N
    /\ (digits_value (ds ++ [r]) = Z.of_N (Z.to_N (round_tenths (Qmake (Z.abs (Qnum v)) (Qden v)))))%Z
    /\ (sgn = [] <-> Qle_bool 0 v = true).
Proof.
  intro v. set (t := Z.to_N (round_tenths (Qmake (Z.abs (Qnum v)) (Qden v)))).
  destruct (dec_digits_spec (t / 10)) as [Hv Hall].
  exists (if Qle_bool 0 v then [] else str "-"), (dec_digits (t / 10)), (t mod 10)%N.
  split; [reflexivity|]. split; [destruct (Qle_bool 0 v); auto|].
  split; [exact Hall|]. split; [apply N.mod_lt; discriminate|]. split.
  - rewrite digits_value_snoc, Hv. fold t.
    pose proof (N.div_mod t 10 ltac:(discriminate)). lia.
  - destruct (Qle_bool 0 v); split; intro H; try reflexivity; discriminate.
Qed.

Lemma fmt1_chars : forall v c, In c (fmt1 v) ->
  c = 45%N \/ c = 46%N \/ exists k, (k < 10)%N /\ c = digit_char k.
Proof.
  intros v c Hc. destruct (fmt1_shape v) as [sgn [ds [r [E [Hs [Hall [Hr _]]]]]]].
  rewrite E in Hc. apply in_app_or in Hc as [Hc|Hc].
  - destruct Hs as [->| ->]; [destruct Hc|]. destruct Hc as [<-|[]]. now left.
  - apply in_app_or in Hc as [Hc|Hc].
    + apply in_map_iff in Hc as [k [<- Hk]]. right; right. exists k.
      split; [exact (proj1 (Forall_forall _ _) Hall k Hk)|reflexivity].
    + destruct Hc as [<-|[<-|[]]]; [now right; left|]. right; right. now exists r.
Qed.

Lemma fmt1_nonempty : forall v, fmt1 v <> [].
Proof.
  intro v. destruct (fmt1_shape v) as [sgn [ds [r [E _]]]]. rewrite E.
  intro H. apply app_eq_nil in H as [_ H]. apply app_eq_nil in H as [_ H]. discriminate.
Qed.

(** The characters of [f"{v:.1f}"]: a sign, digits, a point, or the
    letters of "inf" and "nan". *)
Lemma fmt1f_chars : forall v c, In c (fmt1f v) -> In c (str "-.0123456789infa").
Proof.
  intros [q| |[|]|] c Hc; cbn [fmt1f] in Hc;
    try (vm_compute in Hc; vm_compute; intuition fail).
  destruct (fmt1_chars q c Hc) as [->|[->|[k [Hk ->]]]]; [vm_compute; tauto|vm_compute; tauto|].
  digit_cases k Hk; vm_compute; tauto.
Qed.

Lemma fmt1f_forallb : forall p : N -> bool,
  forallb p (str "-.0123456789infa") = true -> forall v, forallb p (fmt1f v) = true.
Proof.
  intros p Hp v. apply forallb_forall. intros c Hc.
  exact (proj1 (forallb_forall _ _) Hp c (fmt1f_chars v c Hc)).
Qed.

Lemma fmt1f_nonempty : forall v, fmt1f v <> [].
Proof. intros [q| |[|]|]; try discriminate. apply fmt1_nonempty. Qed.

Lemma fmt1f_last : forall v, In (last (fmt1f v) 0%N) (str "-.0123456789infa").
Proof. intro v. apply (fmt1f_chars v). apply last_in. apply fmt1f_nonempty. Qed.

Lemma fmt1f_tok_ok : forall v, tok_ok (fmt1f v) = true.
Proof. intro v. apply fmt1f_forallb. reflexivity. Qed.

Lemma contains_forallb : forall c t,
  contains c t = false <-> forallb (fun x => negb (x =? c)%N) t = true.
Proof.
  intros c t. unfold contains. induction t as [|x t IH]; [simpl; tauto|].
  cbn [existsb forallb]. rewrite N.eqb_sym.
  destruct (x =? c)%N; simpl; [split; discriminate|exact IH].
Qed.

Lemma fmt1f_no_char : forall v c,
  forallb (fun x => negb (x =? c)%N) (str "-.0123456789infa") = true ->
  contains c (fmt1f v) = false.
Proof. intros v c H. apply contains_forallb. exact (fmt1f_forallb _ H v). Qed.

Lemma map_option_ascii : forall t,
  forallb (fun c => (c <? 127)%N) t = true -> map_option float_char t = Some t.
Proof.
  induction t as [|c t IH]; intro H; [reflexivity|].
  cbn [forallb] in H. apply andb_prop in H as [H1 H2].
  cbn [map_option]. unfold float_char at 1. rewrite H1, (IH H2). reflexivity.
Qed.

Lemma drop_underscores_none : forall t prev, (prev =? 95)%N = false ->
  forallb (fun c => negb (c =? 95)%N) t = true -> drop_underscores prev t = Some t.
Proof.
  induction t as [|c t IH]; intros prev Hp H; cbn [drop_underscores forallb] in *.
  - rewrite Hp. reflexivity.
  - apply andb_prop in H as [H1 H2]. apply negb_true_iff in H1. rewrite H1, Hp.
    cbn [andb]. rewrite (IH c H1 H2). reflexivity.
Qed.

Lemma lstrip_ascii_nonspace : forall t,
  forallb (fun c => negb (ascii_space c)) t = true -> lstrip_ascii t = t.
Proof.
  intros [|c t] H; [reflexivity|]. cbn [forallb] in H.
  apply andb_prop in H as [H _]. apply negb_true_iff in H. simpl. rewrite H. reflexivity.
Qed.

Lemma strip_ascii_nonspace : forall t,
  forallb (fun c => negb (ascii_space c)) t = true -> strip_ascii t = t.
Proof.
  intros t H. unfold strip_ascii. rewrite (lstrip_ascii_nonspace t H).
  rewrite lstrip_ascii_nonspace; [apply rev_involutive|]. now apply forallb_rev_text.
Qed.

Lemma decimal_parts_fmt1 : forall sgn ds r neg,
  Forall (fun d => (d < 10)%N) ds -> (r < 10)%N ->
  sign_of (sgn ++ map digit_char ds ++ [46%N; digit_char r])
    = (neg, map digit_char ds ++ [46%N; digit_char r]) ->
  decimal_parts (sgn ++ map digit_char ds ++ [46%N; digit_char r])
    = Some (neg, ds ++ [r], (-1)%Z).
Proof.
  intros sgn ds r neg Hall Hr Hs. unfold decimal_parts. rewrite Hs.
  rewrite span_digits_chars by (auto; reflexivity).
  cbn -[span_digits digit_char].
  replace (span_digits [digit_char r]) with ([r], @nil N)
    by (simpl; now rewrite digit_value_char).
  replace (is_nil (ds ++ [r])) with false by (destruct ds; reflexivity).
  reflexivity.
Qed.

Lemma decimal_float_tenths : forall neg ds r,
  decimal_float neg (ds ++ [r]) (-1) = to_double neg (Qmake (digits_value (ds ++ [r])) 10).
Proof.
  intros neg ds r. unfold decimal_float.
  destruct (digits_value (ds ++ [r]) =? 0)%Z eqn:E.
  - apply Z.eqb_eq in E. rewrite E. reflexivity.
  - replace (400 <? -1)%Z with false by reflexivity.
    replace (-1 + Z.of_nat (List.length (ds ++ [r])) <? -400)%Z with false.
    2:{ symmetry. apply Z.ltb_ge. rewrite length_app, Nat2Z.inj_add. cbn [List.length]. lia. }
    reflexivity.
Qed.

(** [float(f"{v:.1f}")] is [round(v, 1)]. *)
Lemma py_float_fmt1f : forall v, py_float (fmt1f v) = Some (round1f v).
Proof.
  intros [q| |[|]|]; try reflexivity.
  pose proof (fmt1f_forallb (fun c => (c <? 127)%N) eq_refl (PFin q)) as H127.
  pose proof (fmt1f_forallb (fun c => negb (c =? 95)%N) eq_refl (PFin q)) as H95.
  pose proof (fmt1f_forallb (fun c => negb (ascii_space c)) eq_refl (PFin q)) as Hsp.
  cbn [fmt1f] in *.
  destruct (fmt1_shape q) as [sgn [ds [r [E [Hs [Hall [Hr [Hval Hsgn]]]]]]]].
  unfold py_float. rewrite (map_option_ascii _ H127), (drop_underscores_none _ 0 eq_refl H95).
  rewrite (strip_ascii_nonspace _ Hsp).
  replace (is_nil (fmt1 q)) with false
    by (destruct (fmt1 q) eqn:E0; [exfalso; exact (fmt1_nonempty q E0)|reflexivity]).
  rewrite E. rewrite (decimal_parts_fmt1 sgn ds r (negb (Qle_bool 0 q)) Hall Hr).
  2:{ destruct Hs as [->| ->].
      - rewrite (proj1 Hsgn eq_refl). cbn [negb app].
        destruct ds as [|d ds']; [reflexivity|].
        inversion Hall as [|? ? Hd _]; subst. simpl.
        replace (digit_char d =? 45)%N with false by (symmetry; apply N.eqb_neq; unfold digit_char; lia).
        replace (digit_char d =? 43)%N with false by (symmetry; apply N.eqb_neq; unfold digit_char; lia).
        reflexivity.
      - destruct (Qle_bool 0 q) eqn:Eq; [pose proof (proj2 Hsgn eq_refl); discriminate|].
        reflexivity. }
  rewrite decimal_float_tenths, Hval, Z2N.id by apply round_tenths_abs_nonneg.
  reflexivity.
Qed.
(** ** The lines of the report, read back one by one *)

Lemma parse_lines_app : forall l1 l2 st,
  parse_lines st (l1 ++ l2) = (st' <- parse_lines st l1 ;; parse_lines st' l2).
Proof.
  induction l1 as [|t l1 IH]; intros l2 st; simpl; [reflexivity|].
  destruct (parse_line st t); simpl; [apply IH|reflexivity].
Qed.

(** A line that is none of the shapes [parse_line] reacts to. *)
Lemma parse_line_inert : forall st t,
  is_heading_shaped (strip t) = false -> cat_pattern_match (strip t) = None ->
  text_eqb (strip t) OVERALL_HEADER = false -> date_pattern_match (strip t) = false ->
  is_nil (strip t) = false -> parse_line st t = Ok st.
Proof.
  intros st t H1 H2 H3 H4 H5. unfold parse_line. cbv zeta.
  rewrite H1, H2, H3, H4, andb_false_r.
  destruct (starts_with OVERALL_RATING (strip t)); [reflexivity|]. now rewrite H5.
Qed.

Lemma not_heading_last : forall s,
  s <> [] -> last s 0%N <> 116%N -> is_heading_shaped s = false.
Proof.
  intros s Hne Hl. unfold is_heading_shaped, ends_with.
  destruct (exists_last Hne) as [init [c ->]]. rewrite last_last in Hl.
  rewrite rev_app_distr. change (rev STATS_REPORT) with
    [116; 114; 111; 112; 101; 82; 32; 115; 116; 97; 116; 83]%N.
  cbn [rev app starts_with].
  replace (116 =? c)%N with false by (symmetry; apply N.eqb_neq; congruence).
  reflexivity.
Qed.

Lemma lstrip_app : forall x y,
  lstrip (x ++ y) = match lstrip x with [] => lstrip y | l => l ++ y end.
Proof.
  induction x as [|a x IH]; intro y; simpl; [reflexivity|].
  destruct (is_space a); [apply IH|reflexivity].
Qed.

Lemma rstrip_last_nonspace : forall x y,
  y <> [] -> is_space (last y 0%N) = false -> rstrip (x ++ y) = x ++ y.
Proof.
  intros x y Hne Hl. destruct (exists_last Hne) as [y' [a ->]].
  rewrite last_last in Hl. rewrite app_assoc. unfold rstrip.
  rewrite rev_app_distr. simpl. rewrite Hl. simpl. now rewrite rev_involutive.
Qed.

Lemma count_char_lstrip : forall c s, (count_char c (lstrip s) <= count_char c s)%nat.
Proof.
  intros c s. induction s as [|x s IH]; [simpl; lia|]. simpl.
  destruct (is_space x); [|lia].
  unfold count_char in *. simpl. destruct (c =? x)%N; simpl; lia.
Qed.

Lemma starts_with_app_self : forall p q, starts_with p (p ++ q) = true.
Proof. induction p as [|a p IH]; intro q; simpl; [reflexivity|]. now rewrite N.eqb_refl, IH. Qed.

Lemma ends_with_app_self : forall p x, ends_with p (x ++ p) = true.
Proof. intros p x. unfold ends_with. rewrite rev_app_distr. apply starts_with_app_self. Qed.

(** The heading sets the two names and nothing else, when neither name
    holds an en dash. *)
Lemma parse_line_heading : forall st n ty,
  count_char ENDASH n = O -> count_char ENDASH ty = O ->
  exists p t, parse_line st (heading_line n ty)
              = Ok {| meta := set_names p t (meta st);
                      overall_header_seen := overall_header_seen st |}.
Proof.
  intros st n ty Hn Hty.
  set (P := match lstrip n with [] => [] | l => l ++ [32%N] end).
  assert (Hl : lstrip (heading_line n ty)
               = P ++ ENDASH :: 32%N :: ty ++ str " Stats Report").
  { unfold heading_line, P. rewrite lstrip_app.
    destruct (lstrip n); [reflexivity|]. simpl. now rewrite <- app_assoc. }
  assert (Hs : strip (heading_line n ty) = P ++ ENDASH :: 32%N :: ty ++ str " Stats Report").
  { unfold strip. rewrite Hl.
    replace (P ++ ENDASH :: 32%N :: ty ++ str " Stats Report")
      with ((P ++ ENDASH :: 32%N :: ty) ++ str " Stats Report")
      by (rewrite <- app_assoc; reflexivity).
    apply rstrip_last_nonspace; [discriminate|reflexivity]. }
  assert (HP : count_char ENDASH P = O).
  { unfold P. pose proof (count_char_lstrip ENDASH n).
    destruct (lstrip n) as [|a l]; [reflexivity|].
    rewrite count_char_app. simpl in *. unfold count_char in *. simpl in *. lia. }
  assert (Hshape : is_heading_shaped (strip (heading_line n ty)) = true).
  { rewrite Hs. unfold is_heading_shaped. apply andb_true_intro. split.
    - replace (P ++ ENDASH :: 32%N :: ty ++ str " Stats Report")
        with ((P ++ ENDASH :: 32%N :: ty ++ [32%N]) ++ STATS_REPORT)
        by (rewrite <- !app_assoc; simpl; now rewrite <- app_assoc).
      apply ends_with_app_self.
    - unfold contains. rewrite existsb_app. simpl. apply orb_true_r. }
  assert (Hcount : count_char ENDASH (strip (heading_line n ty)) = 1%nat).
  { rewrite Hs, count_char_app, HP.
    change (ENDASH :: 32%N :: ty ++ str " Stats Report")
      with ([ENDASH; 32%N] ++ ty ++ str " Stats Report").
    rewrite !count_char_app, Hty. reflexivity. }
  assert (Hlen : List.length (split_char ENDASH
                   (replace STATS_REPORT [] (strip (heading_line n ty)))) = 2%nat).
  { rewrite split_char_length. unfold replace. rewrite count_char_replace.
    - now rewrite Hcount.
    - vm_compute. reflexivity. }
  unfold parse_line. cbv zeta. rewrite Hshape.
  destruct (split_char ENDASH _) as [|p [|t [|]]]; try discriminate.
  eauto.
Qed.

Lemma strip_app_framed : forall x y,
  x <> [] -> is_space (hd 0%N x) = false -> y <> [] -> is_space (last y 0%N) = false ->
  strip (x ++ y) = x ++ y.
Proof.
  intros x y Hx Hhd Hy Hl. apply strip_framed.
  - intro E. apply app_eq_nil in E as [E _]. contradiction.
  - destruct x; [contradiction|exact Hhd].
  - rewrite last_app_nonempty by exact Hy. exact Hl.
Qed.

Lemma cat_pattern_nonbullet : forall c rest,
  (c =? BULLET)%N = false -> cat_pattern_match (c :: rest) = None.
Proof. intros c rest H. unfold cat_pattern_match. now rewrite H. Qed.

Lemma text_eqb_head : forall c c' s t,
  (c =? c')%N = false -> text_eqb (c :: s) (c' :: t) = false.
Proof. intros c c' s t H. simpl. now rewrite H. Qed.

Lemma date_pattern_not_digit : forall c rest, is_digit c = false -> date_pattern_match (c :: rest) = false.
Proof.
  intros c rest H. unfold date_pattern_match.
  destruct rest as [|a1 [|a2 [|a3 [|a4 [|a5 [|a6 [|a7 [|a8 [|a9 [|a10 r]]]]]]]]]];
    try reflexivity. now rewrite H.
Qed.

(** A property of every decimal digit, of any script, from its check on
    the ten digits of each script. *)
Lemma digit_prop : forall p : N -> bool,
  forallb (fun z => forallb (fun k => p (z + k)%N) [0; 1; 2; 3; 4; 5; 6; 7; 8; 9]%N) nd_zeros = true ->
  forall c, is_digit c = true -> p c = true.
Proof.
  intros p Hp c Hc. unfold is_digit, digit_value in Hc.
  destruct (find _ nd_zeros) as [z|] eqn:Ef; [|discriminate].
  apply find_some in Ef as [Hin Hz]. apply andb_prop in Hz as [H1 H2].
  apply N.leb_le in H1. apply N.ltb_lt in H2.
  pose proof (proj1 (forallb_forall _ _) Hp z Hin) as Hk.
  replace c with (z + (c - z))%N by lia.
  apply (proj1 (forallb_forall _ _) Hk).
  assert (H10 : (c - z < 10)%N) by lia.
  set (k := (c - z)%N) in *. clearbody k.
  digit_cases k H10; simpl; tauto.
Qed.

Lemma digit_nonspace : forall c, is_digit c = true -> is_space c = false.
Proof.
  intros c H. apply negb_true_iff.
  exact (digit_prop (fun c => negb (is_space c)) ltac:(vm_compute; reflexivity) c H).
Qed.

Lemma digit_not_colon : forall c, is_digit c = true -> (c =? COLON)%N = false.
Proof.
  intros c H. apply negb_true_iff.
  exact (digit_prop (fun c => negb (c =? COLON)%N) ltac:(vm_compute; reflexivity) c H).
Qed.

Lemma digit_not_cr : forall c, is_digit c = true -> (c =? 13)%N = false.
Proof.
  intros c H. apply negb_true_iff.
  exact (digit_prop (fun c => negb (c =? 13)%N) ltac:(vm_compute; reflexivity) c H).
Qed.

Lemma digit_not_bullet : forall c, is_digit c = true -> (c =? BULLET)%N = false.
Proof.
  intros c H. apply negb_true_iff.
  exact (digit_prop (fun c => negb (c =? BULLET)%N) ltac:(vm_compute; reflexivity) c H).
Qed.

Lemma digit_not_O : forall c, is_digit c = true -> (c =? 79)%N = false.
Proof.
  intros c H. apply negb_true_iff.
  exact (digit_prop (fun c => negb (c =? 79)%N) ltac:(vm_compute; reflexivity) c H).
Qed.

(** The date shape: [is_date d] gives ten characters, digits and dashes. *)
Lemma is_date_shape : forall d, is_date d = true ->
  exists y1 y2 y3 y4 m1 m2 d1 d2, d = [y1; y2; y3; y4; DASH; m1; m2; DASH; d1; d2]
    /\ Forall (fun c => is_digit c = true) [y1; y2; y3; y4; m1; m2; d1; d2].
Proof.
  intros d H.
  destruct d as [|y1 [|y2 [|y3 [|y4 [|s1 [|m1 [|m2 [|s2 [|d1 [|d2 [|x r]]]]]]]]]]];
    try discriminate.
  cbn -[is_digit N.eqb] in H.
  repeat match goal with Ha : _ && _ = true |- _ => apply andb_prop in Ha as [? ?] end.
  repeat match goal with Hs : (_ =? _)%N = true |- _ => apply N.eqb_eq in Hs; subst end.
  exists y1, y2, y3, y4, m1, m2, d1, d2. split; [reflexivity|].
  repeat constructor; assumption.
Qed.

Lemma date_pattern_date : forall d rest,
  is_date d = true -> date_pattern_match (d ++ COLON :: rest) = true.
Proof.
  intros d rest H. destruct (is_date_shape d H) as [y1 [y2 [y3 [y4 [m1 [m2 [d1 [d2 [-> Hall]]]]]]]]].
  repeat match goal with
         | Hf : Forall _ (_ :: _) |- _ => inversion Hf; subst; clear Hf
         end.
  unfold date_pattern_match. cbn [app].
  repeat match goal with
         | Hd : is_digit ?c = true |- _ => rewrite Hd; clear Hd
         end.
  reflexivity.
Qed.

Lemma date_chars : forall d c, is_date d = true -> In c d ->
  c = DASH \/ is_digit c = true.
Proof.
  intros d c H Hc. destruct (is_date_shape d H) as [y1 [y2 [y3 [y4 [m1 [m2 [d1 [d2 [-> Hall]]]]]]]]].
  rewrite Forall_forall in Hall.
  destruct Hc as [<-|[<-|[<-|[<-|[<-|[<-|[<-|[<-|[<-|[<-|[]]]]]]]]]]];
    first [now left | right; apply Hall; simpl; tauto].
Qed.

Lemma date_strip : forall d, is_date d = true -> strip d = d.
Proof.
  intros d H. apply strip_spacefree, forallb_forall. intros c Hc.
  destruct (date_chars d c H Hc) as [->|Hd]; [reflexivity|].
  now rewrite digit_nonspace.
Qed.

Lemma date_no_char : forall d x, is_date d = true -> (x =? DASH)%N = false ->
  (forall c, is_digit c = true -> (c =? x)%N = false) -> contains x d = false.
Proof.
  intros d x H Hx Hd. apply contains_forallb, forallb_forall. intros c Hc.
  apply negb_true_iff. destruct (date_chars d c H Hc) as [->|E].
  - rewrite N.eqb_sym. exact Hx.
  - exact (Hd c E).
Qed.

Lemma date_no_colon : forall d, is_date d = true -> contains COLON d = false.
Proof. intros d H. apply (date_no_char d COLON H eq_refl digit_not_colon). Qed.

Lemma date_no_cr : forall d, is_date d = true -> contains 13 d = false.
Proof. intros d H. apply (date_no_char d 13 H eq_refl digit_not_cr). Qed.

Lemma date_hd : forall d, is_date d = true ->
  d <> [] /\ exists c, hd 0%N d = c /\ is_digit c = true.
Proof.
  intros d H. destruct (is_date_shape d H) as [y1 [y2 [y3 [y4 [m1 [m2 [d1 [d2 [-> Hall]]]]]]]]].
  split; [discriminate|]. exists y1. split; [reflexivity|]. now inversion Hall.
Qed.

Lemma fmt1f_last_prop : forall p : N -> bool,
  forallb p (str "-.0123456789infa") = true -> forall v, p (last (fmt1f v) 0%N) = true.
Proof.
  intros p Hp v. exact (proj1 (forallb_forall _ _) Hp _ (fmt1f_last v)).
Qed.

(** A date line inside the date block adds its date and the value
    [round(v, 1)]. *)
Lemma parse_line_date : forall m d v,
  is_date d = true ->
  parse_line {| meta := m; overall_header_seen := true |} (date_line (d, v))
  = Ok {| meta := add_overall d (round1f v) m; overall_header_seen := true |}.
Proof.
  intros m d v Hd.
  destruct (date_hd d Hd) as [Hdne [c [Hc Hcd]]].
  assert (Hf : strip (fmt1f v) = fmt1f v)
    by exact (strip_spacefree _ (tok_ok_spacefree _ (fmt1f_tok_ok v))).
  unfold date_line. cbn [fst snd].
  assert (Hs : strip (d ++ str ": " ++ fmt1f v) = d ++ str ": " ++ fmt1f v).
  { apply strip_app_framed; [exact Hdne| |discriminate|].
    - rewrite Hc. exact (digit_nonspace c Hcd).
    - change (str ": " ++ fmt1f v) with ([COLON; 32%N] ++ fmt1f v).
      rewrite last_app_nonempty by apply fmt1f_nonempty.
      apply negb_true_iff. exact (fmt1f_last_prop (fun c => negb (is_space c)) eq_refl v). }
  destruct d as [|c0 d']; [contradiction|]. simpl in Hc. subst c0.
  unfold parse_line. cbv zeta. rewrite Hs.
  rewrite not_heading_last.
  2:{ intro E. apply app_eq_nil in E as [E _]. discriminate. }
  2:{ rewrite app_assoc, last_app_nonempty by apply fmt1f_nonempty. intro E.
      pose proof (fmt1f_last_prop (fun c => negb (c =? 116)%N) eq_refl v) as H116.
      rewrite E in H116. discriminate. }
  change ((c :: d') ++ str ": " ++ fmt1f v) with (c :: (d' ++ str ": " ++ fmt1f v)).
  rewrite cat_pattern_nonbullet by exact (digit_not_bullet c Hcd).
  assert (Ht : text_eqb (c :: d' ++ str ": " ++ fmt1f v) OVERALL_HEADER = false)
    by (apply text_eqb_head; exact (digit_not_O c Hcd)).
  rewrite Ht.
  change (c :: d' ++ str ": " ++ fmt1f v) with ((c :: d') ++ COLON :: 32%N :: fmt1f v).
  rewrite (date_pattern_date (c :: d') _ Hd). simpl andb.
  rewrite split_char_app by exact (date_no_colon _ Hd).
  rewrite split_char_other by reflexivity.
  rewrite split_char_nosep by (apply fmt1f_no_char; reflexivity).
  rewrite strip_space_cons, Hf, py_float_fmt1f. simpl.
  rewrite (date_strip _ Hd). reflexivity.
Qed.

Lemma parse_lines_cons_ok : forall st st' t ts,
  parse_line st t = Ok st' -> parse_lines st (t :: ts) = parse_lines st' ts.
Proof. intros st st' t ts H. simpl. now rewrite H. Qed.

Lemma is_hms_last : forall t, is_hms t = true ->
  t <> [] /\ is_ascii_digit (last t 0%N) = true.
Proof.
  intros t H.
  destruct t as [|h1 [|h2 [|c1 [|m1 [|m2 [|c2 [|s1 [|s2 [|x r]]]]]]]]]; try discriminate.
  cbn -[is_ascii_digit N.eqb] in H.
  repeat match goal with Ha : _ && _ = true |- _ => apply andb_prop in Ha as [? ?] end.
  split; [discriminate|assumption].
Qed.

Lemma last_map_text : forall (f : N -> N) (t : text) d,
  t <> [] -> last (map f t) (f d) = f (last t d).
Proof.
  intros f t d Hne. destruct (exists_last Hne) as [init [x ->]].
  rewrite map_app. cbn [map]. rewrite !last_last. reflexivity.
Qed.

(** The timestamp paragraph, as python-docx writes it, changes nothing. *)
Lemma parse_line_timestamp : forall st today now_time,
  is_hms now_time = true ->
  parse_line st (map crlf (str "Report Generated: " ++ today ++ str " " ++ now_time)) = Ok st.
Proof.
  intros st today now_time H. destruct (is_hms_last now_time H) as [Hne Hd].
  pose proof (ascii_digit_range _ Hd) as Hr.
  assert (Hl : last (map crlf now_time) 0%N = last now_time 0%N).
  { change 0%N with (crlf 0). rewrite last_map_text by exact Hne.
    unfold crlf. replace (last now_time 0 =? 13)%N with false by (symmetry; apply N.eqb_neq; lia).
    reflexivity. }
  assert (Hne' : map crlf now_time <> []) by (intro E; apply map_eq_nil in E; contradiction).
  set (x := map crlf (str "Report Generated: " ++ today ++ str " ")).
  replace (map crlf (str "Report Generated: " ++ today ++ str " " ++ now_time))
    with (x ++ map crlf now_time) by (unfold x; rewrite <- map_app; now rewrite <- !app_assoc).
  assert (Hs : strip (x ++ map crlf now_time) = x ++ map crlf now_time).
  { apply strip_app_framed; [discriminate|reflexivity|exact Hne'|].
    rewrite Hl. exact (ascii_digit_nonspace _ Hd). }
  apply parse_line_inert; rewrite Hs.
  - apply not_heading_last; [intro E; apply app_eq_nil in E as [E _]; discriminate|].
    rewrite last_app_nonempty by exact Hne'. rewrite Hl. lia.
  - apply cat_pattern_nonbullet. reflexivity.
  - apply text_eqb_head. reflexivity.
  - apply date_pattern_not_digit. reflexivity.
  - reflexivity.
Qed.

(** The line of the current rating changes nothing. *)
Lemma parse_line_rating : forall st s,
  parse_line st (str "Overall Rating: " ++ fmt1f s ++ str " / 120") = Ok st.
Proof.
  intros st s.
  replace (str "Overall Rating: " ++ fmt1f s ++ str " / 120")
    with ((str "Overall Rating: " ++ fmt1f s) ++ str " / 120") by (now rewrite <- app_assoc).
  assert (Hs : strip ((str "Overall Rating: " ++ fmt1f s) ++ str " / 120")
               = (str "Overall Rating: " ++ fmt1f s) ++ str " / 120").
  { apply strip_app_framed; [discriminate|reflexivity|discriminate|reflexivity]. }
  apply parse_line_inert; rewrite Hs.
  - apply not_heading_last; [discriminate|].
    rewrite last_app_nonempty by discriminate. discriminate.
  - apply cat_pattern_nonbullet. reflexivity.
  - reflexivity.
  - apply date_pattern_not_digit. reflexivity.
  - reflexivity.
Qed.

(** The separator of 38 dashes changes nothing. *)
Lemma parse_line_separator : forall st, parse_line st (repeat DASH 38) = Ok st.
Proof. intro st. apply parse_line_inert; vm_compute; reflexivity. Qed.

(** The header opens the date block. *)
Lemma parse_line_header : forall st,
  parse_line st OVERALL_HEADER = Ok {| meta := meta st; overall_header_seen := true |}.
Proof. intros [m seen]. reflexivity. Qed.

Lemma parse_tokens_fmt1f : forall vals,
  parse_tokens (map fmt1f vals) = Ok (map round1f vals).
Proof.
  unfold parse_tokens. induction vals as [|v vals IH]; [reflexivity|].
  cbn [map filter].
  replace (is_nil (fmt1f v)) with false
    by (destruct (fmt1f v) eqn:E; [exfalso; exact (fmt1f_nonempty v E)|reflexivity]).
  cbn [negb map_result]. rewrite py_float_fmt1f. cbn [of_option bind]. rewrite IH. reflexivity.
Qed.

(** The bullets of [create_docx_report], read one after another. *)
Lemma parse_lines_bullets : forall cats (ch : cat_history_t) m,
  NoDup cats -> forallb cat_ok cats = true ->
  (forall c, In c cats -> get_or_nil c ch <> []) ->
  (forall c, In c cats -> ~ In c (map fst (category_history m))) ->
  parse_lines {| meta := m; overall_header_seen := false |}
    (map (fun c => bullet_line c (get_or_nil c ch)) cats)
  = Ok {| meta := {| player_type := player_type m; player_name := player_name m;
                     category_history := category_history m
                       ++ map (fun c => (c, map round1f (get_or_nil c ch))) cats;
                     overall_history := overall_history m |};
          overall_header_seen := false |}.
Proof.
  induction cats as [|c cats IH]; intros ch m Hnd Hok Hvals Hfresh.
  - rewrite app_nil_r. destruct m; reflexivity.
  - inversion Hnd as [|? ? Hc Hnd']; subst. simpl in Hok. apply andb_prop in Hok as [Hc_ok Hok].
    pose proof (Hvals c (or_introl eq_refl)) as Hne.
    assert (Hlast : last (map fmt1f (get_or_nil c ch)) [] <> []).
    { assert (Hin : In (last (map fmt1f (get_or_nil c ch)) []) (map fmt1f (get_or_nil c ch))).
      { apply last_in. intro E. apply map_eq_nil in E. contradiction. }
      apply in_map_iff in Hin as [v [<- _]]. apply fmt1f_nonempty. }
    assert (Htoks : forallb tok_ok (map fmt1f (get_or_nil c ch)) = true).
    { apply forallb_forall. intros t Ht. apply in_map_iff in Ht as [v [<- _]]. apply fmt1f_tok_ok. }
    set (m1 := {| player_type := player_type m; player_name := player_name m;
                  category_history := category_history m ++ [(c, map round1f (get_or_nil c ch))];
                  overall_history := overall_history m |}).
    assert (Hstep : parse_line {| meta := m; overall_header_seen := false |}
                      (bullet_line c (get_or_nil c ch))
                    = Ok {| meta := m1; overall_header_seen := false |}).
    { change (bullet_line c (get_or_nil c ch)) with (bullet_text c (map fmt1f (get_or_nil c ch))).
      rewrite parse_line_bullet by assumption. rewrite parse_tokens_fmt1f. simpl.
      unfold set_category, m1. simpl. rewrite dict_set_new; [reflexivity|].
      apply dict_get_notin. apply Hfresh. now left. }
    simpl map. rewrite (parse_lines_cons_ok _ _ _ _ Hstep).
    rewrite (IH ch m1 Hnd' Hok).
    + unfold m1. simpl. now rewrite <- app_assoc.
    + intros c' Hc'. apply Hvals. now right.
    + intros c' Hc'. unfold m1. simpl. rewrite map_app. intro Hin.
      apply in_app_or in Hin as [Hin|[E|[]]].
      * exact (Hfresh c' (or_intror Hc') Hin).
      * simpl in E. subst c'. contradiction.
Qed.

(** The date lines, read inside the date block. *)
Lemma parse_lines_dates : forall (ov : overall_history_t) m,
  Forall (fun e => is_date (fst e) = true) ov ->
  parse_lines {| meta := m; overall_header_seen := true |} (map date_line ov)
  = Ok {| meta := {| player_type := player_type m; player_name := player_name m;
                     category_history := category_history m;
                     overall_history := overall_history m
                       ++ map (fun e => (fst e, round1f (snd e))) ov |};
          overall_header_seen := true |}.
Proof.
  induction ov as [|[d v] ov IH]; intros m Hall.
  - rewrite app_nil_r. destruct m; reflexivity.
  - inversion Hall as [|? ? Hd Hrest]; subst. simpl in Hd.
    simpl map. rewrite (parse_lines_cons_ok _ _ _ _ (parse_line_date m d v Hd)).
    rewrite (IH (add_overall d (round1f v) m) Hrest).
    unfold add_overall. simpl. now rewrite <- app_assoc.
Qed.

Lemma ok_inj : forall {A} (a b : A), Ok a = Ok b -> a = b.
Proof. intros A a b H. congruence. Qed.

Lemma docx_text_ok : forall t t', docx_text t = Ok t' -> t' = map crlf t.
Proof.
  intros t t' H. unfold docx_text in H.
  destruct (forallb xml_char t); [|discriminate]. congruence.
Qed.

Lemma map_crlf_id : forall t, contains 13 t = false -> map crlf t = t.
Proof.
  intros t H. apply contains_forallb in H. induction t as [|c t IH]; [reflexivity|].
  cbn [forallb] in H. apply andb_prop in H as [H1 H2]. apply negb_true_iff in H1.
  cbn [map]. unfold crlf at 1. rewrite H1, IH by exact H2. reflexivity.
Qed.

Lemma count_endash_crlf : forall t, count_char ENDASH (map crlf t) = count_char ENDASH t.
Proof.
  intro t. unfold count_char. induction t as [|c t IH]; [reflexivity|].
  cbn [map filter]. unfold crlf at 1.
  destruct (c =? 13)%N eqn:E.
  - apply N.eqb_eq in E. subst c. cbn. exact IH.
  - destruct (ENDASH =? c)%N; cbn [List.length]; now rewrite IH.
Qed.

Lemma heading_line_crlf : forall n ty,
  map crlf (heading_line n ty) = heading_line (map crlf n) (map crlf ty).
Proof. intros n ty. unfold heading_line. rewrite !map_app. reflexivity. Qed.

Lemma fmt1f_no_cr : forall v, contains 13 (fmt1f v) = false.
Proof. intro v. apply fmt1f_no_char. reflexivity. Qed.

Lemma bullet_line_no_cr : forall c vals,
  contains 13 c = false -> contains 13 (bullet_line c vals) = false.
Proof.
  intros c vals H. apply contains_forallb. apply contains_forallb in H.
  unfold bullet_line. rewrite !forallb_app, H. cbn.
  apply forallb_join; [reflexivity|].
  apply forallb_forall. intros t Ht. apply in_map_iff in Ht as [v [<- _]].
  apply contains_forallb, fmt1f_no_cr.
Qed.

Lemma date_line_no_cr : forall e, is_date (fst e) = true -> contains 13 (date_line e) = false.
Proof.
  intros [d v] H. apply contains_forallb. unfold date_line. cbn [fst snd] in *.
  rewrite !forallb_app.
  rewrite (proj1 (contains_forallb _ _) (date_no_cr d H)).
  rewrite (proj1 (contains_forallb _ _) (fmt1f_no_cr v)). reflexivity.
Qed.

Lemma create_dates : forall (ov : overall_history_t) dates,
  Forall (fun e => is_date (fst e) = true) ov ->
  map_result (fun e => docx_text (date_line e)) ov = Ok dates -> dates = map date_line ov.
Proof.
  induction ov as [|e ov IH]; intros dates Hall H; simpl in H.
  - now injection H as <-.
  - inversion Hall as [|? ? He Hrest]; subst.
    destruct (docx_text (date_line e)) as [t|] eqn:Et; simpl in H; [|discriminate].
    destruct (map_result _ ov) as [ts|] eqn:Es; simpl in H; [|discriminate].
    injection H as <-. apply docx_text_ok in Et. subst t.
    rewrite map_crlf_id by exact (date_line_no_cr e He). simpl. f_equal. exact (IH ts Hrest eq_refl).
Qed.

Lemma create_bullets : forall (scores : score_matrix) ch bullets,
  (forall c, In c (map fst scores) -> contains 13 c = false) ->
  map_result (fun cs => vals <- of_option KeyError (Dict.get (fst cs) ch) ;;
                        docx_text (bullet_line (fst cs) vals)) scores = Ok bullets ->
  bullets = map (fun c => bullet_line c (get_or_nil c ch)) (map fst scores).
Proof.
  induction scores as [|[c sub] scores IH]; intros ch bullets Hcr H; simpl in H.
  - now injection H as <-.
  - destruct (Dict.get c ch) as [vs|] eqn:E; simpl in H; [|discriminate].
    destruct (docx_text (bullet_line c vs)) as [t|] eqn:Et; simpl in H; [|discriminate].
    destruct (map_result _ scores) as [bs|e] eqn:Eb; simpl in H; [|discriminate].
    injection H as <-. apply docx_text_ok in Et. subst t.
    rewrite map_crlf_id by (apply bullet_line_no_cr, Hcr; now left).
    simpl. unfold get_or_nil at 1. rewrite E. f_equal.
    apply (IH ch bs); [intros c' Hc'; apply Hcr; now right|exact Eb].
Qed.

(** The paragraphs of a report [create_docx_report] returns. *)
Lemma create_docx_shape : forall name type scores prev_cat prev_overall today now_time doc,
  create_docx_report name type scores prev_cat prev_overall today now_time = Ok doc ->
  exists ch ov s bullets dates,
    merge_history scores prev_cat prev_overall today = Ok (ch, ov, s)
    /\ map_result (fun cs => vals <- of_option KeyError (Dict.get (fst cs) ch) ;;
                             docx_text (bullet_line (fst cs) vals)) scores = Ok bullets
    /\ map_result (fun e => docx_text (date_line e)) ov = Ok dates
    /\ doc = [map crlf (heading_line name type);
              map crlf (str "Report Generated: " ++ today ++ str " " ++ now_time); []; []]
             ++ bullets
             ++ [[]; map crlf (str "Overall Rating: " ++ fmt1f s ++ str " / 120");
                 repeat DASH 38; OVERALL_HEADER]
             ++ dates.
Proof.
  intros name type scores prev_cat prev_overall today now_time doc H.
  unfold create_docx_report in H.
  destruct (merge_history _ _ _ _) as [[[ch ov] s]|e] eqn:Em; cbn [bind] in H; [|discriminate].
  destruct (docx_text (heading_line name type)) as [h|] eqn:Eh; cbn [bind] in H; [|discriminate].
  destruct (docx_text (str "Report Generated: " ++ today ++ str " " ++ now_time)) as [st|] eqn:Est;
    cbn [bind] in H; [|discriminate].
  destruct (map_result _ scores) as [bullets|] eqn:Eb; cbn [bind] in H; [|discriminate].
  destruct (docx_text (str "Overall Rating: " ++ fmt1f s ++ str " / 120")) as [rt|] eqn:Ert;
    cbn [bind] in H; [|discriminate].
  destruct (map_result _ ov) as [dates|] eqn:Ed; cbn [bind] in H; [|discriminate].
  apply ok_inj in H. subst doc.
  apply docx_text_ok in Eh, Est, Ert. subst h st rt.
  exists ch, ov, s, bullets, dates. auto.
Qed.

Lemma merge_history_parts : forall scores prev_cat prev_overall today ch ov s,
  merge_history scores prev_cat prev_overall today = Ok (ch, ov, s) ->
  merge_categories scores prev_cat = Ok ch
  /\ ov = prev_overall ++ [(today, s)] /\ exists m, s = round1f (PFin m).
Proof.
  intros scores prev_cat prev_overall today ch ov s H. unfold merge_history in H.
  destruct (merge_categories scores prev_cat) as [h'|] eqn:Em; cbn [bind] in H; [|discriminate].
  destruct (map_result _ scores) as [avgs|]; cbn [bind] in H; [|discriminate].
  destruct (mean avgs) as [m|]; cbn [bind] in H; [|discriminate].
  injection H as <- <- <-. split; [reflexivity|]. split; [reflexivity|]. now exists m.
Qed.

Lemma dict_get_in_some : forall {V} k (d : list (text * V)),
  In k (map fst d) -> exists v, Dict.get k d = Some v.
Proof.
  intros V k d. induction d as [|[k' v'] d IH]; simpl; [intros []|].
  intros [E|H].
  - subst k'. rewrite text_eqb_refl. eauto.
  - destruct (text_eqb k k'); eauto.
Qed.

Lemma merged_values : forall scores prev_cat ch,
  NoDup (map fst scores) ->
  merge_categories scores prev_cat = Ok ch ->
  forall c, In c (map fst scores) -> get_or_nil c ch <> [].
Proof.
  intros scores prev_cat ch Hnd Hm c Hc.
  pose proof (merge_categories_spec scores prev_cat ch Hnd Hm c) as Hspec.
  destruct (dict_get_in_some c scores Hc) as [sub Hsub]. rewrite Hsub in Hspec.
  destruct Hspec as [avg [_ Hget]].
  unfold get_or_nil. rewrite Hget. intro E0. apply app_eq_nil in E0 as [_ E0]. discriminate.
Qed.

Lemma cat_ok_no_cr : forall c, cat_ok c = true -> contains 13 c = false.
Proof.
  intros c H. unfold cat_ok in H. apply andb_prop in H as [H _]. apply andb_prop in H as [_ H].
  now apply negb_true_iff.
Qed.

(** C1 (amended).  Reading back a report gives the overall history of the
    record and the category history restricted to the categories of the
    current score matrix, in its order; every value [v] comes back as
    [float(f"{v:.1f}")], which is [round(v, 1)].  This holds when the names
    hold no en dash, the category names hold no ':', no carriage return and
    no surrounding whitespace, the dates of the previous overall history are
    [YYYY-MM-DD] dates, and the date and time are those [strftime] writes.
    A category of the previous history that is absent from the matrix has
    no bullet and is not read back. *)
Theorem report_roundtrip_current_categories
    (name type : text) (scores : score_matrix) (prev_cat : cat_history_t)
    (prev_overall : overall_history_t) (today now_time : text)
    (ch : cat_history_t) (ov : overall_history_t) (s : pyfloat) (doc : list text)
    (Hname : count_char ENDASH name = O) (Htype : count_char ENDASH type = O)
    (Hnd : NoDup (map fst scores)) (Hcats : forallb cat_ok (map fst scores) = true)
    (Hprev_ov : Forall (fun e => is_date (fst e) = true) prev_overall)
    (Htoday : is_date today = true) (Htime : is_hms now_time = true)
    (Hmerge : merge_history scores prev_cat prev_overall today = Ok (ch, ov, s))
    (Hdoc : create_docx_report name type scores prev_cat prev_overall today now_time = Ok doc) :
  exists m, parse_docx_report doc = Ok m
    /\ category_history m
       = map (fun c => (c, map round1f (get_or_nil c ch))) (map fst scores)
    /\ overall_history m = map (fun e => (fst e, round1f (snd e))) ov.
Proof.
  destruct (create_docx_shape _ _ _ _ _ _ _ _ Hdoc)
    as [ch' [ov' [s' [bullets [dates [Hm' [Hb [Hd ->]]]]]]]].
  rewrite Hmerge in Hm'. injection Hm' as <- <- <-.
  destruct (merge_history_parts _ _ _ _ _ _ _ Hmerge) as [Hch [Hov _]].
  assert (Hcr : forall c, In c (map fst scores) -> contains 13 c = false).
  { intros c Hc. apply cat_ok_no_cr. exact (proj1 (forallb_forall _ _) Hcats c Hc). }
  rewrite (create_bullets _ _ _ Hcr Hb).
  assert (Hov_all : Forall (fun e => is_date (fst e) = true) ov).
  { rewrite Hov. apply Forall_app. split; [exact Hprev_ov|]. constructor; [exact Htoday|constructor]. }
  rewrite (create_dates _ _ Hov_all Hd).
  rewrite (map_crlf_id (str "Overall Rating: " ++ fmt1f s ++ str " / 120")).
  2:{ apply contains_forallb. rewrite !forallb_app.
      rewrite (proj1 (contains_forallb _ _) (fmt1f_no_cr s)). reflexivity. }
  destruct (parse_line_heading parse_init (map crlf name) (map crlf type))
    as [p [t Hh]]; [now rewrite count_endash_crlf|now rewrite count_endash_crlf|].
  set (m0 := set_names p t (meta parse_init)).
  assert (H1 : parse_lines parse_init
                 [map crlf (heading_line name type);
                  map crlf (str "Report Generated: " ++ today ++ str " " ++ now_time); []; []]
               = Ok {| meta := m0; overall_header_seen := false |}).
  { rewrite heading_line_crlf, (parse_lines_cons_ok _ _ _ _ Hh).
    rewrite (parse_lines_cons_ok _ _ _ _ (parse_line_timestamp _ _ _ Htime)).
    rewrite (parse_lines_cons_ok _ _ _ _ (parse_line_blank _ [] eq_refl)).
    rewrite (parse_lines_cons_ok _ _ _ _ (parse_line_blank _ [] eq_refl)).
    reflexivity. }
  pose proof (parse_lines_bullets (map fst scores) ch m0 Hnd Hcats
                (merged_values _ _ _ Hnd Hch) ltac:(intros c _ [])) as H2.
  set (m1 := {| player_type := player_type m0; player_name := player_name m0;
                category_history := category_history m0
                  ++ map (fun c => (c, map round1f (get_or_nil c ch))) (map fst scores);
                overall_history := overall_history m0 |}).
  assert (H3 : parse_lines {| meta := m1; overall_header_seen := false |}
                 [[]; str "Overall Rating: " ++ fmt1f s ++ str " / 120";
                  repeat DASH 38; OVERALL_HEADER]
               = Ok {| meta := m1; overall_header_seen := true |}).
  { rewrite (parse_lines_cons_ok _ _ _ _ (parse_line_blank _ [] eq_refl)).
    rewrite (parse_lines_cons_ok _ _ _ _ (parse_line_rating _ s)).
    rewrite (parse_lines_cons_ok _ _ _ _ (parse_line_separator _)).
    rewrite (parse_lines_cons_ok _ _ _ _ (parse_line_header _)).
    reflexivity. }
  pose proof (parse_lines_dates ov m1 Hov_all) as H4.
  eexists. split.
  - unfold parse_docx_report.
    rewrite parse_lines_app, H1. cbv beta iota delta [bind].
    rewrite parse_lines_app, H2. cbv beta iota delta [bind]. fold m1.
    rewrite parse_lines_app, H3. cbv beta iota delta [bind].
    rewrite H4. reflexivity.
  - split; reflexivity.
Qed.

(** C1.  The round trip loses the categories of the previous history that
    the score matrix lacks: the merged history of the sample holds
    "Leadership", the report has no bullet for it, and the history read
    back from the report has no "Leadership". *)
Lemma roundtrip_loses_absent_category :
  merge_history sample_scores sample_prev_cat sample_prev_overall sample_today
    = Ok sample_merged
  /\ create_docx_report (str "Ada") (str "Guard") sample_scores sample_prev_cat
       sample_prev_overall sample_today sample_now = Ok sample_report
  /\ Dict.get (str "Leadership") (fst (fst sample_merged)) = Some [PFin (50 # 1)]
  /\ parse_docx_report sample_report = Ok sample_report_parsed
  /\ Dict.get (str "Leadership") (category_history sample_report_parsed) = None.
Proof. repeat split; vm_compute; reflexivity. Qed.

Lemma report_roundtrip_current_categories_witness :
  exists m, parse_docx_report sample_report = Ok m
    /\ category_history m
       = map (fun c => (c, map round1f (get_or_nil c (fst (fst sample_merged))))) (map fst sample_scores)
    /\ overall_history m = map (fun e => (fst e, round1f (snd e))) (snd (fst sample_merged)).
Proof.
  apply (report_roundtrip_current_categories (str "Ada") (str "Guard") sample_scores
           sample_prev_cat sample_prev_overall sample_today sample_now
           (fst (fst sample_merged)) (snd (fst sample_merged)) (snd sample_merged)
           sample_report).
  - reflexivity.
  - reflexivity.
  - nodup_texts.
  - vm_compute. reflexivity.
  - constructor; [vm_compute; reflexivity|constructor].
  - vm_compute. reflexivity.
  - vm_compute. reflexivity.
  - vm_compute. reflexivity.
  - vm_compute. reflexivity.
Defined.
(** ** The chart, the page and the session of [main] *)

Lemma category_average_err : forall sub e,
  category_average sub = Err e -> sub = [] /\ e = StatisticsError.
Proof.
  intros [|kv sub] e H; unfold category_average, mean in H; simpl in H.
  - injection H as <-. auto.
  - discriminate.
Qed.

Lemma category_average_nil : category_average [] = Err StatisticsError.
Proof. reflexivity. Qed.

Lemma avg_traces_spec : forall (scores : score_matrix) n,
  (forall e, map_result avg_trace (enumerate_from n scores) = Err e -> e = StatisticsError)
  /\ ((exists bs, map_result avg_trace (enumerate_from n scores) = Ok bs)
      <-> Forall (fun cs => snd cs <> []) scores).
Proof.
  induction scores as [|[cat sub] scores IH]; intro n; simpl.
  - split; [intros e H; discriminate|]. split; [constructor|eauto].
  - destruct (IH (S n)) as [IHe IHo].
    destruct (category_average sub) as [avg|e] eqn:Ea; simpl.
    + assert (Hne : sub <> []) by (intros ->; discriminate).
      destruct (map_result avg_trace (enumerate_from (S n) scores)) as [bs|e] eqn:Er; simpl.
      * split; [intros e H; discriminate|]. split; [intros _|eauto].
        constructor; [exact Hne|]. apply IHo. eauto.
      * split; [intros e' H; injection H as <-; eauto|].
        split; [intros [bs H]; discriminate|].
        intro Hall. inversion Hall; subst. apply IHo in H2 as [bs H2]. discriminate.
    + apply category_average_err in Ea as [-> ->].
      split; [intros e H; injection H as <-; reflexivity|].
      split; [intros [bs H]; discriminate|].
      intro Hall. inversion Hall; subst. simpl in H1. contradiction.
Qed.

Lemma build_barograph_eq : forall scores show_sub show_avg,
  build_barograph scores show_sub show_avg =
  avg_traces <- (if show_avg then map_result avg_trace (enumerate scores) else Ok []) ;;
  Ok {| fig_traces := (if show_sub then
            flat_map (fun ic => let '(i, (cat, subd)) := ic in
                  map (fun js => let '(j, (sub, v)) := js in sub_bar i j sub v)
                    (enumerate subd))
              (enumerate scores) else []) ++ avg_traces;
        fig_barmode := str "overlay";
        fig_tickvals := seq 0 (List.length (map fst scores));
        fig_ticktext := map fst scores |}.
Proof. reflexivity. Qed.

(** X1. The chart raises [StatisticsError], and nothing else, exactly when the
    average bars are shown and a category has no sub-skill. *)
Theorem barograph_raises_iff_empty_category : forall scores show_sub show_avg,
  (forall e, build_barograph scores show_sub show_avg = Err e -> e = StatisticsError)
  /\ ((exists fig, build_barograph scores show_sub show_avg = Ok fig)
      <-> show_avg = false \/ Forall (fun cs => snd cs <> []) scores).
Proof.
  intros scores show_sub show_avg. rewrite build_barograph_eq.
  destruct show_avg.
  - destruct (avg_traces_spec scores 0) as [He Ho]. unfold enumerate.
    destruct (map_result avg_trace (enumerate_from 0 scores)) as [bs|e] eqn:E; simpl.
    + split; [intros e H; discriminate|]. split; [intros _; right; apply Ho; eauto|eauto].
    + split; [intros e' H; injection H as <-; eauto|].
      split; [intros [fig H]; discriminate|].
      intros [H|H]; [discriminate|]. apply Ho in H as [bs H]. discriminate.
  - simpl. split; [intros e H; discriminate|]. split; eauto.
Qed.

Lemma avg_traces_length : forall (scores : score_matrix) n bs,
  map_result avg_trace (enumerate_from n scores) = Ok bs -> List.length bs = List.length scores.
Proof.
  induction scores as [|[cat sub] scores IH]; intros n bs H; simpl in H.
  - now injection H as <-.
  - destruct (category_average sub) as [avg|e]; simpl in H; [|discriminate].
    destruct (map_result avg_trace (enumerate_from (S n) scores)) as [bs'|e] eqn:E;
      simpl in H; [|discriminate].
    injection H as <-. simpl. f_equal. exact (IH _ _ E).
Qed.

Lemma enumerate_from_length : forall {A} (l : list A) n, List.length (enumerate_from n l) = List.length l.
Proof. intros A l. induction l as [|a l IH]; intro n; simpl; [reflexivity|]. now rewrite IH. Qed.

Lemma sub_traces_length : forall (scores : score_matrix) n,
  List.length (flat_map sub_traces_of (enumerate_from n scores))
  = list_sum (map (fun cs => List.length (snd cs)) scores).
Proof.
  induction scores as [|[cat sub] scores IH]; intro n; simpl; [reflexivity|].
  rewrite length_app, IH, length_map. unfold enumerate. now rewrite enumerate_from_length.
Qed.

(** X2. The chart has one bar per sub-skill when sub-skill bars are shown and
    one bar per category when average bars are shown. *)
Theorem barograph_trace_count : forall scores show_sub show_avg fig,
  build_barograph scores show_sub show_avg = Ok fig ->
  List.length (fig_traces fig)
  = ((if show_sub then list_sum (map (fun cs => List.length (snd cs)) scores) else 0)
    + (if show_avg then List.length scores else 0))%nat.
Proof.
  intros scores show_sub show_avg fig H. rewrite build_barograph_eq in H.
  destruct (if show_avg then map_result avg_trace (enumerate scores) else Ok []) as [bs|e]
    eqn:E; simpl in H; [|discriminate].
  injection H as <-. simpl. rewrite length_app. f_equal.
  - destruct show_sub; [|reflexivity].
    change (flat_map _ (enumerate scores)) with (flat_map sub_traces_of (enumerate scores)).
    apply sub_traces_length.
  - destruct show_avg.
    + exact (avg_traces_length _ _ _ E).
    + now injection E as <-.
Qed.

Lemma sub_traces_legend_later : forall (scores : score_matrix) n,
  filter bar_showlegend (flat_map sub_traces_of (enumerate_from (S n) scores)) = [].
Proof.
  induction scores as [|[cat sub] scores IH]; intro n; simpl; [reflexivity|].
  rewrite filter_app, IH, app_nil_r. unfold enumerate.
  generalize 0%nat. induction sub as [|[k v] sub IHs]; intro j; simpl; [reflexivity|].
  apply IHs.
Qed.

Lemma sub_traces_legend_first : forall (sub : subscores) j,
  map bar_name (filter bar_showlegend
    (map (fun js => let '(j, (sub, v)) := js in sub_bar 0 j sub v) (enumerate_from j sub)))
  = map fst sub.
Proof.
  induction sub as [|[k v] sub IH]; intro j; simpl; [reflexivity|]. f_equal. apply IH.
Qed.

Lemma avg_traces_legend_later : forall (scores : score_matrix) n bs,
  map_result avg_trace (enumerate_from (S n) scores) = Ok bs -> filter bar_showlegend bs = [].
Proof.
  induction scores as [|[cat sub] scores IH]; intros n bs H; simpl in H.
  - now injection H as <-.
  - destruct (category_average sub) as [avg|e]; simpl in H; [|discriminate].
    destruct (map_result avg_trace (enumerate_from (S (S n)) scores)) as [bs'|e] eqn:E;
      simpl in H; [|discriminate].
    injection H as <-. simpl. exact (IH _ _ E).
Qed.

(** X3. The legend lists the sub-skills of the first category only, then one
    entry "<first category> Avg" for all the average bars. *)
Theorem barograph_legend_first_category : forall scores show_sub show_avg fig,
  build_barograph scores show_sub show_avg = Ok fig ->
  map bar_name (filter bar_showlegend (fig_traces fig))
  = match scores with
    | [] => []
    | (cat, subd) :: _ =>
        (if show_sub then map fst subd else []) ++ (if show_avg then [cat ++ str " Avg"] else [])
    end.
Proof.
  intros scores show_sub show_avg fig H. rewrite build_barograph_eq in H.
  destruct (if show_avg then map_result avg_trace (enumerate scores) else Ok []) as [bs|e]
    eqn:E; simpl in H; [|discriminate].
  injection H as <-. simpl. rewrite filter_app, map_app.
  destruct scores as [|[cat sub] scores].
  - destruct show_sub, show_avg; simpl in E; injection E as <-; reflexivity.
  - f_equal.
    + destruct show_sub; [|reflexivity].
      change (flat_map _ (enumerate ((cat, sub) :: scores)))
        with (flat_map sub_traces_of (enumerate_from 0 ((cat, sub) :: scores))).
      cbn [enumerate_from flat_map]. rewrite filter_app, sub_traces_legend_later, app_nil_r.
      unfold sub_traces_of. apply sub_traces_legend_first.
    + destruct show_avg.
      * unfold enumerate in E. simpl in E.
        destruct (category_average sub) as [avg|e]; simpl in E; [|discriminate].
        destruct (map_result avg_trace (enumerate_from 1 scores)) as [bs'|e] eqn:E';
          simpl in E; [|discriminate].
        injection E as <-. simpl. now rewrite (avg_traces_legend_later _ _ _ E').
      * now injection E as <-.
Qed.

Lemma sub_bar_left : forall i j sub v,
  bar_x (sub_bar i j sub v) - bar_width (sub_bar i j sub v) / 2
  == ((100 * Z.of_nat i + 22 * (Z.of_nat j - 1) - 10) # 100).
Proof. intros. unfold Qeq. cbn -[Z.mul Z.add Z.sub Z.opp Z.of_nat]. lia. Qed.

Lemma sub_bar_right : forall i j sub v,
  bar_x (sub_bar i j sub v) + bar_width (sub_bar i j sub v) / 2
  == ((100 * Z.of_nat i + 22 * (Z.of_nat j - 1) + 10) # 100).
Proof. intros. unfold Qeq. cbn -[Z.mul Z.add Z.sub Z.opp Z.of_nat]. lia. Qed.

(** X4. The bar of the [j]-th sub-skill of the [i]-th category stays inside
    the slot [(i - 0.5, i + 0.5)] of its category's tick exactly when
    [j <= 2], that is for the first three sub-skills; bars of two different
    sub-skills of a category never overlap. *)
Theorem sub_bars_layout : forall i j j' sub sub' v v',
  ((inject_Z (Z.of_nat i) - (1 # 2) < bar_x (sub_bar i j sub v) - bar_width (sub_bar i j sub v) / 2
    /\ bar_x (sub_bar i j sub v) + bar_width (sub_bar i j sub v) / 2 < inject_Z (Z.of_nat i) + (1 # 2))
   <-> (j <= 2)%nat)
  /\ (j <> j' ->
      bar_x (sub_bar i j sub v) + bar_width (sub_bar i j sub v) / 2
        < bar_x (sub_bar i j' sub' v') - bar_width (sub_bar i j' sub' v') / 2
      \/ bar_x (sub_bar i j' sub' v') + bar_width (sub_bar i j' sub' v') / 2
        < bar_x (sub_bar i j sub v) - bar_width (sub_bar i j sub v) / 2).
Proof.
  intros i j j' sub sub' v v'.
  rewrite !sub_bar_left, !sub_bar_right.
  assert (Ei : inject_Z (Z.of_nat i) - (1 # 2) == ((100 * Z.of_nat i - 50) # 100))
    by (unfold Qeq; cbn -[Z.mul Z.add Z.sub Z.opp Z.of_nat]; lia).
  assert (Ei' : inject_Z (Z.of_nat i) + (1 # 2) == ((100 * Z.of_nat i + 50) # 100))
    by (unfold Qeq; cbn -[Z.mul Z.add Z.sub Z.opp Z.of_nat]; lia).
  rewrite Ei, Ei'. unfold Qlt. cbn -[Z.mul Z.add Z.sub Z.opp Z.of_nat]. split.
  - split; [intros [_ H]; lia|intro H; lia].
  - intro H. lia.
Qed.

Lemma merge_history_averages : forall scores prev_cat prev_overall today r,
  merge_history scores prev_cat prev_overall today = Ok r ->
  exists avgs m, map_result (fun cs => category_average (snd cs)) scores = Ok avgs
    /\ mean avgs = Ok m /\ snd r = round1f (PFin m).
Proof.
  intros scores prev_cat prev_overall today r H. unfold merge_history in H.
  destruct (merge_categories scores prev_cat) as [h'|]; cbn [bind] in H; [|discriminate].
  destruct (map_result _ scores) as [avgs|] eqn:Ea; cbn [bind] in H; [|discriminate].
  destruct (mean avgs) as [m|] eqn:Em; cbn [bind] in H; [|discriminate].
  injection H as <-. exists avgs, m. auto.
Qed.
Lemma averages_nonempty : forall (scores : score_matrix) avgs,
  map_result (fun cs => category_average (snd cs)) scores = Ok avgs ->
  Forall (fun cs => snd cs <> []) scores.
Proof.
  induction scores as [|[cat sub] scores IH]; intros avgs H; simpl in H; [constructor|].
  destruct (category_average sub) as [a|e] eqn:Ea; simpl in H; [|discriminate].
  destruct (map_result _ scores) as [avgs'|e] eqn:E; simpl in H; [|discriminate].
  constructor; [simpl; intros ->; discriminate|exact (IH _ eq_refl)].
Qed.

(** X5. The chart of [create_docx_report] (line 132) never raises once the merge
    of lines 118-129 has returned: the report is written whenever the
    history is merged. *)
Theorem create_chart_never_raises : forall scores prev_cat prev_overall today r,
  merge_history scores prev_cat prev_overall today = Ok r ->
  exists fig, build_barograph scores true true = Ok fig.
Proof.
  intros scores prev_cat prev_overall today r H.
  destruct (merge_history_averages _ _ _ _ _ H) as [avgs [m [Ha _]]].
  destruct (avg_traces_spec scores 0) as [_ Ho].
  destruct (proj2 Ho (averages_nonempty _ _ Ha)) as [bs E].
  rewrite build_barograph_eq. unfold enumerate. rewrite E. simpl. eauto.
Qed.

(** Rounding half to even of [x / d] stays between two integer bounds of
    [x / d]. *)
Lemma half_even_bounds : forall x d a b, (0 < d)%Z -> (a * d <= x <= b * d)%Z ->
  (a <= match Z.compare (2 * (x mod d)) d with
        | Lt => x / d
        | Gt => x / d + 1
        | Eq => if Z.even (x / d) then x / d else x / d + 1
        end <= b)%Z.
Proof.
  intros x d a b Hd [Hlo Hhi].
  pose proof (Z.div_mod x d ltac:(lia)) as Hdm. pose proof (Z.mod_pos_bound x d Hd) as Hr.
  set (fl := (x / d)%Z) in *. set (r := (x mod d)%Z) in *.
  assert (H1 : (a <= fl)%Z).
  { destruct (Z_le_gt_dec a fl) as [H|H]; [exact H|exfalso]. nia. }
  assert (H2 : (fl <= b)%Z).
  { destruct (Z_le_gt_dec fl b) as [H|H]; [exact H|exfalso]. nia. }
  assert (H3 : fl = b -> r = 0%Z) by (intro E; subst fl; nia).
  destruct (Z.compare_spec (2 * r) d) as [E|E|E].
  - assert (fl <> b) by (intro E'; rewrite (H3 E') in E; lia).
    destruct (Z.even fl); lia.
  - lia.
  - assert (fl <> b) by (intro E'; rewrite (H3 E') in E; lia). lia.
Qed.

Lemma round_tenths_bounds : forall q a b,
  inject_Z a <= q -> q <= inject_Z b -> (10 * a <= round_tenths q <= 10 * b)%Z.
Proof.
  intros [n d] a b Ha Hb. unfold Qle, inject_Z in Ha, Hb. cbn [Qnum Qden] in Ha, Hb.
  unfold round_tenths. cbn [Qnum Qden]. apply half_even_bounds; lia.
Qed.

Lemma round_int_bounds : forall q a b,
  inject_Z a <= q -> q <= inject_Z b -> (a <= round_int q <= b)%Z.
Proof.
  intros [n d] a b Ha Hb. unfold Qle, inject_Z in Ha, Hb. cbn [Qnum Qden] in Ha, Hb.
  unfold round_int. cbn [Qnum Qden]. apply half_even_bounds; lia.
Qed.

Lemma qsum_bounds : forall (l : list Q) lo hi,
  Forall (fun q => lo <= q /\ q <= hi) l ->
  lo * inject_Z (Z.of_nat (List.length l)) <= qsum l
  /\ qsum l <= hi * inject_Z (Z.of_nat (List.length l)).
Proof.
  induction l as [|x l IH]; intros lo hi H; cbn [List.length qsum].
  - split; unfold Qle; simpl; lia.
  - inversion H as [|? ? [Hx1 Hx2] Hl]; subst. destruct (IH lo hi Hl) as [I1 I2].
    rewrite Nat2Z.inj_succ, <- Z.add_1_l, inject_Z_plus.
    split.
    + setoid_replace (lo * (inject_Z 1 + inject_Z (Z.of_nat (List.length l))))
        with (lo + lo * inject_Z (Z.of_nat (List.length l))) by ring.
      apply Qplus_le_compat; assumption.
    + setoid_replace (hi * (inject_Z 1 + inject_Z (Z.of_nat (List.length l))))
        with (hi + hi * inject_Z (Z.of_nat (List.length l))) by ring.
      apply Qplus_le_compat; assumption.
Qed.

Lemma mean_bounds : forall l m lo hi,
  Forall (fun q => lo <= q /\ q <= hi) l -> mean l = Ok m -> lo <= m /\ m <= hi.
Proof.
  intros l m lo hi H Hm. destruct l as [|x l']; [discriminate|].
  unfold mean in Hm. injection Hm as <-.
  destruct (qsum_bounds _ lo hi H) as [H1 H2].
  assert (Hpos : 0 < inject_Z (Z.of_nat (List.length (x :: l')))).
  { unfold Qlt. simpl. lia. }
  split.
  - apply Qle_shift_div_l; assumption.
  - apply Qle_shift_div_r; assumption.
Qed.

Lemma category_average_bounds : forall (sub : subscores) lo hi avg,
  Forall (fun kv => (lo <= snd kv <= hi)%Z) sub -> category_average sub = Ok avg ->
  inject_Z lo <= avg /\ avg <= inject_Z hi.
Proof.
  intros sub lo hi avg H Ha. unfold category_average in Ha.
  apply (mean_bounds _ _ (inject_Z lo) (inject_Z hi)) in Ha; [exact Ha|].
  apply Forall_map. eapply Forall_impl; [|exact H].
  intros [k v] [H1 H2]. simpl in *. split; rewrite <- Zle_Qle; lia.
Qed.

Lemma averages_bounds : forall (scores : score_matrix) lo hi avgs,
  scores_within lo hi scores ->
  map_result (fun cs => category_average (snd cs)) scores = Ok avgs ->
  Forall (fun q => inject_Z lo <= q /\ q <= inject_Z hi) avgs.
Proof.
  induction scores as [|[cat sub] scores IH]; intros lo hi avgs Hw H; simpl in H.
  - injection H as <-. constructor.
  - inversion Hw as [|? ? Hs Hrest]; subst.
    destruct (category_average sub) as [a|e] eqn:Ea; simpl in H; [|discriminate].
    destruct (map_result _ scores) as [avgs'|e] eqn:E; simpl in H; [|discriminate].
    injection H as <-. constructor.
    + exact (category_average_bounds _ _ _ _ Hs Ea).
    + exact (IH _ _ _ Hrest eq_refl).
Qed.


(** ** Rounding to the nearest double *)

Lemma div_half_even_bounds : forall x d a b, (0 < d)%Z -> (a * d <= x <= b * d)%Z ->
  (a <= div_half_even x d <= b)%Z.
Proof. intros x d a b Hd H. unfold div_half_even. exact (half_even_bounds x d a b Hd H). Qed.

Lemma div_half_even_close : forall x d, (0 < d)%Z ->
  (2 * Z.abs (d * div_half_even x d - x) <= d)%Z.
Proof.
  intros x d Hd. unfold div_half_even.
  pose proof (Z.div_mod x d ltac:(lia)) as Hdm. pose proof (Z.mod_pos_bound x d Hd) as Hr.
  set (fl := (x / d)%Z) in *. set (r := (x mod d)%Z) in *.
  destruct (Z.compare_spec (2 * r) d) as [E|E|E].
  - destruct (Z.even fl); nia.
  - nia.
  - nia.
Qed.

Lemma div_half_even_unique : forall x d t, (0 < d)%Z ->
  (2 * Z.abs (x - t * d) < d)%Z -> div_half_even x d = t.
Proof.
  intros x d t Hd H. pose proof (div_half_even_close x d Hd) as Hc.
  set (r := div_half_even x d) in *.
  destruct (Z.lt_total r t) as [L|[L|L]]; [nia|exact L|nia].
Qed.

Lemma flog2_le : forall q, (flog2 q <= Z.log2 (Qnum q) - Z.log2 (Zpos (Qden q)))%Z.
Proof.
  intro q. unfold flog2. cbv zeta.
  destruct (if (0 <=? _)%Z then _ else _); lia.
Qed.

Lemma pow2_52_lt_1024 : (2 ^ 52 < 2 ^ 1024)%Z.
Proof. apply Z.pow_lt_mono_r; lia. Qed.

(** A positive [n / d] below [2^K], [K <= 52], is rounded on a grid
    [2^-p] with [p >= 52 - K], without overflow. *)
Lemma round_binary_form : forall n d K, (0 < n)%Z -> (0 <= K <= 52)%Z ->
  (n <= 2 ^ K * Zpos d)%Z ->
  exists p, (52 - K <= p)%Z /\ (0 <= p)%Z
    /\ round_binary (Qmake n d)
       = Some (Qmake (div_half_even (n * 2 ^ p) (Zpos d)) (Z.to_pos (2 ^ p))).
Proof.
  intros n d K Hn HK Hb. unfold round_binary.
  assert (E0 : Qeq_bool (Qmake n d) 0 = false).
  { destruct (Qeq_bool (Qmake n d) 0) eqn:E; [|reflexivity].
    apply Qeq_bool_iff in E. unfold Qeq in E. simpl in E. lia. }
  rewrite E0.
  assert (Hk : (flog2 (Qmake n d) <= K)%Z).
  { pose proof (flog2_le (Qmake n d)) as H. cbn [Qnum Qden] in H.
    assert (Hl : (Z.log2 n <= Z.log2 (Zpos d * 2 ^ K))%Z)
      by (apply Z.log2_le_mono; lia).
    rewrite Z.log2_mul_pow2 in Hl by lia. lia. }
  set (e := Z.max (flog2 (Qmake n d) - 52) (-1074)).
  assert (He : (e <= 0)%Z) by (unfold e; lia).
  assert (Hp : (52 - K <= - e)%Z) by (unfold e; lia).
  cbv zeta. cbn [Qnum Qden].
  assert (Hv : (if (e <? 0)%Z
                then Qmake (div_half_even (n * 2 ^ (- e)) (Zpos d)) (Z.to_pos (2 ^ (- e)))
                else inject_Z (div_half_even n (Zpos d * 2 ^ e) * 2 ^ e))
               = Qmake (div_half_even (n * 2 ^ (- e)) (Zpos d)) (Z.to_pos (2 ^ (- e)))).
  { destruct (e <? 0)%Z eqn:El; [reflexivity|].
    apply Z.ltb_ge in El. assert (e = 0%Z) as -> by lia. cbn [Z.opp].
    rewrite Z.pow_0_r, !Z.mul_1_r. reflexivity. }
  rewrite Hv. exists (- e)%Z. split; [exact Hp|split; [lia|]].
  assert (Hpos : (0 < 2 ^ (- e))%Z) by (apply Z.pow_pos_nonneg; lia).
  assert (HK2 : (2 ^ K <= 2 ^ 52)%Z) by (apply Z.pow_le_mono_r; lia).
  pose proof pow2_52_lt_1024 as Hbig.
  assert (Hr : (div_half_even (n * 2 ^ (- e)) (Zpos d) <= 2 ^ K * 2 ^ (- e))%Z).
  { apply (div_half_even_bounds _ _ 0). { lia. } split; nia. }
  destruct (Qle_bool (inject_Z (2 ^ 1024)) _) eqn:Eo; [|reflexivity].
  apply Qle_bool_iff in Eo. unfold Qle in Eo. cbn [Qnum Qden inject_Z] in Eo.
  rewrite Z2Pos.id in Eo by exact Hpos.
  generalize dependent (div_half_even (n * 2 ^ (- e)) (Zpos d)).
  generalize dependent (2 ^ (- e))%Z. generalize dependent (2 ^ 1024)%Z.
  generalize dependent (2 ^ 52)%Z. generalize dependent (2 ^ K)%Z. intros. nia.
Qed.

(** Between two integer bounds [0 <= A] and [B <= 2^52], the nearest
    double stays between them. *)
Lemma round_binary_within : forall n d A B, (0 <= A)%Z -> (B <= 2 ^ 52)%Z ->
  (A * Zpos d <= n <= B * Zpos d)%Z ->
  exists v, round_binary (Qmake n d) = Some v /\ inject_Z A <= v /\ v <= inject_Z B.
Proof.
  intros n d A B HA HB Hn.
  destruct (Z.eq_dec n 0) as [->|Hn0].
  - exists 0. split; [reflexivity|]. unfold Qle. simpl. nia.
  - assert (Hp : (0 < n)%Z) by nia.
    destruct (round_binary_form n d 52 Hp ltac:(lia) ltac:(nia)) as [p [_ [Hp0 E]]].
    rewrite E. eexists; split; [reflexivity|].
    assert (Hpos : (0 < 2 ^ p)%Z) by (apply Z.pow_pos_nonneg; lia).
    destruct (div_half_even_bounds (n * 2 ^ p) (Zpos d) (A * 2 ^ p) (B * 2 ^ p)
                ltac:(lia) ltac:(split; nia)) as [R1 R2].
    unfold Qle. cbn [Qnum Qden inject_Z]. rewrite Z2Pos.id by exact Hpos. lia.
Qed.

Lemma to_double_value : forall neg x v, round_binary x = Some v ->
  exists y, float_value (to_double neg x) = Some y /\ y == (if neg then - v else v).
Proof.
  intros neg x v H. unfold to_double. rewrite H.
  destruct (Qeq_bool v 0) eqn:E.
  - apply Qeq_bool_iff in E. destruct neg; (exists 0; split; [reflexivity|]);
      rewrite E; reflexivity.
  - destruct neg; eexists; (split; [reflexivity|reflexivity]).
Qed.

(** [round(q, 1)] of a value between two integer bounds within [2^52]
    stays between them. *)
Lemma round1f_within : forall q lo hi, (- 2 ^ 52 <= lo)%Z -> (hi <= 2 ^ 52)%Z ->
  inject_Z lo <= q -> q <= inject_Z hi ->
  exists y, float_value (round1f (PFin q)) = Some y /\ inject_Z lo <= y /\ y <= inject_Z hi.
Proof.
  intros [a b] lo hi Hlo Hhi Hq1 Hq2. unfold Qle in Hq1, Hq2. cbn [Qnum Qden inject_Z] in Hq1, Hq2.
  unfold round1f. cbn [Qnum Qden].
  destruct (Qle_bool 0 (Qmake a b)) eqn:Es.
  - apply Qle_bool_iff in Es. unfold Qle in Es. simpl in Es.
    rewrite Z.abs_eq by lia. cbn [negb].
    destruct (round_tenths_bounds (Qmake a b) (Z.max lo 0) hi) as [T1 T2].
    { unfold Qle. simpl. destruct (Z.max_spec lo 0) as [[_ ->]|[_ ->]]; lia. }
    { unfold Qle. simpl. lia. }
    destruct (round_binary_within (round_tenths (Qmake a b)) 10 (Z.max lo 0) hi
                ltac:(lia) Hhi ltac:(lia)) as [v [Ev [V1 V2]]].
    destruct (to_double_value false _ _ Ev) as [y [Ey Hy]].
    exists y. split; [exact Ey|]. rewrite Hy.
    destruct v as [vn vd]. unfold Qle in *. cbn [Qnum Qden inject_Z] in *. split; nia.
  - assert (Ha : (a < 0)%Z).
    { destruct (Z.lt_ge_cases a 0) as [H|H]; [exact H|].
      assert (Qle_bool 0 (Qmake a b) = true) by (apply Qle_bool_iff; unfold Qle; simpl; lia).
      congruence. }
    rewrite Z.abs_neq by lia. cbn [negb].
    destruct (round_tenths_bounds (Qmake (- a) b) (Z.max (- hi) 0) (- lo)) as [T1 T2].
    { unfold Qle. simpl. destruct (Z.max_spec (- hi) 0) as [[_ ->]|[_ ->]]; lia. }
    { unfold Qle. simpl. lia. }
    destruct (round_binary_within (round_tenths (Qmake (- a) b)) 10 (Z.max (- hi) 0) (- lo)
                ltac:(lia) ltac:(lia) ltac:(lia)) as [v [Ev [V1 V2]]].
    destruct (to_double_value true _ _ Ev) as [y [Ey Hy]].
    exists y. split; [exact Ey|]. rewrite Hy.
    destruct v as [vn vd]. unfold Qle in *. cbn [Qnum Qden inject_Z Qopp] in *. split; nia.
Qed.

Lemma round_tenths_eq : forall q,
  round_tenths q = div_half_even (Qnum q * 10) (Zpos (Qden q)).
Proof. reflexivity. Qed.

(** X6. Sub-scores between two integers [lo] and [hi] whose magnitude is at
    most [2^52] give an overall score and, for every category of the
    matrix, a new history entry between [lo] and [hi].  (Beyond [2^53]
    the nearest double of a value may leave [[lo, hi]].) *)
Theorem merge_values_within : forall scores prev_cat prev_overall today ch ov s lo hi,
  (- 2 ^ 52 <= lo)%Z -> (hi <= 2 ^ 52)%Z ->
  NoDup (map fst scores) ->
  scores_within lo hi scores ->
  merge_history scores prev_cat prev_overall today = Ok (ch, ov, s) ->
  (exists y, float_value s = Some y /\ inject_Z lo <= y /\ y <= inject_Z hi)
  /\ forall c sub, Dict.get c scores = Some sub ->
       exists v y, Dict.get c ch = Some (get_or_nil c prev_cat ++ [v])
                   /\ float_value v = Some y /\ inject_Z lo <= y /\ y <= inject_Z hi.
Proof.
  intros scores prev_cat prev_overall today ch ov s lo hi Hlo Hhi Hnd Hw H.
  destruct (merge_history_averages _ _ _ _ _ H) as [avgs [m [Ha [Hm Hs]]]].
  cbn [snd] in Hs. subst s.
  destruct (mean_bounds _ _ _ _ (averages_bounds _ _ _ _ Hw Ha) Hm) as [B1 B2].
  split; [exact (round1f_within m lo hi Hlo Hhi B1 B2)|].
  intros c sub Hc.
  destruct (merge_history_parts _ _ _ _ _ _ _ H) as [Emc _].
  pose proof (merge_categories_spec scores prev_cat ch Hnd Emc c) as Hspec.
  rewrite Hc in Hspec. destruct Hspec as [avg [Havg Hget]].
  assert (Hsub : Forall (fun kv => (lo <= snd kv <= hi)%Z) sub).
  { unfold scores_within in Hw. rewrite Forall_forall in Hw.
    apply (Hw (c, sub)). clear -Hc. induction scores as [|[k v] scores IH]; simpl in *.
    - discriminate.
    - destruct (text_eqb c k) eqn:E.
      + apply text_eqb_eq in E. subst. injection Hc as ->. now left.
      + right. exact (IH Hc). }
  destruct (category_average_bounds _ _ _ _ Hsub Havg) as [C1 C2].
  destruct (round1f_within avg lo hi Hlo Hhi C1 C2) as [y [Ey Y]].
  exists (round1f (PFin avg)), y. auto.
Qed.

(** X7. The initial value of a category's widgets: 50 outside the edit mode
    or for a category without history, else [int(round(last))] of its last
    value: an integer between two integers that bound a finite last value,
    [OverflowError] for an infinite one, [ValueError] for a nan. *)
Theorem slider_default_spec : forall (ch : cat_history_t) cat,
  slider_default false ch cat = Ok 50%Z
  /\ (get_or_nil cat ch = [] -> slider_default true ch cat = Ok 50%Z)
  /\ (get_or_nil cat ch <> [] ->
        slider_default true ch cat = round_float (last (get_or_nil cat ch) PNaN)
        /\ (forall q lo hi, last (get_or_nil cat ch) PNaN = PFin q ->
              inject_Z lo <= q -> q <= inject_Z hi ->
              exists a, slider_default true ch cat = Ok a /\ a = round_int q /\ (lo <= a <= hi)%Z)
        /\ (forall neg, last (get_or_nil cat ch) PNaN = PInf neg ->
              slider_default true ch cat = Err OverflowError)
        /\ (last (get_or_nil cat ch) PNaN = PNaN -> slider_default true ch cat = Err ValueError)).
Proof.
  intros ch cat. unfold slider_default, get_or_nil, Dict.mem.
  split; [reflexivity|].
  destruct (Dict.get cat ch) as [[|v vs]|]; cbn [andb negb].
  - split; [reflexivity|]. intro H. contradiction.
  - split; [intro H; discriminate|]. intros _. split; [reflexivity|].
    split; [|split].
    + intros q lo hi E H1 H2. rewrite E. exists (round_int q).
      split; [reflexivity|split; [reflexivity|apply round_int_bounds; assumption]].
    + intros neg E. rewrite E. reflexivity.
    + intro E. rewrite E. reflexivity.
  - split; [reflexivity|]. intro H. contradiction.
Qed.

Lemma round_tenths_nonneg : forall q, 0 <= q -> (0 <= round_tenths q)%Z.
Proof.
  intros [n d] H. unfold Qle in H. cbn [Qnum Qden] in H.
  unfold round_tenths. cbn [Qnum Qden].
  assert (H0 : (0 <= n * 10 / Z.pos d)%Z) by (apply Z.div_pos; lia).
  destruct (Z.compare _ _); [destruct (Z.even _)|..]; lia.
Qed.

(** [f"{round(q, 1):.1f}"] and [f"{q:.1f}"] write the same text for
    [0 <= q <= 2^48]: the double nearest to the tenths is within a
    twentieth of them. *)
Lemma fmt1f_round1f : forall q, 0 <= q -> q <= inject_Z (2 ^ 48) ->
  fmt1f (round1f (PFin q)) = fmt1 q.
Proof.
  intros [a b] Hq1 Hq2.
  assert (Ha : (0 <= a)%Z) by (unfold Qle in Hq1; simpl in Hq1; lia).
  assert (Es : Qle_bool 0 (Qmake a b) = true) by (apply Qle_bool_iff; exact Hq1).
  unfold round1f, fmt1. cbn [Qnum Qden]. rewrite Es, Z.abs_eq by exact Ha. cbn [negb].
  set (t := round_tenths (Qmake a b)).
  destruct (round_tenths_bounds (Qmake a b) 0 (2 ^ 48) Hq1 Hq2) as [T1 T2].
  fold t in T1, T2.
  destruct (Z.eq_dec t 0) as [E0|E0].
  - rewrite E0. reflexivity.
  - assert (Ht : (0 < t)%Z) by lia.
    destruct (round_binary_form t 10 48 Ht ltac:(lia) ltac:(lia)) as [p [Hp [_ E]]].
    assert (Hp16 : (2 ^ 4 <= 2 ^ p)%Z) by (apply Z.pow_le_mono_r; lia).
    assert (Hpos : (0 < 2 ^ p)%Z) by lia.
    pose proof (div_half_even_close (t * 2 ^ p) 10 ltac:(lia)) as Hc.
    set (r := div_half_even (t * 2 ^ p) 10) in *.
    unfold to_double. rewrite E.
    assert (Ez : Qeq_bool (Qmake r (Z.to_pos (2 ^ p))) 0 = false).
    { destruct (Qeq_bool _ 0) eqn:Eq; [|reflexivity].
      apply Qeq_bool_iff in Eq. unfold Qeq in Eq. cbn [Qnum Qden] in Eq.
      assert (r = 0%Z) by lia. subst r. rewrite H in Hc. nia. }
    rewrite Ez. cbn [fmt1f]. unfold fmt1. cbn [Qnum Qden].
    assert (Er : (0 <= r)%Z) by nia.
    assert (Es' : Qle_bool 0 (Qmake r (Z.to_pos (2 ^ p))) = true)
      by (apply Qle_bool_iff; unfold Qle; simpl; lia).
    rewrite Es', Z.abs_eq by exact Er.
    rewrite round_tenths_eq. cbn [Qnum Qden]. rewrite Z2Pos.id by exact Hpos.
    rewrite (div_half_even_unique (r * 10) (2 ^ p) t Hpos) by nia.
    reflexivity.
Qed.

(** X8. The overall rating written on the page (line 308) is the one written
    into the saved report (line 151), when the sub-scores lie in the
    widgets' range 1..100. *)
Theorem page_overall_matches_report :
  forall name type scores prev_cat prev_overall today now_time doc lines overall_text,
  scores_within 1 100 scores ->
  page_ratings scores = Ok (lines, overall_text) ->
  create_docx_report name type scores prev_cat prev_overall today now_time = Ok doc ->
  exists x, overall_text = str "**Overall Rating:** " ++ x ++ str " / 120"
            /\ In (str "Overall Rating: " ++ x ++ str " / 120") doc.
Proof.
  intros name type scores prev_cat prev_overall today now_time doc lines overall_text Hw Hp Hd.
  unfold page_ratings in Hp.
  match type of Hp with
  | bind (map_result ?f scores) _ = _ => destruct (map_result f scores) as [ls|e]
  end; cbn [bind] in Hp; [|discriminate Hp].
  destruct (map_result (fun cs => category_average (snd cs)) scores) as [avgs|e] eqn:Ea;
    cbn [bind] in Hp; [|discriminate Hp].
  destruct (mean avgs) as [m|e] eqn:Em; cbn [bind] in Hp; [|discriminate Hp].
  injection Hp as _ <-.
  exists (fmt1 m). split; [reflexivity|].
  destruct (create_docx_shape _ _ _ _ _ _ _ _ Hd) as [ch [ov [s [bullets [dates [Emh [_ [_ ->]]]]]]]].
  destruct (merge_history_averages _ _ _ _ _ Emh) as [avgs' [m' [Ea' [Em' Hs]]]].
  rewrite Ea in Ea'. injection Ea' as <-. rewrite Em in Em'. injection Em' as <-.
  cbn [snd] in Hs. subst s.
  destruct (mean_bounds _ _ _ _ (averages_bounds _ _ _ _ Hw Ea) Em) as [B1 B2].
  rewrite fmt1f_round1f.
  2: { eapply Qle_trans; [|exact B1]. unfold Qle. simpl. lia. }
  2: { eapply Qle_trans; [exact B2|]. unfold Qle. simpl. lia. }
  assert (Hnc : contains 13 (str "Overall Rating: " ++ fmt1 m ++ str " / 120") = false).
  { apply contains_forallb. rewrite !forallb_app. change (fmt1 m) with (fmt1f (PFin m)).
    rewrite (proj1 (contains_forallb _ _) (fmt1f_no_cr (PFin m))). reflexivity. }
  rewrite (map_crlf_id _ Hnc).
  apply in_or_app. right. apply in_or_app. right. apply in_or_app. left.
  right. left. reflexivity.
Qed.
Lemma map_result_spec : forall {A B} (f : A -> result B) (P : A -> Prop) (l : list A),
  (forall a e, f a = Err e -> e = StatisticsError) ->
  (forall a, (exists b, f a = Ok b) <-> P a) ->
  (forall e, map_result f l = Err e -> e = StatisticsError)
  /\ ((exists bs, map_result f l = Ok bs) <-> Forall P l).
Proof.
  intros A B f P l Hf HP. induction l as [|a l [IHe IHo]]; simpl.
  - split; [intros e H; discriminate|]. split; [constructor|eauto].
  - destruct (f a) as [b|e] eqn:Ea; cbn [bind].
    + destruct (map_result f l) as [bs|e] eqn:El; cbn [bind].
      * split; [intros e H; discriminate|]. split; [intros _|eauto].
        constructor; [apply HP; eauto|apply IHo; eauto].
      * split; [intros e' H; injection H as <-; eauto|].
        split; [intros [bs H]; discriminate|].
        intro Hall. inversion Hall; subst. apply IHo in H2 as [bs H2]. discriminate.
    + split; [intros e' H; injection H as <-; eauto|].
      split; [intros [bs H]; discriminate|].
      intro Hall. inversion Hall; subst. apply HP in H1 as [b H1]. congruence.
Qed.

Lemma map_result_length : forall {A B} (f : A -> result B) l bs,
  map_result f l = Ok bs -> List.length bs = List.length l.
Proof.
  intros A B f l. induction l as [|a l IH]; intros bs H; simpl in H.
  - now injection H as <-.
  - destruct (f a) as [b|e]; cbn [bind] in H; [|discriminate].
    destruct (map_result f l) as [bs'|e]; cbn [bind] in H; [|discriminate].
    injection H as <-. simpl. f_equal. apply IH. reflexivity.
Qed.

Lemma category_average_spec : forall sub : subscores,
  (forall e, category_average sub = Err e -> e = StatisticsError)
  /\ ((exists a, category_average sub = Ok a) <-> sub <> []).
Proof.
  intro sub. split.
  - intros e H. exact (proj2 (category_average_err _ _ H)).
  - split.
    + intros [a H] ->. discriminate.
    + apply category_average_ok.
Qed.

Lemma page_ratings_spec : forall scores,
  (forall e, page_ratings scores = Err e -> e = StatisticsError)
  /\ ((exists r, page_ratings scores = Ok r)
      <-> scores <> [] /\ Forall (fun cs => snd cs <> []) scores).
Proof.
  intro scores. unfold page_ratings.
  destruct (map_result_spec
              (fun cs : list N * subscores => avg <- category_average (snd cs) ;;
                 Ok (str "**" ++ fst cs ++ str "**: " ++ fmt1 avg))
              (fun cs => snd cs <> []) scores) as [He1 Ho1].
  { intros [c sub] e H. cbn [fst snd] in H.
    destruct (category_average sub) as [a|e'] eqn:E; cbn [bind] in H; [discriminate|].
    injection H as <-. exact (proj1 (category_average_spec sub) _ E). }
  { intros [c sub]. cbn [fst snd]. rewrite <- (proj2 (category_average_spec sub)).
    split; intros [b H].
    - destruct (category_average sub) as [a|e']; cbn [bind] in H; [eauto|discriminate].
    - rewrite H. cbn [bind]. eauto. }
  destruct (map_result_spec (fun cs : text * subscores => category_average (snd cs))
              (fun cs => snd cs <> []) scores) as [He2 Ho2].
  { intros [c sub] e H. exact (proj1 (category_average_spec sub) _ H). }
  { intros [c sub]. exact (proj2 (category_average_spec sub)). }
  destruct (map_result
              (fun cs : list N * subscores => avg <- category_average (snd cs) ;;
                 Ok (str "**" ++ fst cs ++ str "**: " ++ fmt1 avg)) scores)
    as [ls|e] eqn:El; cbn [bind].
  - destruct (map_result (fun cs : text * subscores => category_average (snd cs)) scores)
      as [avgs|e] eqn:Ea; cbn [bind].
    + assert (Hl : List.length avgs = List.length scores) by exact (map_result_length _ _ _ Ea).
      destruct avgs as [|a avgs]; cbn [mean bind].
      * split; [intros e H; injection H as <-; reflexivity|].
        split; [intros [r H]; discriminate|]. intros [Hne _].
        destruct scores; [contradiction|discriminate].
      * split; [intros e H; discriminate|]. split; [intros _|eauto].
        split; [intros ->; discriminate|]. apply Ho2. eauto.
    + split; [intros e' H; injection H as <-; eauto|].
      split; [intros [r H]; discriminate|]. intros [_ Hall].
      apply Ho2 in Hall as [bs H]. discriminate.
  - split; [intros e' H; injection H as <-; eauto|].
    split; [intros [r H]; discriminate|]. intros [_ Hall].
    apply Ho1 in Hall as [bs H]. discriminate.
Qed.

(** X9. Drawing the chart and the ratings of the page (lines 300-308) raises
    [StatisticsError], and nothing else, exactly when the player has no
    category or has a category without sub-skills, whatever the chart
    options. *)
Theorem render_raises_iff_empty : forall scores show_sub show_avg,
  (forall e, render scores show_sub show_avg = Err e -> e = StatisticsError)
  /\ ((exists r, render scores show_sub show_avg = Ok r)
      <-> scores <> [] /\ Forall (fun cs => snd cs <> []) scores).
Proof.
  intros scores show_sub show_avg. unfold render.
  destruct (page_ratings_spec scores) as [Hpe Hpo].
  rewrite build_barograph_eq.
  destruct (avg_traces_spec scores 0) as [Hae Hao]. unfold enumerate.
  destruct show_avg.
  - destruct (map_result avg_trace (enumerate_from 0 scores)) as [bs|e] eqn:E; cbn [bind].
    + destruct (page_ratings scores) as [r|e] eqn:Ep; cbn [bind].
      * split; [intros e H; discriminate|]. split; [intros _; apply Hpo; eauto|eauto].
      * split; [intros e' H; injection H as <-; eauto|].
        split; [intros [r H]; discriminate|]. intro H. apply Hpo in H as [r H]. discriminate.
    + split; [intros e' H; injection H as <-; eauto|].
      split; [intros [r H]; discriminate|]. intros [_ H]. apply Hao in H as [bs H]. discriminate.
  - cbn [bind].
    destruct (page_ratings scores) as [r|e] eqn:Ep; cbn [bind].
    + split; [intros e H; discriminate|]. split; [intros _; apply Hpo; eauto|eauto].
    + split; [intros e' H; injection H as <-; eauto|].
      split; [intros [r H]; discriminate|]. intro H. apply Hpo in H as [r H]. discriminate.
Qed.


(** ** The widgets and the score matrix of the page *)

Lemma call_widget_ok : forall widget used key def r,
  call_widget widget used key def = Ok r ->
  r = (used ++ [key], widget key def) /\ (1 <= def <= 100)%Z /\ ~ In key used.
Proof.
  intros widget used key def r H. unfold call_widget in H.
  destruct ((1 <=? def) && (def <=? 100))%Z eqn:E1; cbn [negb] in H; [|discriminate].
  destruct (existsb (text_eqb key) used) eqn:E2; [discriminate|].
  injection H as <-. apply andb_prop in E1 as [E1 E1']. apply Z.leb_le in E1, E1'.
  split; [reflexivity|split; [lia|]].
  intro Hin. assert (E : existsb (text_eqb key) used = true).
  { apply existsb_exists. exists key. split; [exact Hin|apply text_eqb_refl]. }
  congruence.
Qed.

(** The widgets of a sub-skill create the key of its first widget, the
    slider when sliders are shown, else the number input. *)
Lemma sub_widgets_ok : forall widget ss sni used cat sub a r,
  sub_widgets widget ss sni used cat sub a = Ok r ->
  (exists added, fst r = used ++ (if ss then slider_key cat sub else input_key cat sub) :: added)
  /\ ~ In (if ss then slider_key cat sub else input_key cat sub) used
  /\ snd r = sub_value widget ss sni cat sub a
  /\ (1 <= a <= 100)%Z.
Proof.
  intros widget ss sni used cat sub a r H. unfold sub_widgets in H. unfold sub_value.
  destruct ss, sni; cbn [andb] in H |- *.
  - destruct (call_widget widget used (slider_key cat sub) a) as [r1|e] eqn:E1;
      cbn [bind] in H; [|discriminate].
    apply call_widget_ok in E1 as [-> [Ha Hn]]. cbn [fst snd] in H.
    apply call_widget_ok in H as [-> _]. cbn [fst snd].
    split; [exists [input_key cat sub]; rewrite <- app_assoc; reflexivity|auto].
  - apply call_widget_ok in H as [-> [Ha Hn]]. split; [exists []; reflexivity|auto].
  - apply call_widget_ok in H as [-> [Ha Hn]]. split; [exists []; reflexivity|auto].
  - apply call_widget_ok in H as [-> [Ha Hn]]. split; [exists []; reflexivity|auto].
Qed.

Lemma fill_category_ok : forall widget ss sni cat subs a used d r,
  fill_category widget ss sni used cat subs a d = Ok r ->
  (exists added, fst r = used ++ added)
  /\ snd r = fold_left (fun d0 sub => Dict.set sub (sub_value widget ss sni cat sub a) d0) subs d
  /\ (forall sub, In sub subs ->
        In (if ss then slider_key cat sub else input_key cat sub) (fst r)
        /\ ~ In (if ss then slider_key cat sub else input_key cat sub) used)
  /\ (subs <> [] -> (1 <= a <= 100)%Z).
Proof.
  intros widget ss sni cat subs a. induction subs as [|s subs IH]; intros used d r H;
    cbn [fill_category] in H.
  - injection H as <-. cbn [fst snd fold_left].
    split; [exists []; now rewrite app_nil_r|]. split; [reflexivity|].
    split; [intros sub []|]. intro H; contradiction.
  - destruct (sub_widgets widget ss sni used cat s a) as [r1|e] eqn:E1; cbn [bind] in H;
      [|discriminate].
    destruct (sub_widgets_ok _ _ _ _ _ _ _ _ E1) as [[added1 Ea1] [Hn1 [Hv1 Ha1]]].
    destruct (IH _ _ _ H) as [[added2 Ea2] [Hd [Hk _]]].
    split.
    { exists (((if ss then slider_key cat s else input_key cat s) :: added1) ++ added2).
      rewrite Ea2, Ea1, <- app_assoc. reflexivity. }
    split; [rewrite Hd, Hv1; reflexivity|].
    split; [|intros _; exact Ha1].
    intros sub [<-|Hin].
    + split; [|exact Hn1]. rewrite Ea2, Ea1. apply in_or_app. left.
      apply in_or_app. right. left. reflexivity.
    + destruct (Hk sub Hin) as [H1 H2]. split; [exact H1|].
      intro Hu. apply H2. rewrite Ea1. apply in_or_app. left. exact Hu.
Qed.

Lemma dict_set_keys : forall {V} k (v : V) d,
  map fst (Dict.set k v d) = if Dict.mem k d then map fst d else map fst d ++ [k].
Proof.
  intros V k v d. unfold Dict.mem. induction d as [|[k' v'] d IH]; simpl; [reflexivity|].
  destruct (text_eqb k k') eqn:E; simpl; [reflexivity|].
  rewrite IH. destruct (Dict.get k d); reflexivity.
Qed.

Lemma dict_mem_set : forall {V} x k (v : V) d,
  Dict.mem x (Dict.set k v d) = text_eqb x k || Dict.mem x d.
Proof.
  intros V x k v d. unfold Dict.mem. destruct (text_eqb x k) eqn:E.
  - apply text_eqb_eq in E. subst. now rewrite dict_get_set_same.
  - rewrite dict_get_set_other; [reflexivity|]. intro E'. subst. now rewrite text_eqb_refl in E.
Qed.

(** The loop of lines 216-256 (or 259-299) over the categories [cats]. *)
Lemma add_categories_ok : forall widget ss sni ue ch cats used scores used' sc,
  NoDup (map fst cats) ->
  add_categories widget ss sni ue ch used cats scores = Ok (used', sc) ->
  (exists added, used' = used ++ added)
  /\ map fst sc = map fst scores ++ filter (fun c => negb (Dict.mem c scores)) (map fst cats)
  /\ (forall c, Dict.get c cats = None -> Dict.get c sc = Dict.get c scores)
  /\ (forall c subs, Dict.get c cats = Some subs ->
        exists a, slider_default ue ch c = Ok a
          /\ Dict.get c sc = Some (fill_values widget ss sni c subs a)
          /\ (subs <> [] -> (1 <= a <= 100)%Z)
          /\ forall sub, In sub subs ->
               In (if ss then slider_key c sub else input_key c sub) used'
               /\ ~ In (if ss then slider_key c sub else input_key c sub) used).
Proof.
  intros widget ss sni ue ch cats. induction cats as [|[k subs] cats IH];
    intros used scores used' sc Hnd H; cbn [add_categories] in H.
  - injection H as <- <-. split; [exists []; now rewrite app_nil_r|].
    split; [cbn [map filter]; now rewrite app_nil_r|].
    split; [reflexivity|]. intros c subs Hc. discriminate.
  - inversion Hnd as [|? ? Hk Hnd']; subst.
    destruct (slider_default ue ch k) as [a|e] eqn:Ea; cbn [bind] in H; [|discriminate].
    destruct (fill_category widget ss sni used k subs a []) as [[u1 d1]|e] eqn:Ef;
      cbn [bind] in H; [|discriminate].
    cbn [fst snd] in H.
    destruct (fill_category_ok _ _ _ _ _ _ _ _ _ Ef) as [[add1 Eu1] [Hd1 [Hk1 Ha1]]].
    cbn [fst snd] in Eu1, Hd1, Hk1.
    destruct (IH _ _ _ _ Hnd' H) as [[add2 Eu2] [Hkeys [Hnone Hsome]]].
    split; [exists (add1 ++ add2); rewrite Eu2, Eu1, app_assoc; reflexivity|].
    split.
    + rewrite Hkeys.
      assert (Hf : filter (fun x => negb (Dict.mem x (Dict.set k d1 (Dict.set k [] scores))))
                     (map fst cats)
                   = filter (fun x => negb (Dict.mem x scores)) (map fst cats)).
      { apply filter_ext_in. intros x Hx. rewrite !dict_mem_set.
        destruct (text_eqb x k) eqn:E; [|reflexivity].
        apply text_eqb_eq in E. subst. contradiction. }
      rewrite Hf, !dict_set_keys, dict_mem_set, text_eqb_refl. cbn [orb map filter fst].
      destruct (Dict.mem k scores); cbn [negb]; [reflexivity|]. now rewrite <- app_assoc.
    + split.
      * intros c Hc. rewrite dict_get_cons in Hc.
        destruct (text_eqb c k) eqn:E; [discriminate|].
        assert (Hne : c <> k) by (intro E'; subst; now rewrite text_eqb_refl in E).
        rewrite (Hnone c Hc), !dict_get_set_other by exact Hne. reflexivity.
      * intros c subs' Hc. rewrite dict_get_cons in Hc.
        destruct (text_eqb c k) eqn:E.
        -- apply text_eqb_eq in E. subst c. injection Hc as <-.
           exists a. split; [exact Ea|].
           split; [rewrite (Hnone k (dict_get_notin k cats Hk)), dict_get_set_same, Hd1;
                   reflexivity|].
           split; [exact Ha1|]. intros sub Hin. destruct (Hk1 sub Hin) as [H1 H2].
           split; [rewrite Eu2; apply in_or_app; left; exact H1|exact H2].
        -- destruct (Hsome c subs' Hc) as [a' [Ea' [Eg [Ha' Hk']]]].
           exists a'. split; [exact Ea'|]. split; [exact Eg|]. split; [exact Ha'|].
           intros sub Hin. destruct (Hk' sub Hin) as [H1 H2]. split; [exact H1|].
           intro Hu. apply H2. rewrite Eu1. apply in_or_app. left. exact Hu.
Qed.

(** X10. The score matrix of the page (lines 209-299), when no widget call
    raises: the Skillset categories in their order, then the Specialty
    categories that are not Skillset categories; a category holds the values
    of its widgets started at its initial value (1..100 when it has a
    sub-skill), the Specialty's sub-skills replacing the Skillset's for a
    category of both; and no sub-skill is listed both in the Skillset and in
    the Specialty for the same category (its widget key would be used
    twice, which raises). *)
Theorem build_scores_spec : forall widget ss sni ue ch skillset specialty sc,
  NoDup (map fst skillset) -> NoDup (map fst specialty) ->
  build_scores widget ss sni ue ch skillset specialty = Ok sc ->
  map fst sc = map fst skillset ++ filter (fun c => negb (Dict.mem c skillset)) (map fst specialty)
  /\ (forall c,
        match Dict.get c specialty, Dict.get c skillset with
        | Some subs, _ | None, Some subs =>
            exists a, slider_default ue ch c = Ok a
              /\ Dict.get c sc = Some (fill_values widget ss sni c subs a)
              /\ (subs <> [] -> (1 <= a <= 100)%Z)
        | None, None => Dict.get c sc = None
        end)
  /\ (forall c subs1 subs2 sub, Dict.get c skillset = Some subs1 ->
        Dict.get c specialty = Some subs2 -> In sub subs1 -> ~ In sub subs2).
Proof.
  intros widget ss sni ue ch skillset specialty sc Hn1 Hn2 H. unfold build_scores in H.
  destruct (add_categories widget ss sni ue ch [] skillset []) as [[u1 s1]|e] eqn:E1;
    cbn [bind] in H; [|discriminate].
  cbn [fst snd] in H.
  destruct (add_categories widget ss sni ue ch u1 specialty s1) as [[u2 s2]|e] eqn:E2;
    cbn [bind] in H; [|discriminate].
  cbn [snd] in H. injection H as <-.
  destruct (add_categories_ok _ _ _ _ _ _ _ _ _ _ Hn1 E1) as [_ [K1 [N1 S1]]].
  destruct (add_categories_ok _ _ _ _ _ _ _ _ _ _ Hn2 E2) as [_ [K2 [N2 S2]]].
  assert (Hget1 : forall c, Dict.get c s1 = None <-> Dict.get c skillset = None).
  { intro c. destruct (Dict.get c skillset) as [subs|] eqn:Ec.
    - destruct (S1 c subs Ec) as [a [_ [Eg _]]]. rewrite Eg. split; discriminate.
    - rewrite (N1 c Ec). split; reflexivity. }
  split; [|split].
  - rewrite K2, K1. cbn [map app].
    assert (Ht : forall l : list text, filter (fun x => negb (@Dict.mem subscores x [])) l = l)
      by (induction l as [|x l IHl]; [reflexivity|];
          change (x :: filter (fun x => negb (@Dict.mem subscores x [])) l = x :: l);
          now rewrite IHl).
    rewrite Ht. f_equal. apply filter_ext. intro c. f_equal. unfold Dict.mem.
    destruct (Dict.get c skillset) as [subs|] eqn:Ek.
    + destruct (S1 c subs Ek) as [a [_ [Eg _]]]. rewrite Eg. reflexivity.
    + rewrite (N1 c Ek). reflexivity.
  - intro c. destruct (Dict.get c specialty) as [subs|] eqn:Es.
    + destruct (S2 c subs Es) as [a [Ea [Eg [Ha _]]]]. eauto.
    + rewrite (N2 c Es). destruct (Dict.get c skillset) as [subs|] eqn:Ek.
      * destruct (S1 c subs Ek) as [a [Ea [Eg [Ha _]]]]. eauto.
      * apply Hget1. exact Ek.
  - intros c subs1 subs2 sub Hc1 Hc2 Hin1 Hin2.
    destruct (S1 c subs1 Hc1) as [a1 [_ [_ [_ Hk1]]]].
    destruct (S2 c subs2 Hc2) as [a2 [_ [_ [_ Hk2]]]].
    exact (proj2 (Hk2 sub Hin2) (proj1 (Hk1 sub Hin1))).
Qed.

Lemma forall_dict_set : forall {V} (P : text * V -> Prop) k v d,
  Forall P d -> P (k, v) -> Forall P (Dict.set k v d).
Proof.
  intros V P k v d Hd Hk. induction d as [|[k' v'] d IH]; simpl.
  - constructor; [exact Hk|constructor].
  - inversion Hd as [|? ? H1 H2]; subst.
    destruct (text_eqb k k') eqn:E.
    + apply text_eqb_eq in E. subst. constructor; assumption.
    + constructor; [exact H1|exact (IH H2)].
Qed.

Lemma sub_value_within : forall widget ss sni cat sub a lo hi,
  (forall k x, (lo <= widget k x <= hi)%Z) ->
  (lo <= sub_value widget ss sni cat sub a <= hi)%Z.
Proof.
  intros widget ss sni cat sub a lo hi Hw. unfold sub_value.
  destruct (ss && sni); [apply Hw|]. destruct ss; apply Hw.
Qed.

Lemma fill_category_within : forall widget ss sni cat subs a used d r lo hi,
  (forall k x, (lo <= widget k x <= hi)%Z) ->
  Forall (fun kv => (lo <= snd kv <= hi)%Z) d ->
  fill_category widget ss sni used cat subs a d = Ok r ->
  Forall (fun kv => (lo <= snd kv <= hi)%Z) (snd r).
Proof.
  intros widget ss sni cat subs a used d r lo hi Hw Hd H.
  destruct (fill_category_ok _ _ _ _ _ _ _ _ _ H) as [_ [-> _]].
  clear H. revert d Hd. induction subs as [|s subs IH]; intros d Hd; cbn [fold_left]; [exact Hd|].
  apply IH. apply forall_dict_set; [exact Hd|]. apply sub_value_within. exact Hw.
Qed.

Lemma add_categories_within : forall widget ss sni ue ch cats used scores r lo hi,
  (forall k x, (lo <= widget k x <= hi)%Z) ->
  scores_within lo hi scores ->
  add_categories widget ss sni ue ch used cats scores = Ok r ->
  scores_within lo hi (snd r).
Proof.
  intros widget ss sni ue ch cats. induction cats as [|[c subs] cats IH];
    intros used scores r lo hi Hw Hsc H; cbn [add_categories] in H.
  - injection H as <-. exact Hsc.
  - destruct (slider_default ue ch c) as [a|e]; cbn [bind] in H; [|discriminate].
    destruct (fill_category widget ss sni used c subs a []) as [r1|e] eqn:Ef;
      cbn [bind] in H; [|discriminate].
    apply (IH _ _ _ lo hi Hw) in H; [exact H|].
    unfold scores_within. apply forall_dict_set.
    + apply forall_dict_set; [exact Hsc|constructor].
    + exact (fill_category_within _ _ _ _ _ _ _ _ _ lo hi Hw (Forall_nil _) Ef).
Qed.

(** X11. When the widgets return values in [[lo, hi]] (Streamlit's
    [min_value=1, max_value=100]), every category average and the overall
    rating that the page computes lie in [[lo, hi]]. *)
Theorem page_ratings_within : forall widget ss sni ue ch skillset specialty sc lo hi,
  (forall k x, (lo <= widget k x <= hi)%Z) ->
  build_scores widget ss sni ue ch skillset specialty = Ok sc ->
  (forall c sub a, In (c, sub) sc ->
     category_average sub = Ok a -> inject_Z lo <= a /\ a <= inject_Z hi)
  /\ (forall avgs m,
        map_result (fun cs => category_average (snd cs)) sc = Ok avgs ->
        mean avgs = Ok m -> inject_Z lo <= m /\ m <= inject_Z hi).
Proof.
  intros widget ss sni ue ch skillset specialty sc lo hi Hw H.
  assert (Hs : scores_within lo hi sc).
  { unfold build_scores in H.
    destruct (add_categories widget ss sni ue ch [] skillset []) as [r1|e] eqn:E1;
      cbn [bind] in H; [|discriminate].
    destruct (add_categories widget ss sni ue ch (fst r1) specialty (snd r1)) as [r2|e] eqn:E2;
      cbn [bind] in H; [|discriminate].
    injection H as <-.
    apply (add_categories_within _ _ _ _ _ _ _ _ _ lo hi Hw) in E1; [|constructor].
    exact (add_categories_within _ _ _ _ _ _ _ _ _ lo hi Hw E1 E2). }
  split.
  - intros c sub a Hin Ha. unfold scores_within in Hs. rewrite Forall_forall in Hs.
    exact (category_average_bounds _ _ _ _ (Hs _ Hin) Ha).
  - intros avgs m Ha Hm. exact (mean_bounds _ _ _ _ (averages_bounds _ _ _ _ Hs Ha) Hm).
Qed.

(** ** The session *)

(** X12. A session that holds a mode keeps that mode over any runs without
    the Reset button: such a run goes on past line 194, and the uploader and
    the "Create New Report" button are no longer read. *)
Theorem session_mode_persists : forall s m inputs,
  mode s = Some m ->
  forallb (fun i => negb (fst (fst i))) inputs = true ->
  (forall uploaded create_new,
     start_run (Some s) false uploaded create_new = start_run (Some s) false None false)
  /\ snd (start_run (Some s) false None false) = Proceeds
  /\ exists s', run_all (Some s) inputs = Some s' /\ mode s' = Some m.
Proof.
  intros s m inputs Hm Hi. split; [|split].
  - intros uploaded create_new. unfold start_run. cbn. rewrite Hm. reflexivity.
  - unfold start_run. cbn. rewrite Hm. reflexivity.
  - exists s. split; [|exact Hm].
    induction inputs as [|[[reset up] cn] inputs IH]; [reflexivity|].
    cbn [forallb] in Hi. apply andb_prop in Hi as [Hr Hi]. cbn [fst negb] in Hr.
    destruct reset; [discriminate|].
    cbn [run_all]. unfold start_run at 1. cbn. rewrite Hm. cbn [fst]. exact (IH Hi).
Qed.

(** X13. An upload that [parse_docx_report] rejects, in a run that shows the
    uploader (a first run, a run after a Reset or after one that stopped),
    still switches the session to the edit mode, with the empty prefill: the
    run raises, and every later run goes on in the edit mode without names
    (the page asks for them), with no category or overall history, and with
    every widget starting at 50. *)
Theorem failed_upload_enters_edit_mode : forall s reset doc create_new e,
  reset = true \/ idle_session s ->
  parse_docx_report doc = Err e ->
  start_run s reset (Some doc) create_new
    = (Some {| mode := Some ModeEdit; prefill_meta := None |}, Raised e)
  /\ (forall uploaded create_new',
        start_run (Some {| mode := Some ModeEdit; prefill_meta := None |}) false
          uploaded create_new'
        = (Some {| mode := Some ModeEdit; prefill_meta := None |}, Proceeds))
  /\ use_existing {| mode := Some ModeEdit; prefill_meta := None |} = true
  /\ loaded_names {| mode := Some ModeEdit; prefill_meta := None |} = None
  /\ prefill_overall_history {| mode := Some ModeEdit; prefill_meta := None |} = []
  /\ (forall cat,
        slider_default true (prefill_cat_history {| mode := Some ModeEdit; prefill_meta := None |})
          cat = Ok 50%Z).
Proof.
  intros s reset doc create_new e Hs H.
  assert (E : start_run s reset (Some doc) create_new = start_run None false (Some doc) create_new).
  { destruct Hs as [Hr | Hi]; [subst reset; reflexivity|].
    unfold idle_session in Hi. destruct Hi as [Hi | Hi]; subst s; destruct reset; reflexivity. }
  rewrite E. unfold start_run. cbn. rewrite H.
  repeat split; reflexivity.
Qed.
Lemma strip_self_ends : forall s, strip s = s -> s <> [] ->
  is_space (hd 0%N s) = false /\ is_space (last s 0%N) = false.
Proof.
  intros s H Hne. pose proof (lstrip_of_strip s H) as Hl. split.
  - destruct s as [|c s']; [contradiction|]. simpl.
    destruct (is_space c) eqn:E; [|reflexivity]. exfalso.
    simpl in Hl. rewrite E in Hl. pose proof (lstrip_length s') as L.
    rewrite Hl in L. simpl in L. lia.
  - unfold strip in H. rewrite Hl in H. unfold rstrip in H.
    assert (H' : lstrip (rev s) = rev s) by (rewrite <- H at 2; now rewrite rev_involutive).
    destruct (exists_last Hne) as [init [x Ex]]. rewrite Ex in H' |- *.
    rewrite last_last. rewrite rev_app_distr in H'. simpl in H'.
    destruct (is_space x) eqn:E; [|reflexivity]. exfalso.
    pose proof (lstrip_length (rev init)) as L. rewrite H' in L. simpl in L. lia.
Qed.

Lemma count_zero_contains : forall c s, count_char c s = O -> contains c s = false.
Proof.
  intros c s. unfold count_char, contains. induction s as [|x s IH]; simpl; [reflexivity|].
  destruct (c =? x)%N; simpl; [discriminate|exact IH].
Qed.

Lemma starts_with_app_long : forall p y z,
  (List.length p <= List.length y)%nat -> starts_with p (y ++ z) = starts_with p y.
Proof.
  induction p as [|a p IH]; intros y z H; [reflexivity|].
  destruct y as [|b y]; simpl in H; [lia|]. simpl. rewrite IH by lia. reflexivity.
Qed.

Lemma replace_fuel_nil : forall fuel pat rep, replace_fuel fuel pat rep [] = [].
Proof. intros [|f] pat rep; reflexivity. Qed.

(** [s.replace(pat, rep)] when [pat] occurs in [P ++ pat] only at its end. *)
Lemma replace_fuel_last : forall pat rep P fuel,
  pat <> [] -> (List.length P < fuel)%nat ->
  occurs pat (P ++ removelast pat) = false ->
  replace_fuel fuel pat rep (P ++ pat) = P ++ rep.
Proof.
  intros pat rep P. induction P as [|c P IH]; intros fuel Hpat Hf Hocc.
  - destruct fuel as [|f]; [lia|]. destruct pat as [|a pat']; [contradiction|].
    simpl app. cbn [replace_fuel].
    assert (Hs : starts_with (a :: pat') (a :: pat') = true).
    { pose proof (starts_with_app_self (a :: pat') []) as E. now rewrite app_nil_r in E. }
    rewrite Hs. rewrite skipn_length_self, replace_fuel_nil. apply app_nil_r.
  - destruct fuel as [|f]; [simpl in Hf; lia|].
    simpl in Hocc. apply orb_false_elim in Hocc as [H1 H2].
    simpl app. cbn [replace_fuel].
    assert (E : c :: P ++ pat = (c :: P ++ removelast pat) ++ [last pat 0%N]).
    { simpl. rewrite <- app_assoc. f_equal. f_equal. apply app_removelast_last. exact Hpat. }
    replace (starts_with pat (c :: P ++ pat)) with false.
    + rewrite IH by (simpl in Hf; lia || assumption). reflexivity.
    + rewrite E, starts_with_app_long, H1; [reflexivity|].
      simpl. rewrite length_app.
      pose proof (app_removelast_last 0%N Hpat) as Er.
      assert (L : List.length pat = S (List.length (removelast pat))).
      { rewrite Er at 1. rewrite length_app. simpl. lia. }
      lia.
Qed.

Lemma strip_snoc_space : forall n, n <> [] -> strip n = n -> strip (n ++ [32%N]) = n.
Proof.
  intros n Hne Hs. destruct (strip_self_ends n Hs Hne) as [_ Hl].
  assert (Hlst : lstrip (n ++ [32%N]) = n ++ [32%N]).
  { rewrite lstrip_app, (lstrip_of_strip n Hs). destruct n; [contradiction|reflexivity]. }
  unfold strip. rewrite Hlst. unfold rstrip. rewrite rev_app_distr. cbn [rev app lstrip]. rewrite space_32.
  assert (E : lstrip (rev n) = rev n).
  { destruct (exists_last Hne) as [init [x Ex]]. rewrite Ex in Hl |- *.
    rewrite last_last in Hl. rewrite rev_app_distr. simpl. now rewrite Hl. }
  rewrite E. apply rev_involutive.
Qed.

Lemma strip_framed_space : forall t, t <> [] -> strip t = t -> strip (32%N :: t ++ [32%N]) = t.
Proof.
  intros t Hne Hs. rewrite strip_space_cons. exact (strip_snoc_space t Hne Hs).
Qed.

(** The heading sets the two names to the very names written, when they
    are non-empty, carry no surrounding whitespace and no en dash, and the
    heading holds "Stats Report" only at its end. *)
Lemma parse_line_heading_exact : forall st n ty,
  n <> [] -> ty <> [] -> strip n = n -> strip ty = ty ->
  count_char ENDASH n = O -> count_char ENDASH ty = O ->
  occurs STATS_REPORT (removelast (heading_line n ty)) = false ->
  parse_line st (heading_line n ty)
  = Ok {| meta := set_names n ty (meta st); overall_header_seen := overall_header_seen st |}.
Proof.
  intros st n ty Hn Hty Hsn Hsty Hcn Hcty Hocc.
  set (P := n ++ [32%N; ENDASH; 32%N] ++ ty ++ [32%N]).
  assert (EH : heading_line n ty = P ++ STATS_REPORT).
  { unfold heading_line, P. rewrite <- !app_assoc. reflexivity. }
  destruct (strip_self_ends n Hsn Hn) as [Hh _].
  assert (Hs : strip (heading_line n ty) = heading_line n ty).
  { apply strip_framed.
    - unfold heading_line. destruct n; [contradiction|discriminate].
    - unfold heading_line. destruct n as [|c n']; [contradiction|exact Hh].
    - rewrite EH. rewrite last_app_nonempty by discriminate. reflexivity. }
  assert (Hshape : is_heading_shaped (heading_line n ty) = true).
  { unfold is_heading_shaped. rewrite EH, ends_with_app_self. simpl.
    unfold contains. apply existsb_exists. exists ENDASH. split; [|apply N.eqb_refl].
    apply in_or_app. left. unfold P. apply in_or_app. right. simpl. auto. }
  assert (Hrep : replace STATS_REPORT [] (heading_line n ty) = P).
  { unfold replace. rewrite EH. rewrite replace_fuel_last.
    - apply app_nil_r.
    - discriminate.
    - rewrite length_app. simpl. lia.
    - rewrite EH, removelast_app in Hocc by discriminate. exact Hocc. }
  assert (Hsplit : split_char ENDASH P = [n ++ [32%N]; 32%N :: ty ++ [32%N]]).
  { unfold P. change ([32%N; ENDASH; 32%N] ++ ty ++ [32%N])
      with (32%N :: ENDASH :: (32%N :: ty ++ [32%N])).
    replace (n ++ 32%N :: ENDASH :: 32%N :: ty ++ [32%N])
      with ((n ++ [32%N]) ++ ENDASH :: 32%N :: ty ++ [32%N])
      by (rewrite <- app_assoc; reflexivity).
    rewrite split_char_app.
    - rewrite split_char_nosep; [reflexivity|].
      unfold contains. simpl. rewrite existsb_app. simpl.
      pose proof (count_zero_contains _ _ Hcty) as C. unfold contains in C.
      rewrite C. reflexivity.
    - unfold contains. rewrite existsb_app. simpl.
      pose proof (count_zero_contains _ _ Hcn) as C. unfold contains in C.
      rewrite C. reflexivity. }
  unfold parse_line. cbv zeta. rewrite Hs, Hshape, Hrep, Hsplit.
  rewrite (strip_snoc_space n Hn Hsn), (strip_framed_space ty Hty Hsty). reflexivity.
Qed.

Lemma parse_line_keeps_names : forall st t st',
  is_heading_shaped (strip t) = false -> parse_line st t = Ok st' ->
  player_name (meta st') = player_name (meta st) /\ player_type (meta st') = player_type (meta st).
Proof.
  intros st t st' Hh H. unfold parse_line in H. cbv zeta in H. rewrite Hh in H.
  destruct (cat_pattern_match (strip t)) as [[g1 g2]|].
  - destruct (parse_values g2) as [vals|e]; cbn [bind] in H; [|discriminate].
    injection H as <-. auto.
  - destruct (text_eqb (strip t) OVERALL_HEADER).
    { injection H as <-. auto. }
    destruct (overall_header_seen st && date_pattern_match (strip t)).
    + destruct (split_char COLON (strip t)) as [|dp [|vp [|]]]; try discriminate.
      destruct (py_float (strip vp)) as [v|]; cbn [of_option bind] in H; [|discriminate].
      injection H as <-. auto.
    + destruct (starts_with OVERALL_RATING (strip t)); [injection H as <-; auto|].
      destruct (is_nil (strip t)); injection H as <-; auto.
Qed.

Lemma parse_lines_keeps_names : forall ts st st',
  Forall (fun t => is_heading_shaped (strip t) = false) ts -> parse_lines st ts = Ok st' ->
  player_name (meta st') = player_name (meta st) /\ player_type (meta st') = player_type (meta st).
Proof.
  induction ts as [|t ts IH]; intros st st' Hall H; simpl in H.
  - injection H as <-. auto.
  - inversion Hall as [|? ? Ht Hts]; subst.
    destruct (parse_line st t) as [st1|e] eqn:E; cbn [bind] in H; [|discriminate].
    destruct (parse_line_keeps_names _ _ _ Ht E) as [E1 E2].
    destruct (IH _ _ Hts H) as [E3 E4]. split; congruence.
Qed.

Lemma lstrip_keeps_last : forall t, t <> [] -> is_space (last t 0%N) = false ->
  lstrip t <> [] /\ last (lstrip t) 0%N = last t 0%N.
Proof.
  induction t as [|c t IH]; intros Hne Hl; [contradiction|].
  simpl. destruct (is_space c) eqn:E.
  - destruct t as [|c' t']; [simpl in Hl; congruence|].
    change (last (c :: c' :: t') 0%N) with (last (c' :: t') 0%N) in Hl |- *.
    apply IH; [discriminate|exact Hl].
  - split; [discriminate|reflexivity].
Qed.

(** A line whose last character is neither whitespace nor 't' is not a
    heading. *)
Lemma not_heading_by_last : forall t, t <> [] -> is_space (last t 0%N) = false ->
  last t 0%N <> 116%N -> is_heading_shaped (strip t) = false.
Proof.
  intros t Hne Hl Ht. destruct (lstrip_keeps_last t Hne Hl) as [H1 H2].
  assert (Hs : strip t = lstrip t).
  { unfold strip. apply (rstrip_last_nonspace [] (lstrip t) H1). now rewrite H2. }
  rewrite Hs. apply not_heading_last; [exact H1|now rewrite H2].
Qed.

(** The same for a paragraph added with such a text, whose last character
    is not '\r'. *)
Lemma crlf_not_heading : forall t, t <> [] -> is_space (last t 0%N) = false ->
  last t 0%N <> 116%N -> last t 0%N <> 13%N -> is_heading_shaped (strip (map crlf t)) = false.
Proof.
  intros t Hne Hl Ht Hc.
  assert (E : last (map crlf t) 0%N = last t 0%N).
  { change 0%N with (crlf 0%N) at 1. rewrite (last_map_text crlf t 0%N Hne).
    unfold crlf. apply N.eqb_neq in Hc. rewrite Hc. reflexivity. }
  apply not_heading_by_last.
  - intro H. apply map_eq_nil in H. contradiction.
  - rewrite E. exact Hl.
  - rewrite E. exact Ht.
Qed.

Lemma fmt1f_last_plain : forall v,
  is_space (last (fmt1f v) 0%N) = false /\ last (fmt1f v) 0%N <> 116%N
  /\ last (fmt1f v) 0%N <> 13%N.
Proof.
  intro v. pose proof (fmt1f_last v) as H. revert H.
  generalize (last (fmt1f v) 0%N). intros x H. vm_compute in H.
  repeat (destruct H as [<-|H]; [split; [reflexivity|split; discriminate]|]).
  contradiction.
Qed.

Lemma bullet_line_not_heading : forall c vals,
  is_heading_shaped (strip (map crlf (bullet_line c vals))) = false.
Proof.
  intros c vals. destruct vals as [|v vs].
  - set (c' := map crlf c).
    assert (E : map crlf (bullet_line c []) = ([BULLET; 32%N] ++ c' ++ [58%N]) ++ [32%N])
      by (unfold bullet_line, c'; rewrite !map_app; cbn; now rewrite <- !app_assoc).
    assert (Hn : strip ([BULLET; 32%N] ++ c' ++ [58%N]) = [BULLET; 32%N] ++ c' ++ [58%N]).
    { apply strip_framed; [discriminate|reflexivity|].
      rewrite app_assoc, last_last. reflexivity. }
    rewrite E, (strip_snoc_space ([BULLET; 32%N] ++ c' ++ [58%N]) ltac:(discriminate) Hn).
    apply not_heading_last; [discriminate|].
    rewrite app_assoc, last_last. discriminate.
  - set (toks := map fmt1f (v :: vs)).
    assert (Hin : In (last toks []) toks) by (apply last_in; discriminate).
    unfold toks in Hin. apply in_map_iff in Hin as [w [Ew _]].
    assert (Hne : last toks [] <> []) by (unfold toks; rewrite <- Ew; apply fmt1f_nonempty).
    destruct (bullet_text_end c toks Hne) as [X [sep [Eb _]]].
    change (bullet_line c (v :: vs)) with (bullet_text c toks).
    assert (Hl : last (bullet_text c toks) 0%N = last (fmt1f w) 0%N).
    { rewrite Eb. change (X ++ sep :: 32%N :: last toks []) with (X ++ [sep; 32%N] ++ last toks []).
      rewrite app_assoc, last_app_nonempty by exact Hne. unfold toks. rewrite <- Ew. reflexivity. }
    destruct (fmt1f_last_plain w) as [P1 [P2 P3]].
    apply crlf_not_heading; rewrite ?Hl; try assumption.
    rewrite Eb. intro E. apply app_eq_nil in E as [_ E]. discriminate.
Qed.

Lemma date_line_not_heading : forall e, is_heading_shaped (strip (map crlf (date_line e))) = false.
Proof.
  intros [d v]. unfold date_line. cbn [fst snd].
  assert (Hl : last (d ++ str ": " ++ fmt1f v) 0%N = last (fmt1f v) 0%N)
    by (rewrite app_assoc; apply last_app_nonempty; apply fmt1f_nonempty).
  destruct (fmt1f_last_plain v) as [P1 [P2 P3]].
  apply crlf_not_heading; rewrite ?Hl; try assumption.
  intro E. apply app_eq_nil in E as [_ E]. discriminate.
Qed.

Lemma timestamp_not_heading : forall today now, is_hms now = true ->
  is_heading_shaped (strip (map crlf (str "Report Generated: " ++ today ++ str " " ++ now))) = false.
Proof.
  intros today now Hh. destruct (is_hms_last now Hh) as [Hne Hd].
  pose proof (ascii_digit_range _ Hd) as Hr.
  assert (Hl : last (str "Report Generated: " ++ today ++ str " " ++ now) 0%N = last now 0%N)
    by (rewrite !app_assoc; apply last_app_nonempty; exact Hne).
  apply crlf_not_heading.
  - discriminate.
  - rewrite Hl. exact (ascii_digit_nonspace _ Hd).
  - rewrite Hl. lia.
  - rewrite Hl. lia.
Qed.

Lemma rating_not_heading : forall s,
  is_heading_shaped (strip (map crlf (str "Overall Rating: " ++ fmt1f s ++ str " / 120"))) = false.
Proof.
  intro s. assert (Hl : last (str "Overall Rating: " ++ fmt1f s ++ str " / 120") 0%N = 48%N)
    by (rewrite !app_assoc; apply last_app_nonempty; discriminate).
  apply crlf_not_heading; [discriminate| | |]; rewrite Hl; [reflexivity|discriminate|discriminate].
Qed.

Lemma map_result_forall : forall {A B} (f : A -> result B) (P : B -> Prop) l bs,
  (forall a b, f a = Ok b -> P b) -> map_result f l = Ok bs -> Forall P bs.
Proof.
  intros A B f P l. induction l as [|a l IH]; intros bs Hf H; simpl in H.
  - injection H as <-. constructor.
  - destruct (f a) as [b|e] eqn:Ea; cbn [bind] in H; [|discriminate].
    destruct (map_result f l) as [bs'|e]; cbn [bind] in H; [|discriminate].
    injection H as <-. constructor; [exact (Hf _ _ Ea)|exact (IH _ Hf eq_refl)].
Qed.

(** The document of [create_docx_report]: its heading, then lines none of
    which is heading-shaped. *)
Lemma create_doc_shape : forall n ty scores pc po today now doc,
  is_hms now = true ->
  create_docx_report n ty scores pc po today now = Ok doc ->
  exists rest, doc = map crlf (heading_line n ty) :: rest /\
               Forall (fun t => is_heading_shaped (strip t) = false) rest.
Proof.
  intros n ty scores pc po today now doc Hh H.
  destruct (create_docx_shape _ _ _ _ _ _ _ _ H)
    as [ch [ov [s [bullets [dates [_ [Eb [Ed ->]]]]]]]].
  eexists. split; [reflexivity|].
  constructor; [exact (timestamp_not_heading today now Hh)|].
  constructor; [reflexivity|]. constructor; [reflexivity|].
  apply Forall_app. split.
  { refine (map_result_forall _ _ _ _ _ Eb). intros cs b H'. cbv beta in H'.
    destruct (Dict.get (fst cs) ch) as [vals|]; cbn [of_option bind] in H'; [|discriminate].
    apply docx_text_ok in H'. subst b. apply bullet_line_not_heading. }
  constructor; [reflexivity|].
  constructor; [apply rating_not_heading|].
  constructor; [vm_compute; reflexivity|]. constructor; [vm_compute; reflexivity|].
  refine (map_result_forall _ _ _ _ _ Ed). intros e b H'.
  apply docx_text_ok in H'. subst b. apply date_line_not_heading.
Qed.

(** X14. Uploading a report that [create_docx_report] wrote, and that parses,
    in a run that shows the uploader, switches the session to the edit mode
    with the parsed report, and the page takes the player's name and type
    from it; this holds when the names are non-empty, carry no surrounding
    whitespace, no en dash and no '\r' (which reads back as '\n'), and the
    heading holds "Stats Report" only at its end. *)
Theorem upload_restores_names : forall s reset n ty scores pc po today now cn doc m,
  reset = true \/ idle_session s ->
  n <> [] -> ty <> [] -> strip n = n -> strip ty = ty ->
  count_char ENDASH n = O -> count_char ENDASH ty = O ->
  contains 13 n = false -> contains 13 ty = false ->
  occurs STATS_REPORT (removelast (heading_line n ty)) = false ->
  is_hms now = true ->
  create_docx_report n ty scores pc po today now = Ok doc ->
  parse_docx_report doc = Ok m ->
  player_name m = Some n /\ player_type m = Some ty /\
  start_run s reset (Some doc) cn
    = (Some {| mode := Some ModeEdit; prefill_meta := Some m |}, Proceeds) /\
  loaded_names {| mode := Some ModeEdit; prefill_meta := Some m |} = Some (ty, n).
Proof.
  intros s reset n ty scores pc po today now cn doc m Hs Hn Hty Hsn Hsty Hcn Hcty Hrn Hrty
    Hocc Hh Hc Hp.
  destruct (create_doc_shape _ _ _ _ _ _ _ _ Hh Hc) as [rest [-> Hall]].
  rewrite heading_line_crlf, (map_crlf_id n Hrn), (map_crlf_id ty Hrty) in Hp |- *.
  assert (Hnames : player_name m = Some n /\ player_type m = Some ty).
  { unfold parse_docx_report in Hp. cbn [parse_lines] in Hp.
    rewrite (parse_line_heading_exact parse_init n ty Hn Hty Hsn Hsty Hcn Hcty Hocc) in Hp.
    cbn [bind] in Hp.
    destruct (parse_lines _ rest) as [st'|e] eqn:E; cbn [bind] in Hp; [|discriminate].
    injection Hp as <-. destruct (parse_lines_keeps_names _ _ _ Hall E) as [E1 E2].
    rewrite E1, E2. split; reflexivity. }
  destruct Hnames as [E1 E2]. split; [exact E1|]. split; [exact E2|]. split.
  - assert (E : forall d, start_run s reset (Some d) cn = start_run None false (Some d) cn).
    { intro d.
      destruct Hs as [Hr | Hi]; [subst reset; reflexivity|].
      unfold idle_session in Hi. destruct Hi as [Hi | Hi]; subst s; destruct reset; reflexivity. }
    rewrite E. unfold start_run. cbn. rewrite Hp. reflexivity.
  - unfold loaded_names. cbn [prefill_meta]. rewrite E1, E2.
    destruct n as [|a n]; [contradiction|]. destruct ty as [|b ty]; [contradiction|].
    reflexivity.
Qed.
Lemma merge_history_heap_facts : forall scores h d po today h' d' o s,
  NoDup (map fst scores) -> NoDup (map snd d) ->
  (forall b, In b (map snd d) -> (b < List.length h)%nat) ->
  (po < List.length h)%nat -> ~ In po (map snd d) ->
  Heap.merge_history_heap scores h d po today = Ok (h', d', o, s) ->
  (List.length h < List.length h')%nat
  /\ (exists avgs m, map_result (fun cs => category_average (snd cs)) scores = Ok avgs
                     /\ mean avgs = Ok m /\ s = round1f (PFin m))
  /\ (forall c a sub, Dict.get c d = Some a -> Dict.get c scores = Some sub ->
        exists avg, category_average sub = Ok avg
          /\ Heap.deref h' a = Heap.deref h a ++ [Heap.IFloat (round1f (PFin avg))]
          /\ Dict.get c d' = Some a)
  /\ Heap.deref h' po = Heap.deref h po
  /\ Heap.deref h' o = Heap.deref h po ++ [Heap.IPair today s].
Proof.
  intros scores h d po today h' d' o s Hnd Hloc Hval Hlo Hlo' H.
  unfold Heap.merge_history_heap in H.
  destruct (Heap.merge_categories_heap scores h d) as [[h1 d1]|] eqn:Em;
    simpl in H; [|discriminate].
  destruct (map_result _ scores) as [avgs|] eqn:Eavgs; simpl in H; [|discriminate].
  destruct (mean avgs) as [m|] eqn:Emean; simpl in H; [|discriminate].
  injection H as <- <- <- <-.
  destruct (merge_heap_loop scores h d h1 d1 Hnd Hloc Hval Em) as [Hlen [Hkeys Hrest]].
  split; [unfold Heap.append, Heap.alloc; cbn [fst snd];
          rewrite length_update, length_app; simpl; lia|].
  split; [exists avgs, m; auto|].
  split; [|split].
  - intros c a sub Hc Hsub. destruct (Hkeys c a Hc) as [Hd1 Hm]. rewrite Hsub in Hm.
    destruct Hm as [avg [Havg Ha]].
    assert (Ha_lt : (a < List.length h)%nat) by (apply Hval; eapply dict_get_in_snd; eauto).
    exists avg. split; [exact Havg|]. split; [|exact Hd1].
    cbn [Heap.alloc fst snd].
    rewrite deref_append_other by lia. rewrite deref_alloc_old by lia. exact Ha.
  - cbn [Heap.alloc fst snd].
    rewrite deref_append_other by lia. rewrite deref_alloc_old by lia. now apply Hrest.
  - cbn [Heap.alloc fst snd].
    rewrite deref_append_same by (rewrite length_app; simpl; lia).
    rewrite deref_alloc_new. now rewrite (Hrest po Hlo Hlo').
Qed.

(** X15. Clicking "Save Report as DOCX" twice in one session: both runs hand
    [create_docx_report] the same session dict and the same overall list, so
    a category list of the uploaded report gains the new average twice,
    while the overall history of the second report holds one new entry. *)
Theorem save_twice_appends_twice :
  forall scores h prev_cat po today1 today2 h1 d1 o1 s1 h2 d2 o2 s2 c a sub,
  NoDup (map fst scores) -> NoDup (map snd prev_cat) ->
  (forall b, In b (map snd prev_cat) -> (b < List.length h)%nat) ->
  (po < List.length h)%nat -> ~ In po (map snd prev_cat) ->
  Dict.get c prev_cat = Some a -> Dict.get c scores = Some sub ->
  Heap.merge_history_heap scores h prev_cat po today1 = Ok (h1, d1, o1, s1) ->
  Heap.merge_history_heap scores h1 prev_cat po today2 = Ok (h2, d2, o2, s2) ->
  exists avg, category_average sub = Ok avg
    /\ s2 = s1
    /\ Dict.get c d2 = Some a
    /\ Heap.deref h2 a = Heap.deref h a ++ [Heap.IFloat (round1f (PFin avg)); Heap.IFloat (round1f (PFin avg))]
    /\ Heap.deref h2 o2 = Heap.deref h po ++ [Heap.IPair today2 s2].
Proof.
  intros scores h prev_cat po today1 today2 h1 d1 o1 s1 h2 d2 o2 s2 c a sub
    Hnd Hloc Hval Hlo Hlo' Hc Hsub H1 H2.
  destruct (merge_history_heap_facts _ _ _ _ _ _ _ _ _ Hnd Hloc Hval Hlo Hlo' H1)
    as [Hlen1 [[avgs [m [Ea [Em ->]]]] [Hcat1 [Hpo1 Ho1]]]].
  assert (Hval1 : forall b, In b (map snd prev_cat) -> (b < List.length h1)%nat)
    by (intros b Hb; specialize (Hval b Hb); lia).
  assert (Hlo1 : (po < List.length h1)%nat) by lia.
  destruct (merge_history_heap_facts _ _ _ _ _ _ _ _ _ Hnd Hloc Hval1 Hlo1 Hlo' H2)
    as [_ [[avgs' [m' [Ea' [Em' ->]]]] [Hcat2 [_ Ho2]]]].
  rewrite Ea in Ea'. injection Ea' as <-. rewrite Em in Em'. injection Em' as <-.
  destruct (Hcat1 c a sub Hc Hsub) as [avg [Havg [Ha1 _]]].
  destruct (Hcat2 c a sub Hc Hsub) as [avg' [Havg' [Ha2 Hd2]]].
  rewrite Havg in Havg'. injection Havg' as <-.
  exists avg. split; [exact Havg|]. split; [reflexivity|]. split; [exact Hd2|]. split.
  - rewrite Ha2, Ha1, <- app_assoc. reflexivity.
  - rewrite Ho2, Hpo1. reflexivity.
Qed.

Lemma replace_fuel_char : forall a b fuel s, (List.length s < fuel)%nat ->
  replace_fuel fuel [a] [b] s = map (fun c => if (a =? c)%N then b else c) s.
Proof.
  intros a b fuel. induction fuel as [|f IH]; intros s Hf; [lia|].
  destruct s as [|c s']; [reflexivity|]. simpl in Hf |- *.
  rewrite andb_true_r. destruct (a =? c)%N; simpl; rewrite IH by lia; reflexivity.
Qed.

(** X16. The download name: the spaces of the player's name become underscores;
    the date and the player type are kept as they are. *)
Theorem filename_underscores_name : forall date name type,
  report_filename date name type
  = date ++ str "_" ++ map (fun c => if (32 =? c)%N then 95%N else c) name ++ str "_"
    ++ type ++ str "_Report.docx"
  /\ count_char 32 (report_filename date name type)
     = (count_char 32 date + count_char 32 type)%nat.
Proof.
  intros date name type.
  assert (E : replace (str " ") (str "_") name
              = map (fun c => if (32 =? c)%N then 95%N else c) name)
    by (apply replace_fuel_char; lia).
  unfold report_filename. rewrite E. split; [reflexivity|].
  rewrite !count_char_app.
  assert (Hn : count_char 32 (map (fun c => if (32 =? c)%N then 95%N else c) name) = O).
  { clear E. unfold count_char. induction name as [|c name IH]; [reflexivity|].
    cbn [map]. destruct (32 =? c)%N eqn:Ec.
    - exact IH.
    - cbn [filter]. rewrite Ec. exact IH. }
  rewrite Hn. vm_compute (count_char 32 (str "_")). vm_compute (count_char 32 (str "_Report.docx")).
  lia.
Qed.

(** ** Witnesses of the properties of the chart, the page and the session *)

(** ** Witnesses of the properties of the parser, the chart, the page and
    the session *)

Lemma bullet_drops_blank_tokens_only_witness :
  is_heading_shaped (strip ([BULLET] ++ str " Execution: 80.0; ; 1e2")) = false
  /\ cat_pattern_match (strip ([BULLET] ++ str " Execution: 80.0; ; 1e2"))
     = Some (str "Execution", str "80.0; ; 1e2")
  /\ ((exists tok, In tok (split_char SEMI (str "80.0; ; 1e2")) /\ strip tok <> []
                   /\ py_float (strip tok) = None) ->
      forall rest, parse_lines parse_init (([BULLET] ++ str " Execution: 80.0; ; 1e2") :: rest)
                   = Err ValueError)
  /\ ((forall tok, In tok (split_char SEMI (str "80.0; ; 1e2")) -> strip tok <> [] ->
                   py_float (strip tok) <> None) ->
      exists vals,
        parse_line parse_init ([BULLET] ++ str " Execution: 80.0; ; 1e2")
        = Ok {| meta := set_category (strip (str "Execution")) vals (meta parse_init);
                overall_header_seen := overall_header_seen parse_init |}
        /\ Forall2 (fun tok v => py_float (strip tok) = Some v)
             (filter (fun tok => negb (is_nil (strip tok))) (split_char SEMI (str "80.0; ; 1e2")))
             vals).
Proof.
  assert (H1 : is_heading_shaped (strip ([BULLET] ++ str " Execution: 80.0; ; 1e2")) = false)
    by (vm_compute; reflexivity).
  assert (H2 : cat_pattern_match (strip ([BULLET] ++ str " Execution: 80.0; ; 1e2"))
               = Some (str "Execution", str "80.0; ; 1e2")) by (vm_compute; reflexivity).
  split; [exact H1|]. split; [exact H2|].
  exact (bullet_drops_blank_tokens_only parse_init _ _ _ H1 H2).
Defined.


Lemma barograph_trace_count_witness :
  build_barograph sample_scores true true = Ok sample_fig
  /\ List.length (fig_traces sample_fig)
     = ((if true then list_sum (map (fun cs => List.length (snd cs)) sample_scores) else 0)
       + (if true then List.length sample_scores else 0))%nat.
Proof.
  split; [vm_compute; reflexivity|].
  apply (barograph_trace_count sample_scores true true sample_fig). vm_compute. reflexivity.
Defined.

Lemma barograph_legend_first_category_witness :
  build_barograph sample_scores true false = Ok sample_fig_sub
  /\ map bar_name (filter bar_showlegend (fig_traces sample_fig_sub))
     = [str "Footwork"; str "Release"].
Proof.
  split; [vm_compute; reflexivity|].
  exact (barograph_legend_first_category sample_scores true false sample_fig_sub eq_refl).
Defined.

Lemma create_chart_never_raises_witness :
  exists fig, build_barograph sample_scores true true = Ok fig.
Proof.
  apply (create_chart_never_raises sample_scores sample_prev_cat sample_prev_overall
           sample_today sample_merged).
  vm_compute. reflexivity.
Defined.

Lemma merge_values_within_witness :
  (exists y, float_value (snd sample_merged) = Some y /\ inject_Z 1 <= y /\ y <= inject_Z 100)
  /\ forall c sub, Dict.get c sample_scores = Some sub ->
       exists v y, Dict.get c (fst (fst sample_merged)) = Some (get_or_nil c sample_prev_cat ++ [v])
                   /\ float_value v = Some y /\ inject_Z 1 <= y /\ y <= inject_Z 100.
Proof.
  apply (merge_values_within sample_scores sample_prev_cat sample_prev_overall sample_today
           (fst (fst sample_merged)) (snd (fst sample_merged)) (snd sample_merged) 1 100).
  - vm_compute. discriminate.
  - vm_compute. discriminate.
  - nodup_texts.
  - repeat constructor; cbn; lia.
  - vm_compute. reflexivity.
Defined.

Lemma page_overall_matches_report_witness :
  exists x, snd sample_page = str "**Overall Rating:** " ++ x ++ str " / 120"
            /\ In (str "Overall Rating: " ++ x ++ str " / 120") sample_report.
Proof.
  apply (page_overall_matches_report (str "Ada") (str "Guard") sample_scores sample_prev_cat
           sample_prev_overall sample_today sample_now sample_report (fst sample_page)).
  - repeat constructor; cbn; lia.
  - vm_compute. reflexivity.
  - vm_compute. reflexivity.
Defined.

(** A Specialty sub-skill listed under the same Skillset category: its
    widget key is created twice, and the page raises. *)
Lemma sample_specialty_clash_raises :
  build_scores sample_widget true false true sample_prev_cat sample_skillset
    sample_specialty_clash = Err StreamlitAPIException.
Proof. vm_compute. reflexivity. Qed.

Lemma build_scores_spec_witness :
  exists sc,
  build_scores sample_widget true false true sample_prev_cat sample_skillset sample_specialty = Ok sc
  /\ map fst sc = map fst sample_skillset
       ++ filter (fun c => negb (Dict.mem c sample_skillset)) (map fst sample_specialty)
  /\ (forall c,
        match Dict.get c sample_specialty, Dict.get c sample_skillset with
        | Some subs, _ | None, Some subs =>
            exists a, slider_default true sample_prev_cat c = Ok a
              /\ Dict.get c sc = Some (fill_values sample_widget true false c subs a)
              /\ (subs <> [] -> (1 <= a <= 100)%Z)
        | None, None => Dict.get c sc = None
        end)
  /\ (forall c subs1 subs2 sub, Dict.get c sample_skillset = Some subs1 ->
        Dict.get c sample_specialty = Some subs2 -> In sub subs1 -> ~ In sub subs2).
Proof.
  eexists. split; [vm_compute; reflexivity|].
  apply build_scores_spec; [nodup_texts|nodup_texts|vm_compute; reflexivity].
Defined.

Lemma page_ratings_within_witness :
  exists sc,
  build_scores sample_widget true false true sample_prev_cat sample_skillset sample_specialty = Ok sc
  /\ (forall c sub a, In (c, sub) sc ->
        category_average sub = Ok a -> inject_Z 1 <= a /\ a <= inject_Z 100)
  /\ (forall avgs m,
        map_result (fun cs => category_average (snd cs)) sc = Ok avgs ->
        mean avgs = Ok m -> inject_Z 1 <= m /\ m <= inject_Z 100).
Proof.
  eexists. split; [vm_compute; reflexivity|].
  apply (page_ratings_within sample_widget true false true sample_prev_cat sample_skillset
           sample_specialty).
  - intros k x. unfold sample_widget. lia.
  - vm_compute. reflexivity.
Defined.

Lemma session_mode_persists_witness :
  (forall uploaded create_new,
     start_run (Some {| mode := Some ModeNew; prefill_meta := None |}) false uploaded create_new
     = start_run (Some {| mode := Some ModeNew; prefill_meta := None |}) false None false)
  /\ snd (start_run (Some {| mode := Some ModeNew; prefill_meta := None |}) false None false)
     = Proceeds
  /\ exists s', run_all (Some {| mode := Some ModeNew; prefill_meta := None |})
                  [(false, Some sample_report, true); (false, None, false)] = Some s'
                /\ mode s' = Some ModeNew.
Proof.
  apply (session_mode_persists _ ModeNew); reflexivity.
Defined.

Lemma failed_upload_enters_edit_mode_witness :
  parse_docx_report sample_bad_report = Err ValueError
  /\ start_run (Some {| mode := None; prefill_meta := None |}) false (Some sample_bad_report) true
      = (Some {| mode := Some ModeEdit; prefill_meta := None |}, Raised ValueError).
Proof.
  assert (E : parse_docx_report sample_bad_report = Err ValueError) by (vm_compute; reflexivity).
  split; [exact E|].
  exact (proj1 (failed_upload_enters_edit_mode (Some {| mode := None; prefill_meta := None |})
                  false sample_bad_report true ValueError (or_intror (or_intror eq_refl)) E)).
Defined.

Lemma upload_restores_names_witness :
  player_name sample_report_parsed = Some (str "Ada")
  /\ player_type sample_report_parsed = Some (str "Guard")
  /\ start_run None false (Some sample_report) false
      = (Some {| mode := Some ModeEdit; prefill_meta := Some sample_report_parsed |}, Proceeds)
  /\ loaded_names {| mode := Some ModeEdit; prefill_meta := Some sample_report_parsed |}
      = Some (str "Guard", str "Ada").
Proof.
  apply (upload_restores_names None false (str "Ada") (str "Guard") sample_scores sample_prev_cat
           sample_prev_overall sample_today sample_now false).
  1: (right; left; reflexivity).
  all: try discriminate.
  all: vm_compute; reflexivity.
Defined.

Lemma save_twice_appends_twice_witness :
  exists avg, category_average [(str "Footwork", 80%Z); (str "Release", 84%Z)] = Ok avg
    /\ snd sample_heap_result2 = snd sample_heap_result
    /\ Dict.get (str "Execution") (snd (fst (fst sample_heap_result2))) = Some 1%nat
    /\ Heap.deref (fst (fst (fst sample_heap_result2))) 1
       = Heap.deref sample_heap 1
         ++ [Heap.IFloat (round1f (PFin avg)); Heap.IFloat (round1f (PFin avg))]
    /\ Heap.deref (fst (fst (fst sample_heap_result2))) (snd (fst sample_heap_result2))
       = Heap.deref sample_heap 2 ++ [Heap.IPair (str "2024-01-11") (snd sample_heap_result2)].
Proof.
  apply (save_twice_appends_twice sample_scores sample_heap sample_prev_cat_ref 2
           sample_today (str "2024-01-11")
           (fst (fst (fst sample_heap_result))) (snd (fst (fst sample_heap_result)))
           (snd (fst sample_heap_result)) (snd sample_heap_result)
           (fst (fst (fst sample_heap_result2))) (snd (fst (fst sample_heap_result2)))
           (snd (fst sample_heap_result2)) (snd sample_heap_result2)
           (str "Execution") 1 [(str "Footwork", 80%Z); (str "Release", 84%Z)]).
  - nodup_texts.
  - repeat constructor; cbn; intuition discriminate.
  - intros b Hb. cbn in Hb. destruct Hb as [<-|[<-|[]]]; cbn; lia.
  - cbn. lia.
  - cbn. intuition discriminate.
  - vm_compute. reflexivity.
  - vm_compute. reflexivity.
  - vm_compute. reflexivity.
  - vm_compute. reflexivity.
Defined.
